(** * web-stack-scan: signature matching, confidence scoring, evidence

    A shallow embedding of the detection core of web-stack-scan
    (tools/frameworks.ts, tools/analytics.ts and the signature catalog of
    config.ts) together with the properties of its specification, and of
    the fingerprint tool (tools/fingerprint.ts) and the command line
    (index.ts) over the run time they call into.

    Strings are sequences of code units below 256 (the Latin-1 range of
    JavaScript's UTF-16 code units); numbers that the code only uses as
    counts and indices are integers. *)

From Stdlib Require Import ZArith QArith Ascii String Uint63 PrimFloat.
From Stdlib Require DecimalString.
From stdpp Require Import gmap strings list sorting.

Local Open Scope string_scope.
Local Open Scope list_scope.
Local Open Scope Z_scope.

#[local] Arguments String.append !s1 s2 : simpl nomatch.

(** ** JavaScript string primitives used by the detectors *)

Module JsString.

Definition code (c : ascii) : Z := Z.of_nat (nat_of_ascii c).

Definition inRange (lo hi : Z) (c : ascii) : bool :=
  (lo <=? code c) && (code c <=? hi).

Definition shift (d : Z) (c : ascii) : ascii :=
  ascii_of_nat (Z.to_nat (code c + d)).

(** [String.prototype.toLowerCase] on one code unit below 256: the Basic
    Latin capitals and the Latin-1 capitals U+00C0..U+00DE except the
    multiplication sign U+00D7. *)
Definition lowerChar (c : ascii) : ascii :=
  if inRange 65 90 c || (inRange 192 222 c && negb (code c =? 215))
  then shift 32 c else c.

(** The upper-case partner used by case-insensitive matching. *)
Definition upperChar (c : ascii) : ascii :=
  if inRange 97 122 c || (inRange 224 254 c && negb (code c =? 247))
  then shift (-32) c else c.

Fixpoint toLowerCase (s : string) : string :=
  match s with
  | EmptyString => EmptyString
  | String c s' => String (lowerChar c) (toLowerCase s')
  end.

(** WhiteSpace and LineTerminator code units below 256: TAB, LF, VT, FF,
    CR, SP and NBSP. *)
Definition isWhiteSpace (c : ascii) : bool :=
  inRange 9 13 c || (code c =? 32) || (code c =? 160).

Fixpoint trimStart (s : string) : string :=
  match s with
  | EmptyString => EmptyString
  | String c s' => if isWhiteSpace c then trimStart s' else s
  end.

Fixpoint trimEnd (s : string) : string :=
  match s with
  | EmptyString => EmptyString
  | String c s' =>
      match trimEnd s' with
      | EmptyString => if isWhiteSpace c then EmptyString else String c EmptyString
      | t => String c t
      end
  end.

Definition trim (s : string) : string := trimEnd (trimStart s).

Definition len (s : string) : Z := Z.of_nat (String.length s).

Fixpoint startsWith (s pat : string) : bool :=
  match pat, s with
  | EmptyString, _ => true
  | String _ _, EmptyString => false
  | String p pat', String c s' => if Ascii.eqb p c then startsWith s' pat' else false
  end.

(** [content.includes(pat)] *)
Fixpoint includes (content pat : string) : bool :=
  startsWith content pat ||
  match content with
  | EmptyString => false
  | String _ rest => includes rest pat
  end.

Fixpoint indexOfFrom (i : Z) (content pat : string) : Z :=
  if startsWith content pat then i
  else match content with
       | EmptyString => -1
       | String _ rest => indexOfFrom (i + 1) rest pat
       end.

(** [content.indexOf(pat)]: the first position, or -1. *)
Definition indexOf (content pat : string) : Z := indexOfFrom 0 content pat.

Fixpoint drop (n : nat) (s : string) : string :=
  match n, s with
  | O, _ => s
  | S _, EmptyString => EmptyString
  | S n', String _ s' => drop n' s'
  end.

Fixpoint take (n : nat) (s : string) : string :=
  match n, s with
  | O, _ => EmptyString
  | S _, EmptyString => EmptyString
  | S n', String c s' => String c (take n' s')
  end.

(** [content.slice(start, end)]: negative arguments count from the end,
    both are clamped to the string, an empty range gives the empty
    string. *)
Definition slice (content : string) (start end_ : Z) : string :=
  let n := len content in
  let from := if start <? 0 then Z.max (n + start) 0 else Z.min start n in
  let to := if end_ <? 0 then Z.max (n + end_) 0 else Z.min end_ n in
  take (Z.to_nat (to - from)) (drop (Z.to_nat from) content).

End JsString.

(** ** Regular expressions

    The constructs of the catalog's RegExp literals, with the backtracking
    semantics of ECMAScript for patterns without the global, sticky or
    unicode flags. *)

Module JsRegExp.
Import JsString.

Inductive ClassItem : Type :=
| CChar (c : ascii)            (* a single character *)
| CRange (lo hi : ascii)       (* lo-hi *)
| CDigit                       (* \d *)
| CWord.                       (* \w *)

Inductive Regex : Type :=
| REmpty
| RChar (c : ascii)                              (* a pattern character *)
| RAny                                           (* . *)
| RClass (negated : bool) (items : list ClassItem) (* [...] and [^...] *)
| RWordB                                         (* \b *)
| RSeq (r1 r2 : Regex)
| RAlt (r1 r2 : Regex)                           (* r1|r2 *)
| RStar (r : Regex)                              (* r* *)
| RPlus (r : Regex)                              (* r+ *)
| ROpt (r : Regex)                               (* r? *)
| RGroup (i : nat) (r : Regex).                  (* i-th capturing group *)

Record RegExp : Type := { source : Regex; ignoreCase : bool }.

Definition isDigit (c : ascii) : bool := inRange 48 57 c.

Definition isWordChar (c : ascii) : bool :=
  inRange 97 122 c || inRange 65 90 c || isDigit c || (code c =? 95).

Definition isLineTerminator (c : ascii) : bool :=
  (code c =? 10) || (code c =? 13).

Definition itemHas (it : ClassItem) (c : ascii) : bool :=
  match it with
  | CChar a => Ascii.eqb a c
  | CRange lo hi => inRange (code lo) (code hi) c
  | CDigit => isDigit c
  | CWord => isWordChar c
  end.

(** Membership of [c] in a class item; with the i flag some member has
    to agree with [c] up to case. *)
Definition itemMatches (ic : bool) (it : ClassItem) (c : ascii) : bool :=
  if ic then itemHas it c || itemHas it (lowerChar c) || itemHas it (upperChar c)
  else itemHas it c.

Definition charMatches (ic : bool) (a c : ascii) : bool :=
  if ic then Ascii.eqb (upperChar a) (upperChar c) else Ascii.eqb a c.

(** The matcher state: the character before the current position (for
    \b), the input still to be read, and the captures so far. *)
Record MState : Type :=
  { prev : option ascii; rest : string; caps : gmap nat string }.

Definition Cont : Type := MState -> option MState.

Definition remaining (st : MState) : nat := String.length (rest st).

Definition consumed (st st' : MState) : string :=
  take (remaining st - remaining st') (rest st).

Definition setCap (i : nat) (s : string) (st : MState) : MState :=
  {| prev := prev st; rest := rest st; caps := <[i := s]> (caps st) |}.

Definition clearCaps (gs : list nat) (st : MState) : MState :=
  {| prev := prev st; rest := rest st;
     caps := foldr (fun i m => delete i m) (caps st) gs |}.

Definition headOf (s : string) : option ascii :=
  match s with EmptyString => None | String c _ => Some c end.

Definition wordAt (o : option ascii) : bool :=
  match o with Some c => isWordChar c | None => false end.

(** Read one character satisfying [p]. *)
Definition step (p : ascii -> bool) (st : MState) (k : Cont) : option MState :=
  match rest st with
  | EmptyString => None
  | String c s' =>
      if p c then k {| prev := Some c; rest := s'; caps := caps st |} else None
  end.

Fixpoint groupsOf (r : Regex) : list nat :=
  match r with
  | RSeq r1 r2 | RAlt r1 r2 => groupsOf r1 ++ groupsOf r2
  | RStar r1 | RPlus r1 | ROpt r1 => groupsOf r1
  | RGroup i r1 => i :: groupsOf r1
  | _ => []
  end.

(** Greedy repetition of [body]: one more iteration if it reads at least
    one character and the rest of the pattern then succeeds, else stop
    here. [n] bounds the characters left, so it never runs out early. *)
Fixpoint repeat (body : MState -> Cont -> option MState) (gs : list nat)
    (k : Cont) (n : nat) (st : MState) : option MState :=
  match n with
  | O => k st
  | S n' =>
      match body (clearCaps gs st)
              (fun st' => if (remaining st' <? remaining st)%nat
                          then repeat body gs k n' st' else None) with
      | Some res => Some res
      | None => k st
      end
  end.

Fixpoint rmatch (ic : bool) (r : Regex) (st : MState) (k : Cont) {struct r}
    : option MState :=
  match r with
  | REmpty => k st
  | RChar a => step (charMatches ic a) st k
  | RAny => step (fun c => negb (isLineTerminator c)) st k
  | RClass negated items =>
      step (fun c => xorb negated (existsb (fun it => itemMatches ic it c) items)) st k
  | RWordB =>
      if xorb (wordAt (prev st)) (wordAt (headOf (rest st))) then k st else None
  | RSeq r1 r2 => rmatch ic r1 st (fun st' => rmatch ic r2 st' k)
  | RAlt r1 r2 =>
      match rmatch ic r1 st k with
      | Some res => Some res
      | None => rmatch ic r2 st k
      end
  | RStar r1 => repeat (rmatch ic r1) (groupsOf r1) k (remaining st) st
  | RPlus r1 =>
      rmatch ic r1 (clearCaps (groupsOf r1) st)
        (fun st' => repeat (rmatch ic r1) (groupsOf r1) k (remaining st') st')
  | ROpt r1 =>
      match rmatch ic r1 (clearCaps (groupsOf r1) st)
              (fun st' => if (remaining st' <? remaining st)%nat then k st' else None) with
      | Some res => Some res
      | None => k st
      end
  | RGroup i r1 => rmatch ic r1 st (fun st' => k (setCap i (consumed st st') st'))
  end.

(** The result of a successful match: [index], group 0 and the
    numbered groups. *)
Record MatchResult : Type :=
  { index : Z; group0 : string; groups : gmap nat string }.

(** Try the pattern at the current position, then at each later one. *)
Fixpoint execFrom (re : RegExp) (i : Z) (before : option ascii) (s : string)
    : option MatchResult :=
  let st := {| prev := before; rest := s; caps := ∅ |} in
  match rmatch (ignoreCase re) (source re) st Some with
  | Some st' => Some {| index := i; group0 := consumed st st'; groups := caps st' |}
  | None =>
      match s with
      | EmptyString => None
      | String c s' => execFrom re (i + 1) (Some c) s'
      end
  end.

(** [re.exec(s)], which is also [s.match(re)] for these patterns. *)
Definition exec (re : RegExp) (s : string) : option MatchResult :=
  execFrom re 0 None s.

(** [re.test(s)] *)
Definition test (re : RegExp) (s : string) : bool :=
  match exec re s with Some _ => true | None => false end.

(** Builders for writing the catalog's literals. *)
Fixpoint lit (s : string) : Regex :=
  match s with
  | EmptyString => REmpty
  | String c EmptyString => RChar c
  | String c s' => RSeq (RChar c) (lit s')
  end.

Definition seq (rs : list Regex) : Regex := foldr RSeq REmpty rs.

Fixpoint alt (rs : list Regex) : Regex :=
  match rs with
  | [] => REmpty
  | [r] => r
  | r :: rs' => RAlt r (alt rs')
  end.

Definition digit : Regex := RClass false [CDigit].
Definition word : Regex := RClass false [CWord].
Definition dquote : ascii := ascii_of_nat 34.

Definition re (r : Regex) : RegExp := {| source := r; ignoreCase := false |}.
Definition rei (r : Regex) : RegExp := {| source := r; ignoreCase := true |}.

End JsRegExp.

(** ** Data model (types.ts) *)

Import JsString JsRegExp.

(** The declarations of types.ts: the closed enumerations and the shapes
    of signatures and detections, which the detectors import. *)
Inductive TechnologyCategory : Type :=
| frontend_framework | backend_framework | css_framework | cms | ecommerce
| server | runtime | cat_analytics | cat_tracking | cat_marketing | library | other.

Inductive ConfidenceLevel : Type := high | medium | low.

Inductive AnalyticsType : Type := analytics | tracking | marketing.

(** [string | RegExp] *)
Inductive Pattern : Type :=
| Lit (s : string)
| Re (r : RegExp).

Record SignaturePattern : Type :=
  { sp_name : string;
    sp_patterns : list Pattern;
    sp_category : TechnologyCategory;
    sp_versionPattern : option RegExp }.

Record HeaderRule : Type :=
  { hr_pattern : Pattern;
    hr_technology : string;
    hr_category : TechnologyCategory }.

Record HeaderSignature : Type :=
  { hs_header : string;
    hs_patterns : list HeaderRule }.

Record AnalyticsSignature : Type :=
  { as_name : string;
    as_type : AnalyticsType;
    as_patterns : list Pattern }.

Record DetectedTechnology : Type :=
  { name : string;
    version : option string;
    confidence : ConfidenceLevel;
    category : TechnologyCategory;
    evidence : option string }.

Record DetectedAnalytics : Type :=
  { da_name : string;
    da_type : AnalyticsType;
    da_evidence : option string }.

(** The response envelope without its [retrieved_at] time stamp and its
    constant [pagination] field. *)
Record ResponseEnvelope (A : Type) : Type :=
  { ok : bool; data : A; warnings : list string }.
Arguments ok {A} _.
Arguments data {A} _.
Arguments warnings {A} _.

#[global] Instance ConfidenceLevel_eq_dec : EqDecision ConfidenceLevel.
Proof. solve_decision. Defined.

(** ** The signature catalog (config.ts) *)

Module Catalog.

Definition R (rs : list Regex) : Pattern := Re (re (seq rs)).
Definition Ri (rs : list Regex) : Pattern := Re (rei (seq rs)).
Definition rule (p : Pattern) (t : string) (c : TechnologyCategory) : HeaderRule :=
  {| hr_pattern := p; hr_technology := t; hr_category := c |}.

(** \d+\.\d+\.\d+ *)
Definition semver : list Regex :=
  [RPlus digit; lit "."; RPlus digit; lit "."; RPlus digit].

Definition headerSignatures : list HeaderSignature :=
  [ {| hs_header := "x-powered-by";
       hs_patterns :=
         [ rule (Ri [lit "express"]) "Express" backend_framework;      (* /express/i *)
           rule (Ri [lit "php"]) "PHP" runtime;                        (* /php/i *)
           rule (Ri [lit "asp.net"]) "ASP.NET" backend_framework;      (* /asp\.net/i *)
           rule (Ri [lit "next.js"]) "Next.js" frontend_framework ] |};(* /next\.js/i *)
    {| hs_header := "server";
       hs_patterns :=
         [ rule (Ri [lit "nginx"]) "nginx" server;                     (* /nginx/i *)
           rule (Ri [lit "apache"]) "Apache" server;                   (* /apache/i *)
           rule (Ri [lit "cloudflare"]) "Cloudflare" server;           (* /cloudflare/i *)
           rule (Ri [lit "microsoft-iis"]) "Microsoft IIS" server ] |};(* /microsoft-iis/i *)
    {| hs_header := "x-drupal-cache";
       hs_patterns := [ rule (R [RPlus RAny]) "Drupal" cms ] |};       (* /.+/ *)
    {| hs_header := "x-generator";
       hs_patterns :=
         [ rule (Ri [lit "wordpress"]) "WordPress" cms;                (* /wordpress/i *)
           rule (Ri [lit "ghost"]) "Ghost" cms;                        (* /ghost/i *)
           rule (Ri [lit "drupal"]) "Drupal" cms;                      (* /drupal/i *)
           rule (Ri [lit "joomla"]) "Joomla" cms ] |};                 (* /joomla/i *)
    {| hs_header := "x-shopify-stage";
       hs_patterns := [ rule (R [RPlus RAny]) "Shopify" ecommerce ] |} (* /.+/ *)
  ].

Definition frameworkSignatures : list SignaturePattern :=
  [ {| sp_name := "React";
       sp_patterns :=
         [ Ri [RWordB; lit "react"; RWordB];           (* /\breact\b/i *)
           R [RWordB; lit "ReactDOM"; RWordB];         (* /\bReactDOM\b/ *)
           R [lit "_reactRootContainer"];              (* /_reactRootContainer/ *)
           R [lit "data-reactroot"];                   (* /data-reactroot/ *)
           R [lit "react.production.min.js"];          (* /react\.production\.min\.js/ *)
           R [lit "react-dom"] ];                      (* /react-dom/ *)
       sp_category := frontend_framework;
       (* /react@(\d+\.\d+\.\d+)/ *)
       sp_versionPattern := Some (re (seq [lit "react@"; RGroup 1 (seq semver)])) |};
    {| sp_name := "Vue.js";
       sp_patterns :=
         [ R [RWordB; lit "Vue"; RWordB];              (* /\bVue\b/ *)
           R [lit "__VUE__"];                          (* /__VUE__/ *)
           R [RWordB; lit "v-if"; RWordB];             (* /\bv-if\b/ *)
           R [RWordB; lit "v-for"; RWordB];            (* /\bv-for\b/ *)
           R [RWordB; lit "v-model"; RWordB];          (* /\bv-model\b/ *)
           R [lit "vue.runtime"];                      (* /vue\.runtime/ *)
           R [lit "vue.global"] ];                     (* /vue\.global/ *)
       sp_category := frontend_framework;
       (* /vue@(\d+\.\d+\.\d+)/ *)
       sp_versionPattern := Some (re (seq [lit "vue@"; RGroup 1 (seq semver)])) |};
    {| sp_name := "Angular";
       sp_patterns :=
         [ R [lit "ng-version"];                       (* /ng-version/ *)
           R [lit "angular.js"];                       (* /angular\.js/ *)
           R [lit "angular.min.js"];                   (* /angular\.min\.js/ *)
           R [RWordB; lit "ng-app"; RWordB];           (* /\bng-app\b/ *)
           R [RWordB; lit "ng-controller"; RWordB];    (* /\bng-controller\b/ *)
           R [lit "@angular/core"] ];                  (* /@angular\/core/ *)
       sp_category := frontend_framework;
       (* /ng-version="(\d+\.\d+\.\d+)"/ *)
       sp_versionPattern :=
         Some (re (seq [lit "ng-version="; RChar dquote; RGroup 1 (seq semver);
                        RChar dquote])) |};
    {| sp_name := "Next.js";
       sp_patterns :=
         [ R [lit "__NEXT_DATA__"];                    (* /__NEXT_DATA__/ *)
           R [lit "_next/"];                           (* /_next\// *)
           R [lit "next/dist"];                        (* /next\/dist/ *)
           R [lit "next-route-announcer"] ];           (* /next-route-announcer/ *)
       sp_category := frontend_framework;
       (* /"next":"(\d+\.\d+\.\d+)"/ *)
       sp_versionPattern :=
         Some (re (seq [RChar dquote; lit "next"; RChar dquote; lit ":"; RChar dquote;
                        RGroup 1 (seq semver); RChar dquote])) |};
    {| sp_name := "Nuxt";
       sp_patterns :=
         [ R [lit "__NUXT__"];                         (* /__NUXT__/ *)
           Ri [RWordB; lit "nuxt"; RWordB];            (* /\bnuxt\b/i *)
           R [lit "_nuxt/"];                           (* /_nuxt\// *)
           R [lit "nuxt.js"] ];                        (* /nuxt\.js/ *)
       sp_category := frontend_framework;
       sp_versionPattern := None |};
    {| sp_name := "jQuery";
       sp_patterns :=
         [ Ri [lit "jquery"];                          (* /jquery/i *)
           R [RWordB; lit "jQuery"; RWordB];           (* /\bjQuery\b/ *)
           R [lit "jquery.min.js"];                    (* /jquery\.min\.js/ *)
           R [lit "jquery-"; RPlus digit] ];           (* /jquery-\d+/ *)
       sp_category := library;
       (* /jquery[.-](\d+\.\d+\.\d+)/i *)
       sp_versionPattern :=
         Some (rei (seq [lit "jquery"; RClass false [CChar "."; CChar "-"];
                         RGroup 1 (seq semver)])) |};
    {| sp_name := "Bootstrap";
       sp_patterns :=
         [ Ri [lit "bootstrap"];                       (* /bootstrap/i *)
           R [lit "bootstrap.min.js"];                 (* /bootstrap\.min\.js/ *)
           R [lit "bootstrap.min.css"];                (* /bootstrap\.min\.css/ *)
           (* /class="[^"]*\b(container|row|col-)/ *)
           R [lit "class="; RChar dquote; RStar (RClass true [CChar dquote]); RWordB;
              RGroup 1 (alt [lit "container"; lit "row"; lit "col-"])] ];
       sp_category := css_framework;
       (* /bootstrap[.-](\d+\.\d+\.\d+)/i *)
       sp_versionPattern :=
         Some (rei (seq [lit "bootstrap"; RClass false [CChar "."; CChar "-"];
                         RGroup 1 (seq semver)])) |};
    {| sp_name := "Tailwind CSS";
       sp_patterns :=
         [ Ri [lit "tailwind"];                        (* /tailwind/i *)
           R [lit "tailwindcss"];                      (* /tailwindcss/ *)
           (* /class="[^"]*\b(flex|grid|p-\d|m-\d|text-\w+|bg-\w+)/ *)
           R [lit "class="; RChar dquote; RStar (RClass true [CChar dquote]); RWordB;
              RGroup 1 (alt [lit "flex"; lit "grid"; seq [lit "p-"; digit];
                             seq [lit "m-"; digit]; seq [lit "text-"; RPlus word];
                             seq [lit "bg-"; RPlus word]])] ];
       sp_category := css_framework;
       sp_versionPattern := None |};
    {| sp_name := "WordPress";
       sp_patterns :=
         [ R [lit "/wp-content/"];                     (* /\/wp-content\// *)
           R [lit "/wp-includes/"];                    (* /\/wp-includes\// *)
           R [lit "wp-json"];                          (* /wp-json/ *)
           Ri [lit "wordpress"] ];                     (* /wordpress/i *)
       sp_category := cms;
       (* /ver=( \d+\.\d+\.?\d* )/, the group written here with spaces around it *)
       sp_versionPattern :=
         Some (re (seq [lit "ver=";
                        RGroup 1 (seq [RPlus digit; lit "."; RPlus digit;
                                       ROpt (lit "."); RStar digit])])) |};
    {| sp_name := "Shopify";
       sp_patterns :=
         [ R [RWordB; lit "Shopify"; RWordB];          (* /\bShopify\b/ *)
           R [lit "cdn.shopify.com"];                  (* /cdn\.shopify\.com/ *)
           R [lit "shopify-section"];                  (* /shopify-section/ *)
           R [lit "myshopify.com"] ];                  (* /myshopify\.com/ *)
       sp_category := ecommerce;
       sp_versionPattern := None |};
    {| sp_name := "Wix";
       sp_patterns :=
         [ R [lit "wix-style"];                        (* /wix-style/ *)
           R [lit "wix-viewer"];                       (* /wix-viewer/ *)
           R [lit "static.wixstatic.com"];             (* /static\.wixstatic\.com/ *)
           R [lit "wix.com"] ];                        (* /wix\.com/ *)
       sp_category := cms;
       sp_versionPattern := None |};
    {| sp_name := "Svelte";
       sp_patterns :=
         [ Ri [RWordB; lit "svelte"; RWordB];          (* /\bsvelte\b/i *)
           R [lit "svelte-"; RPlus word];              (* /svelte-\w+/ *)
           R [lit "__svelte"] ];                       (* /__svelte/ *)
       sp_category := frontend_framework;
       sp_versionPattern := None |};
    {| sp_name := "Gatsby";
       sp_patterns :=
         [ Ri [lit "gatsby"];                          (* /gatsby/i *)
           R [lit "___gatsby"];                        (* /___gatsby/ *)
           R [lit "gatsby-image"] ];                   (* /gatsby-image/ *)
       sp_category := frontend_framework;
       sp_versionPattern := None |};
    {| sp_name := "Remix";
       sp_patterns :=
         [ R [lit "__remixContext"];                   (* /__remixContext/ *)
           Ri [lit "remix"] ];                         (* /remix/i *)
       sp_category := frontend_framework;
       sp_versionPattern := None |}
  ].

Definition sig (n : string) (t : AnalyticsType) (ps : list Pattern) : AnalyticsSignature :=
  {| as_name := n; as_type := t; as_patterns := ps |}.

Definition analyticsSignatures : list AnalyticsSignature :=
  [ sig "Google Analytics" analytics
      [ R [lit "ga.js"];                               (* /ga\.js/ *)
        R [RWordB; lit "gtag("];                       (* /\bgtag\(/ *)
        R [lit "analytics.js"];                        (* /analytics\.js/ *)
        R [RWordB; lit "UA-"; RPlus digit; lit "-"; RPlus digit]; (* /\bUA-\d+-\d+/ *)
        R [lit "google-analytics.com"];                (* /google-analytics\.com/ *)
        R [lit "googletagmanager.com/gtag"] ];         (* /googletagmanager\.com\/gtag/ *)
    sig "Google Tag Manager" tracking
      [ R [lit "gtm.js"];                              (* /gtm\.js/ *)
        (* /\bGTM-[A-Z0-9]+/ *)
        R [RWordB; lit "GTM-"; RPlus (RClass false [CRange "A" "Z"; CRange "0" "9"])];
        R [lit "googletagmanager.com/gtm"] ];          (* /googletagmanager\.com\/gtm/ *)
    sig "Facebook Pixel" marketing
      [ R [RWordB; lit "fbq("];                        (* /\bfbq\(/ *)
        R [lit "facebook.net/en_US/fbevents"];         (* /facebook\.net\/en_US\/fbevents/ *)
        (* /connect\.facebook\.net.*fbevents/ *)
        R [lit "connect.facebook.net"; RStar RAny; lit "fbevents"] ];
    sig "Hotjar" analytics
      [ R [lit "hotjar.com"];                          (* /hotjar\.com/ *)
        R [lit "_hjSettings"];                         (* /_hjSettings/ *)
        R [lit "hj.q"] ];                              (* /hj\.q/ *)
    sig "Segment" analytics
      [ R [lit "segment.com"];                         (* /segment\.com/ *)
        R [lit "cdn.segment.com"];                     (* /cdn\.segment\.com/ *)
        R [lit "analytics.load("] ];                   (* /analytics\.load\(/ *)
    sig "Mixpanel" analytics
      [ Ri [lit "mixpanel"];                           (* /mixpanel/i *)
        R [lit "cdn.mxpnl.com"] ];                     (* /cdn\.mxpnl\.com/ *)
    sig "Heap" analytics
      [ R [lit "heap-"; RPlus digit];                  (* /heap-\d+/ *)
        R [lit "heapanalytics.com"] ];                 (* /heapanalytics\.com/ *)
    sig "Amplitude" analytics
      [ Ri [lit "amplitude"];                          (* /amplitude/i *)
        R [lit "cdn.amplitude.com"] ];                 (* /cdn\.amplitude\.com/ *)
    sig "Intercom" marketing
      [ Ri [lit "intercom"];                           (* /intercom/i *)
        R [lit "widget.intercom.io"];                  (* /widget\.intercom\.io/ *)
        R [lit "intercomSettings"] ];                  (* /intercomSettings/ *)
    sig "HubSpot" marketing
      [ Ri [lit "hubspot"];                            (* /hubspot/i *)
        R [lit "hs-scripts.com"];                      (* /hs-scripts\.com/ *)
        R [lit "hbspt.forms"] ];                       (* /hbspt\.forms/ *)
    sig "Drift" marketing
      [ R [lit "drift.com"];                           (* /drift\.com/ *)
        R [lit "js.driftt.com"] ];                     (* /js\.driftt\.com/ *)
    sig "LinkedIn Insight" marketing
      [ R [lit "linkedin.com/px"];                     (* /linkedin\.com\/px/ *)
        R [lit "snap.licdn.com"];                      (* /snap\.licdn\.com/ *)
        R [lit "_linkedin_data_partner_id"] ];         (* /_linkedin_data_partner_id/ *)
    sig "Twitter Pixel" marketing
      [ R [lit "static.ads-twitter.com"];              (* /static\.ads-twitter\.com/ *)
        R [lit "twq("] ];                              (* /twq\(/ *)
    sig "Pinterest Tag" marketing
      [ R [lit "pintrk("];                             (* /pintrk\(/ *)
        R [lit "ct.pinterest.com"] ];                  (* /ct\.pinterest\.com/ *)
    sig "TikTok Pixel" marketing
      [ R [lit "analytics.tiktok.com"];                (* /analytics\.tiktok\.com/ *)
        R [lit "ttq.load"] ]                           (* /ttq\.load/ *)
  ].

End Catalog.

(** ** Containers of the JavaScript runtime *)

(** [Map<string, V>]: iteration follows the order in which keys were first
    inserted; [set] on a present key replaces the value in place. *)
Module JsMap.

Definition t (V : Type) : Type := list (string * V).

Fixpoint get {V} (m : t V) (k : string) : option V :=
  match m with
  | [] => None
  | (k', v) :: m' => if String.eqb k' k then Some v else get m' k
  end.

Fixpoint set {V} (m : t V) (k : string) (v : V) : t V :=
  match m with
  | [] => [(k, v)]
  | (k', v') :: m' =>
      if String.eqb k' k then (k', v) :: m' else (k', v') :: set m' k v
  end.

Definition values {V} (m : t V) : list V := snd <$> m.

End JsMap.

Module JsArray.

(** [arr.indexOf(x)]: the first position of [x], or -1. *)
Fixpoint indexOfFrom {A} `{EqDecision A} (i : Z) (arr : list A) (x : A) : Z :=
  match arr with
  | [] => -1
  | y :: arr' => if decide (y = x) then i else indexOfFrom (i + 1) arr' x
  end.

Definition indexOf {A} `{EqDecision A} (arr : list A) (x : A) : Z :=
  indexOfFrom 0 arr x.

(** [arr.sort(cmp)], which ECMAScript requires to be stable: an element
    is placed before the first one it does not compare greater than. *)
Fixpoint insertBy {A} (cmp : A -> A -> Z) (x : A) (l : list A) : list A :=
  match l with
  | [] => [x]
  | y :: l' => if cmp x y <=? 0 then x :: y :: l' else y :: insertBy cmp x l'
  end.

Definition sort {A} (cmp : A -> A -> Z) (arr : list A) : list A :=
  foldr (insertBy cmp) [] arr.

End JsArray.

(** ** The detectors (tools/frameworks.ts and tools/analytics.ts) *)

Import Catalog.

Definition createResponse {A} (data : A) (warnings : list string) : ResponseEnvelope A :=
  {| ok := true; data := data; warnings := warnings |}.

(** Truthiness of a [string | undefined] value: undefined and the empty
    string are falsy. *)
Definition truthy (o : option string) : bool :=
  match o with
  | None | Some EmptyString => false
  | Some _ => true
  end.

Definition matchesPattern (content : string) (pattern : Pattern) : bool :=
  match pattern with
  | Lit s => includes content s
  | Re r => test r content
  end.

Definition extractVersion (content : string) (versionPattern : option RegExp)
    : option string :=
  match versionPattern with
  | None => None
  | Some vp =>
      match exec vp content with
      | Some m => groups m !! 1%nat
      | None => None
      end
  end.

(** [matchCount / totalPatterns] is a quotient of two counts, compared
    with 0.5 and 0.25; it is taken in the rationals. (The code only calls
    this with [0 < matchCount <= totalPatterns].) *)
Definition calculateConfidence (matchCount totalPatterns : Z) : ConfidenceLevel :=
  let ratio := (inject_Z matchCount / inject_Z totalPatterns)%Q in
  if Qle_bool (1 # 2) ratio || (3 <=? matchCount) then high
  else if Qle_bool (1 # 4) ratio || (2 <=? matchCount) then medium
  else low.

(** The same function with the numbers of the run time: the quotient and
    the two comparisons in IEEE 754 binary64. [calculateConfidence_binary64]
    below shows that the two agree on the counts that occur. *)
Definition toNumber (z : Z) : float := PrimFloat.of_uint63 (Uint63.of_Z z).

Definition calculateConfidenceBinary64 (matchCount totalPatterns : Z) : ConfidenceLevel :=
  let ratio := PrimFloat.div (toNumber matchCount) (toNumber totalPatterns) in
  if PrimFloat.leb 0.5%float ratio || (3 <=? matchCount) then high
  else if PrimFloat.leb 0.25%float ratio || (2 <=? matchCount) then medium
  else low.

Fixpoint findEvidence (content : string) (patterns : list Pattern) : option string :=
  match patterns with
  | [] => None
  | pattern :: patterns' =>
      match pattern with
      | Lit s =>
          let index := indexOf content s in
          if negb (index =? -1) then
            let start := Z.max 0 (index - 20) in
            let end_ := Z.min (len content) (index + len s + 20) in
            Some ("..." +:+ slice content start end_ +:+ "...")
          else findEvidence content patterns'
      | Re r =>
          match exec r content with
          | Some m => Some (group0 m)
          | None => findEvidence content patterns'
          end
      end
  end.

(** The inner loop of [detectFromHeaders]: what the first matching rule
    pushes. *)
Fixpoint detectHeaderRules (signature : HeaderSignature) (headerValue : string)
    (rules : list HeaderRule) : list DetectedTechnology :=
  match rules with
  | [] => []
  | r :: rules' =>
      if matchesPattern headerValue (hr_pattern r) then
        [ {| name := hr_technology r;
             version := None;
             confidence := high;
             category := hr_category r;
             evidence := Some (hs_header signature +:+ ": " +:+ headerValue) |} ]
      else detectHeaderRules signature headerValue rules'
  end.

(** [headers] is the list of the object's entries, in property order. *)
Definition normalizeHeaders (headers : list (string * string)) : gmap string string :=
  foldl (fun normalizedHeaders '(key, value) => <[toLowerCase key := value]> normalizedHeaders)
        ∅ headers.

Definition detectFromHeaders (headers : list (string * string)) : list DetectedTechnology :=
  let normalizedHeaders := normalizeHeaders headers in
  foldl (fun detected signature =>
           match normalizedHeaders !! toLowerCase (hs_header signature) with
           | None => detected
           | Some headerValue =>
               if truthy (Some headerValue)
               then detected ++ detectHeaderRules signature headerValue (hs_patterns signature)
               else detected
           end)
        [] headerSignatures.

(** The inner loop of [detectFromHtml]. *)
Definition countMatches (html : string) (patterns : list Pattern) : Z * list Pattern :=
  foldl (fun '(matchCount, matchedPatterns) pattern =>
           if matchesPattern html pattern
           then (matchCount + 1, matchedPatterns ++ [pattern])
           else (matchCount, matchedPatterns))
        (0, []) patterns.

(** One iteration of the outer loop of [detectFromHtml]. *)
Definition detectSignature (html : string) (signature : SignaturePattern)
    : list DetectedTechnology :=
  let '(matchCount, matchedPatterns) := countMatches html (sp_patterns signature) in
  if 0 <? matchCount then
    let confidence :=
      calculateConfidence matchCount (Z.of_nat (length (sp_patterns signature))) in
    let version := extractVersion html (sp_versionPattern signature) in
    let evidence := findEvidence html matchedPatterns in
    [ {| name := sp_name signature;
         version := version;
         confidence := confidence;
         category := sp_category signature;
         evidence := evidence |} ]
  else [].

Definition detectFromHtml (html : string) : list DetectedTechnology :=
  foldl (fun detected signature => detected ++ detectSignature html signature)
        [] frameworkSignatures.

Definition confidenceOrder : list ConfidenceLevel := [high; medium; low].

Definition deduplicateStep (techMap : JsMap.t DetectedTechnology) (tech : DetectedTechnology)
    : JsMap.t DetectedTechnology :=
  match JsMap.get techMap (name tech) with
  | None => JsMap.set techMap (name tech) tech
  | Some existing =>
      let existingIndex := JsArray.indexOf confidenceOrder (confidence existing) in
      let newIndex := JsArray.indexOf confidenceOrder (confidence tech) in
      if newIndex <? existingIndex then JsMap.set techMap (name tech) tech
      else if (newIndex =? existingIndex) && negb (truthy (version existing))
                && truthy (version tech)
      then JsMap.set techMap (name tech) tech
      else techMap
  end.

Definition deduplicateTechnologies (technologies : list DetectedTechnology)
    : list DetectedTechnology :=
  JsMap.values (foldl deduplicateStep [] technologies).

(** [!html || html.trim().length === 0] *)
Definition isEmptyHtml (html : string) : bool :=
  negb (truthy (Some html)) || (len (trim html) =? 0).

Definition emptyHtmlWarning : string := "Empty HTML content provided".

Definition compareConfidence (a b : DetectedTechnology) : Z :=
  JsArray.indexOf confidenceOrder (confidence a)
  - JsArray.indexOf confidenceOrder (confidence b).

(** The first half of [detectFrameworks]: the technologies collected by
    the two passes, before deduplication. *)
Definition collectTechnologies (html : string) (headers : option (list (string * string)))
    : list DetectedTechnology :=
  let detected := if isEmptyHtml html then [] else [] ++ detectFromHtml html in
  match headers with
  | Some hs => if (0 <? Z.of_nat (length hs)) then detected ++ detectFromHeaders hs
               else detected
  | None => detected
  end.

Definition detectFrameworks (html : string) (headers : option (list (string * string)))
    : ResponseEnvelope (list DetectedTechnology) :=
  let warnings := if isEmptyHtml html then [emptyHtmlWarning] else [] in
  let detected := collectTechnologies html headers in
  let detected := deduplicateTechnologies detected in
  let detected := JsArray.sort compareConfidence detected in
  createResponse detected warnings.

(** The inner loop of [detectAnalytics]: the detection pushed for the first
    pattern that matches the page or its lower-case copy. *)
Fixpoint detectAnalyticsPatterns (html normalizedHtml : string)
    (signature : AnalyticsSignature) (patterns : list Pattern) : option DetectedAnalytics :=
  match patterns with
  | [] => None
  | pattern :: patterns' =>
      if matchesPattern html pattern || matchesPattern normalizedHtml pattern then
        let evidence := findEvidence html [pattern] in
        Some {| da_name := as_name signature;
                da_type := as_type signature;
                da_evidence := evidence |}
      else detectAnalyticsPatterns html normalizedHtml signature patterns'
  end.

Definition detectAnalyticsStep (html normalizedHtml : string)
    (acc : list DetectedAnalytics * gset string) (signature : AnalyticsSignature)
    : list DetectedAnalytics * gset string :=
  let '(detected, seenNames) := acc in
  if bool_decide (as_name signature ∈ seenNames) then (detected, seenNames)
  else
    match detectAnalyticsPatterns html normalizedHtml signature (as_patterns signature) with
    | Some d => (detected ++ [d], {[as_name signature]} ∪ seenNames)
    | None => (detected, seenNames)
    end.

(** [detectAnalytics] with the catalog it iterates over as an argument. *)
Definition detectAnalyticsOver (signatures : list AnalyticsSignature) (html : string)
    : ResponseEnvelope (list DetectedAnalytics) :=
  if isEmptyHtml html then createResponse [] [emptyHtmlWarning]
  else
    let normalizedHtml := toLowerCase html in
    let '(detected, _) :=
      foldl (detectAnalyticsStep html normalizedHtml) ([], ∅) signatures in
    createResponse detected [].

Definition detectAnalytics (html : string) : ResponseEnvelope (list DetectedAnalytics) :=
  detectAnalyticsOver analyticsSignatures html.

(** ** Plain objects with string keys *)

Module JsObject.

(** The value of a string of decimal digits. *)
Fixpoint digits (acc : Z) (s : string) : option Z :=
  match s with
  | EmptyString => Some acc
  | String c s' =>
      if (48 <=? code c) && (code c <=? 57)
      then digits (10 * acc + (code c - 48)) s'
      else None
  end.

(** The array index that a property key is, if it is one: a decimal numeral
    with no leading zero, 0 itself apart, of value at most 2^32 - 2. *)
Definition arrayIndex (key : string) : option Z :=
  match key with
  | EmptyString => None
  | String c rest =>
      if Ascii.eqb c "0"%char && negb (String.eqb rest "") then None
      else
        match digits 0 key with
        | Some n => if n <=? 4294967294 then Some n else None
        | None => None
        end
  end.

(** The place of a new property whose key is the array index [n]: the
    array indices come first, in ascending order. *)
Fixpoint insertIndex {V} (n : Z) (kv : string * V) (o : list (string * V))
    : list (string * V) :=
  match o with
  | [] => [kv]
  | kv' :: o' =>
      match arrayIndex (fst kv') with
      | Some n' => if n' <? n then kv' :: insertIndex n kv o' else kv :: o
      | None => kv :: o
      end
  end.

(** [o[key] = value] on an object of own data properties, held as the list
    of its entries in property order: array indices first, ascending, then
    the other keys in the order of their creation. A property that is there
    keeps its place. *)
Definition set {V} (o : list (string * V)) (key : string) (value : V)
    : list (string * V) :=
  match JsMap.get o key, arrayIndex key with
  | None, Some n => insertIndex n (key, value) o
  | _, _ => JsMap.set o key value
  end.

End JsObject.

(** ** The fingerprint tool (tools/fingerprint.ts) *)

Module Fingerprint.

(** What a [catch] clause receives: an [Error] with its name and message,
    or a value that is not an [Error]. *)
Inductive Thrown : Type :=
| ErrorObject (errorName message : string)
| NotAnError.

(** How an evaluation that may throw, or an awaited promise, completes. *)
Inductive Completion (A : Type) : Type :=
| Returns (a : A)
| Throws (e : Thrown).
Arguments Returns {A} a.
Arguments Throws {A} e.

Record FingerprintData : Type :=
  { fd_url : string;
    fd_technologies : list DetectedTechnology;
    fd_analytics : list DetectedAnalytics;
    fd_headers : JsMap.t string }.

(** The envelope of this file also fills in [meta.source]. *)
Record SourcedEnvelope (A : Type) : Type :=
  { envelope : ResponseEnvelope A; source : option string }.
Arguments envelope {A} _.
Arguments source {A} _.

Definition createResponse {A} (data : A) (source : option string)
    (warnings : list string) : SourcedEnvelope A :=
  {| envelope := {| ok := true; data := data; warnings := warnings |};
     source := source |}.

Definition createErrorResponse (message url : string) : SourcedEnvelope FingerprintData :=
  {| envelope := {| ok := false;
                    data := {| fd_url := url; fd_technologies := [];
                               fd_analytics := []; fd_headers := [] |};
                    warnings := [message] |};
     source := Some url |}.

(** [headers.forEach((value, key) => { result[key] = value })] over the
    entries that the [Headers] object iterates. Assigning a string to
    [result.__proto__] sets no property. The result is the list of the
    object's entries in property order. *)
Definition headersToObject (headers : list (string * string)) : JsMap.t string :=
  foldl (fun result kv =>
           if String.eqb (fst kv) "__proto__" then result
           else JsObject.set result (fst kv) (snd kv))
        [] headers.

Section Host.

(** The run time that the tool calls into: numbers and their conversion
    to a string in a template literal, whether [new URL(url)] returns,
    [defaultServerConfig.timeout], and what awaiting [fetch] gives for a
    URL when its signal aborts after the given time. *)
Context {number : Type}.
Variable numberToString : number -> string.
Variable parsesAsUrl : string -> bool.
Variable defaultTimeout : number.

Record Response : Type :=
  { response_ok : bool;
    response_status : number;
    response_statusText : string;
    response_text : Completion string;
    response_headers : list (string * string) }.

Variable fetch : string -> number -> Completion Response.

Definition normalizeUrl (url : string) : Completion string :=
  let url :=
    if negb (startsWith url "http://") && negb (startsWith url "https://")
    then "https://" +:+ url else url in
  if parsesAsUrl url then Returns url
  else Throws (ErrorObject "Error" ("Invalid URL: " +:+ url)).

Definition fetchWithTimeout (url : string) (timeout : number)
    : Completion (string * JsMap.t string) :=
  match fetch url timeout with
  | Throws e => Throws e
  | Returns response =>
      if negb (response_ok response) then
        Throws (ErrorObject "Error"
                  ("HTTP " +:+ numberToString (response_status response) +:+ ": "
                   +:+ response_statusText response))
      else
        match response_text response with
        | Throws e => Throws e
        | Returns html => Returns (html, headersToObject (response_headers response))
        end
  end.

Definition fingerprint (url : string) (timeout : option number)
    : SourcedEnvelope FingerprintData :=
  let warnings0 : list string := [] in
  match normalizeUrl url with
  | Throws error =>
      let message :=
        match error with ErrorObject _ m => m | NotAnError => "Invalid URL" end in
      createErrorResponse message url
  | Returns normalizedUrl =>
      match fetchWithTimeout normalizedUrl (default defaultTimeout timeout) with
      | Throws error =>
          let message :=
            match error with
            | ErrorObject _ m => m
            | NotAnError => "Failed to fetch URL"
            end in
          if match error with
             | ErrorObject n _ => String.eqb n "AbortError"
             | NotAnError => false
             end
          then createErrorResponse
                 ("Request timeout after "
                  +:+ numberToString (default defaultTimeout timeout) +:+ "ms")
                 normalizedUrl
          else createErrorResponse ("Failed to fetch URL: " +:+ message) normalizedUrl
      | Returns (html, headers) =>
          let frameworksResult := detectFrameworks html (Some headers) in
          let warnings1 :=
            if 0 <? Z.of_nat (length (warnings frameworksResult))
            then warnings0 ++ warnings frameworksResult else warnings0 in
          let analyticsResult := detectAnalytics html in
          let warnings2 :=
            if 0 <? Z.of_nat (length (warnings analyticsResult))
            then warnings1 ++ warnings analyticsResult else warnings1 in
          let data := {| fd_url := normalizedUrl;
                         fd_technologies := data frameworksResult;
                         fd_analytics := data analyticsResult;
                         fd_headers := headers |} in
          createResponse data (Some normalizedUrl) warnings2
      end
  end.

End Host.

End Fingerprint.

Coercion Fingerprint.envelope : Fingerprint.SourcedEnvelope >-> ResponseEnvelope.


(** ** The command line (index.ts) *)

Module Cli.

Inductive TransportType : Type := stdio | http.

Record Args (number : Type) : Type :=
  { transport : TransportType; port : option number; host : option string }.
Arguments transport {number} _.
Arguments port {number} _.
Arguments host {number} _.

(** A line written by [console.log] or by [console.error]. *)
Inductive Output : Type :=
| ConsoleLog (line : string)
| ConsoleError (line : string).

(** How [parseArgs] ends: it returns, or [process.exit(code)] ends the
    process after the lines written. *)
Inductive Outcome (A : Type) : Type :=
| Returned (a : A)
| Exited (code : Z) (written : list Output).
Arguments Returned {A} a.
Arguments Exited {A} code written.

Section Host.

(** The run time: numbers, [parseInt(s, 10)] and [isNaN]; and the text
    that [printHelp] writes. *)
Context {number : Type}.
Variable parseInt : string -> number.
Variable isNaN : number -> bool.
Variable helpText : string.

Definition printHelp : list Output := [ConsoleLog helpText].

(** The loop of [parseArgs] with [args] the arguments from index [i] on;
    [args[++i]] is the next of them, undefined after the last, which
    [parseInt] reads as the string undefined. *)
Fixpoint parseArgsFrom (args : list string) (transport : TransportType)
    (port : option number) (host : option string) : Outcome (Args number) :=
  match args with
  | [] => Returned {| transport := transport; port := port; host := host |}
  | arg :: rest =>
      if String.eqb arg "--stdio" || String.eqb arg "-s" then
        parseArgsFrom rest stdio port host
      else if String.eqb arg "--http" || String.eqb arg "-h" then
        parseArgsFrom rest http port host
      else if String.eqb arg "--port" || String.eqb arg "-p" then
        match rest with
        | value :: rest' =>
            let port := parseInt value in
            if isNaN port then Exited 1 [ConsoleError "Invalid port number"]
            else parseArgsFrom rest' transport (Some port) host
        | [] =>
            let port := parseInt "undefined" in
            if isNaN port then Exited 1 [ConsoleError "Invalid port number"]
            else Returned {| transport := transport; port := Some port; host := host |}
        end
      else if String.eqb arg "--host" then
        match rest with
        | value :: rest' => parseArgsFrom rest' transport port (Some value)
        | [] => Returned {| transport := transport; port := port; host := None |}
        end
      else if String.eqb arg "--help" then Exited 0 printHelp
      else if String.eqb arg "--version" || String.eqb arg "-v" then
        Exited 0 [ConsoleLog "web-stack-scan v1.0.0"]
      else Exited 1 (ConsoleError ("Unknown argument: " +:+ arg) :: printHelp)
  end.

(** [argv] is [process.argv]. *)
Definition parseArgs (argv : list string) : Outcome (Args number) :=
  let args := List.skipn 2 argv in
  parseArgsFrom args stdio None None.

End Host.

End Cli.


(** * Vocabulary of the specification

    The notions in which the properties below are stated. *)

(** The tiers as numbers, low < medium < high. *)
Definition tier (c : ConfidenceLevel) : Z :=
  match c with low => 0 | medium => 1 | high => 2 end.

(** The two versions of [calculateConfidence] agree for every
    [1 <= matchCount <= totalPatterns <= bound]. *)
Definition binary64AgreesUpTo (bound : nat) : bool :=
  forallb (fun n =>
             forallb (fun m =>
                        bool_decide (calculateConfidenceBinary64 (Z.of_nat m) (Z.of_nat n)
                                     = calculateConfidence (Z.of_nat m) (Z.of_nat n)))
                     (List.seq 1 n))
          (List.seq 1 bound).

(** The number of a signature's patterns that match the page. *)
Definition matchedCount (html : string) (patterns : list Pattern) : Z :=
  Z.of_nat (length (filter (fun p => matchesPattern html p = true) patterns)).

(** The position of a confidence in [confidenceOrder]: smaller is better. *)
Definition rank (c : ConfidenceLevel) : Z := JsArray.indexOf confidenceOrder c.

(** [b] replaces [a] in the map: strictly better confidence, or the same
    confidence with a version where [a] has none. *)
Definition replaces (a b : DetectedTechnology) : bool :=
  (rank (confidence b) <? rank (confidence a))
  || ((rank (confidence b) =? rank (confidence a))
      && negb (truthy (version a)) && truthy (version b)).

(** [e] is at least as good a representative of its name as [t]. *)
Definition atLeastAsGood (e t : DetectedTechnology) : Prop :=
  rank (confidence e) <= rank (confidence t) /\
  (confidence e = confidence t ->
   truthy (version t) = true -> truthy (version e) = true).

(** The invariant of the deduplication loop after the entries [seen]. *)
Definition dedupInv (m : JsMap.t DetectedTechnology) (seen : list DetectedTechnology)
    : Prop :=
  NoDup (fst <$> m) /\
  (forall k e, JsMap.get m k = Some e -> name e = k /\ e ∈ seen) /\
  (forall t, t ∈ seen ->
     exists e, JsMap.get m (name t) = Some e /\ atLeastAsGood e t).

(** What deduplication by name promises about a list: the kept entries
    come from the list; every entry is represented by the one kept entry of
    its name, whose confidence is at least as good, and which carries a
    version if the entry does and their confidences tie. *)
Definition keepsBest (technologies : list DetectedTechnology) : Prop :=
  let kept := deduplicateTechnologies technologies in
  (forall e, e ∈ kept -> e ∈ technologies) /\
  (forall t, t ∈ technologies ->
     exists e, (e ∈ kept) /\ name e = name t /\
       (forall e', e' ∈ kept -> name e' = name t -> e' = e) /\
       (tier (confidence t) <= tier (confidence e)) /\
       (confidence e = confidence t -> version t <> None -> version e <> None)).

(** The order in which [detectFrameworks] returns its entries. *)
Definition byRank (a b : DetectedTechnology) : Prop :=
  rank (confidence a) <= rank (confidence b).

(** [r] reads at least one character whenever it matches. *)
Fixpoint consumes (r : Regex) : bool :=
  match r with
  | RChar _ | RAny | RClass _ _ => true
  | REmpty | RWordB | RStar _ | ROpt _ => false
  | RSeq r1 r2 => consumes r1 || consumes r2
  | RAlt r1 r2 => consumes r1 && consumes r2
  | RPlus r1 | RGroup _ r1 => consumes r1
  end.

(** Every occurrence of group 1 in [r] wraps a pattern that reads at
    least one character. *)
Fixpoint group1Consumes (r : Regex) : bool :=
  match r with
  | RSeq r1 r2 | RAlt r1 r2 => group1Consumes r1 && group1Consumes r2
  | RStar r1 | RPlus r1 | ROpt r1 => group1Consumes r1
  | RGroup i r1 => group1Consumes r1 && (if (i =? 1)%nat then consumes r1 else true)
  | _ => true
  end.

Definition capOk (st : MState) : Prop := caps st !! 1%nat <> Some "".

(** How the state on which the continuation is entered relates to the
    state on which the pattern was started: the input read in between is
    a prefix of what was left, it is not empty if the pattern consumes,
    and group 1 stays in order. *)
Definition follows (r : Regex) (st st' : MState) : Prop :=
  (exists w, rest st = w +:+ rest st') /\
  (consumes r = true -> (remaining st' < remaining st)%nat) /\
  (group1Consumes r = true -> capOk st -> capOk st').

(** The value the normalized map holds for the lower-case name [h]: that
    of the last entry whose key is [h] up to case. *)
Definition headerValueOf (headers : list (string * string)) (h : string)
    : option string :=
  snd <$> last (filter (fun kv => toLowerCase (fst kv) = h) headers).

(** What the specification lets one header signature contribute: nothing
    if the header is absent, otherwise the technology of the first rule, in
    declared order, that matches the header's value. *)
Definition headerDetection (headers : list (string * string))
    (signature : HeaderSignature) : list DetectedTechnology :=
  match headerValueOf headers (toLowerCase (hs_header signature)) with
  | None => []
  | Some headerValue =>
      match List.find (fun r => matchesPattern headerValue (hr_pattern r))
                      (hs_patterns signature) with
      | Some r =>
          [ {| name := hr_technology r;
               version := None;
               confidence := high;
               category := hr_category r;
               evidence := Some (hs_header signature +:+ ": " +:+ headerValue) |} ]
      | None => []
      end
  end.

(** Every character of [s] is white space (so also when [s] is empty). *)
Definition onlyWhiteSpace (s : string) : Prop :=
  forall i c, String.get i s = Some c -> isWhiteSpace c = true.

(** The header pass as [detectFrameworks] runs it: only for a header map
    that is supplied and not empty. *)
Definition headerPass (headers : option (list (string * string)))
    : list DetectedTechnology :=
  match headers with
  | Some (h :: hs) => detectFromHeaders (h :: hs)
  | _ => []
  end.

(** [pat] occurs in [content] after [a]. *)
Definition occursAt (content pat a : string) : Prop :=
  exists b, content = a +:+ pat +:+ b.

(** A matcher succeeds on the page or on its lower-case copy. *)
Definition matchesEitherCase (html : string) (p : Pattern) : bool :=
  matchesPattern html p || matchesPattern (toLowerCase html) p.

(** What the specification lets one analytics signature emit: the
    detection for its first matcher that succeeds, with the evidence of
    that matcher alone on the original page. *)
Definition analyticsDetection (html : string) (signature : AnalyticsSignature)
    : option DetectedAnalytics :=
  match List.find (matchesEitherCase html) (as_patterns signature) with
  | Some p => Some {| da_name := as_name signature;
                      da_type := as_type signature;
                      da_evidence := findEvidence html [p] |}
  | None => None
  end.

(** The signatures in catalog order, skipping the names already emitted. *)
Fixpoint analyticsRun (html : string) (emitted : list string)
    (signatures : list AnalyticsSignature) : list DetectedAnalytics :=
  match signatures with
  | [] => []
  | signature :: signatures' =>
      if decide (as_name signature ∈ emitted) then analyticsRun html emitted signatures'
      else match analyticsDetection html signature with
           | Some d => d :: analyticsRun html (as_name signature :: emitted) signatures'
           | None => analyticsRun html emitted signatures'
           end
  end.

Definition nl : string := String (ascii_of_nat 10) EmptyString.

Definition lines (ls : list string) : string :=
  foldr (fun l s => l +:+ nl +:+ s) "" ls.

(** The page of the unit test "should not duplicate detections": two
    gtag('config', ...) calls and the analytics.js script. *)
Definition duplicatePage : string :=
  nl +:+
  lines [ "      <html>";
          "        <head>";
          "          <script>gtag('config', 'UA-12345-1');</script>";
          "          <script>gtag('config', 'UA-67890-1');</script>";
          "          <script src=" +:+ String dquote "https://www.google-analytics.com/analytics.js"
            +:+ String dquote "></script>";
          "        </head>";
          "        <body></body>";
          "      </html>" ] +:+
  "    ".

Definition googleAnalytics : AnalyticsSignature :=
  sig "Google Analytics" analytics
    [ R [lit "ga.js"];
      R [RWordB; lit "gtag("];
      R [lit "analytics.js"];
      R [RWordB; lit "UA-"; RPlus digit; lit "-"; RPlus digit];
      R [lit "google-analytics.com"];
      R [lit "googletagmanager.com/gtag"] ].

(** A page with two gtag('config', ...) calls of a function whose name
    only ends in gtag. *)
Definition underscoredPage : string :=
  "_gtag('config', 'G-1'); _gtag('config', 'G-2');".

(** The character before the position reached after reading [a]. *)
Fixpoint lastChar (before : option ascii) (a : string) : option ascii :=
  match a with
  | EmptyString => before
  | String c a' => lastChar (Some c) a'
  end.

(** How good an entry is as the representative of its name, smaller being
    better: the position of its confidence first, then whether it carries
    a version. [deduplicateStep] replaces the stored entry exactly when the
    new one is strictly better in this sense. *)
Definition quality (t : DetectedTechnology) : Z :=
  2 * rank (confidence t) + (if truthy (version t) then 0 else 1).

(** [e] is the earliest of the entries of [seen] with its name that no
    other one beats. *)
Definition firstBest (seen : list DetectedTechnology) (e : DetectedTechnology) : Prop :=
  exists l1 l2,
    seen = l1 ++ e :: l2 /\
    (forall t, t ∈ l1 -> name t = name e -> quality e < quality t) /\
    (forall t, t ∈ l2 -> name t = name e -> quality e <= quality t).

(** [v] occurs in [text]. *)
Definition substringOf (v text : string) : Prop :=
  exists a b, text = a +:+ v +:+ b.

(** Every capture of the state is a piece of [text]. *)
Definition capsWithin (text : string) (st : MState) : Prop :=
  forall i v, caps st !! i = Some v -> substringOf v text.

(** From [st] to [st'] the matcher has read a prefix of its input, and if
    it works on the end of [text] its captures stay pieces of [text]. *)
Definition within (text : string) (st st' : MState) : Prop :=
  (exists w, rest st = w +:+ rest st') /\
  ((exists a, text = a +:+ rest st) -> capsWithin text st -> capsWithin text st').

(** A matcher that is a regular expression reading at least one
    character: all matchers of the catalog are of this kind. *)
Definition regexConsumes (p : Pattern) : bool :=
  match p with
  | Re r => consumes (source r)
  | Lit _ => false
  end.

(** Why a fingerprint fails once the URL is accepted, from what awaiting
    [fetch] gave, with the warning it is reported under: [t] is the
    timeout in force. *)
Inductive fetchFailure {number : Type} (numberToString : number -> string) (t : number)
    : Fingerprint.Completion (@Fingerprint.Response number) -> string -> Prop :=
| fetch_aborted m :
    fetchFailure numberToString t
      (Fingerprint.Throws (Fingerprint.ErrorObject "AbortError" m))
      ("Request timeout after " +:+ numberToString t +:+ "ms")
| fetch_rejected n m :
    n <> "AbortError" ->
    fetchFailure numberToString t
      (Fingerprint.Throws (Fingerprint.ErrorObject n m))
      ("Failed to fetch URL: " +:+ m)
| fetch_rejected_other :
    fetchFailure numberToString t
      (Fingerprint.Throws Fingerprint.NotAnError)
      "Failed to fetch URL: Failed to fetch URL"
| status_not_ok response :
    Fingerprint.response_ok response = false ->
    fetchFailure numberToString t
      (Fingerprint.Returns response)
      ("Failed to fetch URL: HTTP "
       +:+ numberToString (Fingerprint.response_status response) +:+ ": "
       +:+ Fingerprint.response_statusText response)
| body_aborted response m :
    Fingerprint.response_ok response = true ->
    Fingerprint.response_text response
      = Fingerprint.Throws (Fingerprint.ErrorObject "AbortError" m) ->
    fetchFailure numberToString t
      (Fingerprint.Returns response)
      ("Request timeout after " +:+ numberToString t +:+ "ms")
| body_rejected response n m :
    Fingerprint.response_ok response = true ->
    Fingerprint.response_text response
      = Fingerprint.Throws (Fingerprint.ErrorObject n m) ->
    n <> "AbortError" ->
    fetchFailure numberToString t
      (Fingerprint.Returns response)
      ("Failed to fetch URL: " +:+ m)
| body_rejected_other response :
    Fingerprint.response_ok response = true ->
    Fingerprint.response_text response = Fingerprint.Throws Fingerprint.NotAnError ->
    fetchFailure numberToString t
      (Fingerprint.Returns response)
      "Failed to fetch URL: Failed to fetch URL".

(** A run time for examples: numbers are integers printed in decimal,
    every URL parses, and every fetch answers [status] with the given
    page and headers. *)
Definition decimal (z : Z) : string :=
  DecimalString.NilZero.string_of_int (Z.to_int z).

Definition answers (status : Z) (statusText page : string)
    (headers : list (string * string))
    : string -> Z -> Fingerprint.Completion (@Fingerprint.Response Z) :=
  fun _ _ =>
    Fingerprint.Returns
      {| Fingerprint.response_ok := (200 <=? status) && (status <=? 299);
         Fingerprint.response_status := status;
         Fingerprint.response_statusText := statusText;
         Fingerprint.response_text := Fingerprint.Returns page;
         Fingerprint.response_headers := headers |}.

(** The data of a fingerprint that found nothing. *)
Definition reportsNothing (r : Fingerprint.SourcedEnvelope Fingerprint.FingerprintData)
    : Prop :=
  Fingerprint.fd_technologies (data r) = [] /\
  Fingerprint.fd_analytics (data r) = [] /\
  Fingerprint.fd_headers (data r) = [].


(** The names of the entries are in lower case, as a [Headers] object
    hands them out. *)
Definition lowerCaseNames (headers : list (string * string)) : Prop :=
  Forall (fun kv => toLowerCase (fst kv) = fst kv) headers.


(** The text of a regular expression that is a sequence of characters and
    nothing else. *)
Fixpoint literalText (r : Regex) : option string :=
  match r with
  | RChar c => Some (String c EmptyString)
  | RSeq (RChar c) r' => String c <$> literalText r'
  | _ => None
  end.

(** A matcher that looks for a fixed text: its i flag and the text. *)
Definition literalOf (p : Pattern) : option (bool * string) :=
  match p with
  | Re r =>
      match source r with
      | RSeq r' REmpty => (fun s => (ignoreCase r, s)) <$> literalText r'
      | _ => None
      end
  | Lit _ => None
  end.

(** [s'] is the text [s]; under the i flag, up to case. *)
Definition sameText (ic : bool) (s s' : string) : Prop :=
  if ic then toLowerCase s' = toLowerCase s else s' = s.

(** The fixed texts that a list of matchers looks for are not blank. *)
Definition literalsVisible (patterns : list Pattern) : bool :=
  forallb (fun p => match literalOf p with
                    | Some (_, s) => negb (isEmptyHtml s)
                    | None => true
                    end) patterns.


(** A [parseInt] for examples: the value of a string of decimal digits,
    and nothing (for NaN) for any other string. *)
Fixpoint digitsValue (acc : Z) (s : string) : option Z :=
  match s with
  | EmptyString => Some acc
  | String c s' =>
      if (48 <=? code c) && (code c <=? 57)
      then digitsValue (10 * acc + (code c - 48)) s'
      else None
  end.

Definition parseDigits (s : string) : option Z :=
  match s with
  | EmptyString => None
  | _ => digitsValue 0 s
  end.

Definition isNothing (n : option Z) : bool :=
  match n with None => true | Some _ => false end.


(** * Properties *)

(** ** Confidence tiers *)

Section Confidence.

Lemma Qle_bool_ratio (p : Z) (q : positive) (m n : Z) :
  0 < n ->
  Qle_bool (Qmake p q) (inject_Z m / inject_Z n) = (p * n <=? m * Z.pos q).
Proof.
  intros Hn. destruct n as [|n|n]; try lia.
  unfold Qle_bool, Qdiv, Qmult, Qinv, inject_Z. cbn [Qnum Qden].
  f_equal; lia.
Qed.

Lemma Qle_ratio (p : Z) (q : positive) (m n : Z) :
  0 < n ->
  (Qmake p q <= inject_Z m / inject_Z n)%Q <-> p * n <= m * Z.pos q.
Proof.
  intros Hn. rewrite <- Qle_bool_iff, Qle_bool_ratio by done.
  apply Z.leb_le.
Qed.

Lemma binary64AgreesUpTo_spec (bound matchCount totalPatterns : nat) :
  binary64AgreesUpTo bound = true ->
  (1 <= matchCount <= totalPatterns)%nat -> (totalPatterns <= bound)%nat ->
  calculateConfidenceBinary64 (Z.of_nat matchCount) (Z.of_nat totalPatterns)
  = calculateConfidence (Z.of_nat matchCount) (Z.of_nat totalPatterns).
Proof.
  unfold binary64AgreesUpTo. intros Hall Hm Hn.
  rewrite forallb_forall in Hall.
  specialize (Hall totalPatterns). rewrite forallb_forall in Hall.
  assert (Hin : In matchCount (List.seq 1 totalPatterns)) by (apply in_seq; lia).
  apply Hall in Hin; [|apply in_seq; lia].
  by apply bool_decide_eq_true in Hin.
Qed.

Lemma binary64Agrees_256 : binary64AgreesUpTo 256 = true.
Proof. vm_compute. reflexivity. Qed.

(** On up to 256 matchers the rational quotient decides as the binary64
    quotient does. *)
Lemma calculateConfidence_binary64 (matchCount totalPatterns : nat) :
  (1 <= matchCount <= totalPatterns)%nat -> (totalPatterns <= 256)%nat ->
  calculateConfidenceBinary64 (Z.of_nat matchCount) (Z.of_nat totalPatterns)
  = calculateConfidence (Z.of_nat matchCount) (Z.of_nat totalPatterns).
Proof. apply binary64AgreesUpTo_spec. exact binary64Agrees_256. Qed.

(** [calculateConfidence] with the quotient cleared. *)
Lemma calculateConfidence_cross (m n : Z) :
  0 < n ->
  calculateConfidence m n =
    if (n <=? 2 * m) || (3 <=? m) then high
    else if (n <=? 4 * m) || (2 <=? m) then medium
    else low.
Proof.
  intros Hn. unfold calculateConfidence. cbv zeta.
  rewrite !Qle_bool_ratio by done.
  replace (1 * n <=? m * 2) with (n <=? 2 * m)
    by (apply eq_true_iff_eq; rewrite !Z.leb_le; lia).
  replace (1 * n <=? m * 4) with (n <=? 4 * m)
    by (apply eq_true_iff_eq; rewrite !Z.leb_le; lia).
  done.
Qed.

Lemma countMatches_foldl (html : string) (patterns : list Pattern)
    (c : Z) (acc : list Pattern) :
  foldl (fun '(matchCount, matchedPatterns) pattern =>
           if matchesPattern html pattern
           then (matchCount + 1, matchedPatterns ++ [pattern])
           else (matchCount, matchedPatterns))
        (c, acc) patterns
  = (c + matchedCount html patterns,
     acc ++ filter (fun p => matchesPattern html p = true) patterns).
Proof.
  revert c acc. unfold matchedCount.
  induction patterns as [|p ps IH]; intros c acc; simpl.
  - by rewrite Z.add_0_r, app_nil_r.
  - rewrite filter_cons.
    destruct (matchesPattern html p) eqn:Hp.
    + rewrite IH, decide_True by done. simpl length.
      rewrite <- app_assoc. f_equal. lia.
    + rewrite IH, decide_False by done. done.
Qed.

Lemma countMatches_spec (html : string) (patterns : list Pattern) :
  countMatches html patterns
  = (matchedCount html patterns,
     filter (fun p => matchesPattern html p = true) patterns).
Proof. unfold countMatches. by rewrite countMatches_foldl. Qed.

Lemma matchedCount_le (html : string) (patterns : list Pattern) :
  0 <= matchedCount html patterns <= Z.of_nat (length patterns).
Proof.
  unfold matchedCount. split; [lia|].
  apply inj_le. apply length_filter.
Qed.

Lemma foldl_app_flat {A B} (f : A -> list B) (l : list A) (acc : list B) :
  foldl (fun detected x => detected ++ f x) acc l = acc ++ mjoin (f <$> l).
Proof.
  revert acc. induction l as [|x l IH]; intros acc; simpl.
  - by rewrite app_nil_r.
  - by rewrite IH, app_assoc.
Qed.

Lemma detectFromHtml_concat (html : string) :
  detectFromHtml html = mjoin (detectSignature html <$> frameworkSignatures).
Proof. unfold detectFromHtml. by rewrite foldl_app_flat. Qed.

Lemma detectSignature_in (html : string) (signature : SignaturePattern) t :
  signature ∈ frameworkSignatures ->
  t ∈ detectSignature html signature -> t ∈ detectFromHtml html.
Proof.
  intros Hs Ht. rewrite detectFromHtml_concat.
  apply list_elem_of_join. exists (detectSignature html signature).
  split; [done|]. by apply list_elem_of_fmap_2.
Qed.

Lemma collect_html (html : string) headers t :
  isEmptyHtml html = false -> t ∈ detectFromHtml html ->
  t ∈ collectTechnologies html headers.
Proof.
  intros He Ht. unfold collectTechnologies. rewrite He. simpl.
  destruct headers as [hs|]; [|done].
  destruct (0 <? Z.of_nat (length hs)); [|done].
  apply elem_of_app. by left.
Qed.

(** C1: when [matchCount > 0] of a content signature's [totalMatchers]
    matchers match the page, the signature emits one technology, whose
    confidence is high if [matchCount/totalMatchers >= 0.5] or
    [matchCount >= 3]; otherwise medium if the ratio is at least 0.25 or
    [matchCount >= 2]; otherwise low. For a catalog signature and a
    non-empty page that technology is among those the HTML pass
    contributes. *)
Theorem detectFromHtml_confidence_rule (html : string) (signature : SignaturePattern) :
  let matchCount := matchedCount html (sp_patterns signature) in
  let totalMatchers := Z.of_nat (length (sp_patterns signature)) in
  let ratio := (inject_Z matchCount / inject_Z totalMatchers)%Q in
  let isHigh := (1 # 2 <= ratio)%Q \/ 3 <= matchCount in
  let isMedium := (1 # 4 <= ratio)%Q \/ 2 <= matchCount in
  0 < matchCount ->
  exists t,
    detectSignature html signature = [t] /\
    name t = sp_name signature /\
    (signature ∈ frameworkSignatures -> isEmptyHtml html = false ->
     forall headers, t ∈ collectTechnologies html headers) /\
    (confidence t = high <-> isHigh) /\
    (confidence t = medium <-> ~ isHigh /\ isMedium) /\
    (confidence t = low <-> ~ isHigh /\ ~ isMedium).
Proof.
  intros m n ratio isHigh isMedium Hm.
  pose proof (matchedCount_le html (sp_patterns signature)) as Hle.
  fold m n in Hle.
  assert (Hn : 0 < n) by lia.
  unfold detectSignature. rewrite countMatches_spec. fold m n.
  destruct (0 <? m) eqn:Hpos; [|lia].
  eexists. split; [reflexivity|]. split; [reflexivity|]. split.
  { intros Hs He headers. apply collect_html; [done|].
    apply (detectSignature_in html signature); [done|].
    unfold detectSignature. rewrite countMatches_spec. fold m n.
    rewrite Hpos. apply list_elem_of_singleton. reflexivity. }
  cbn [confidence]. subst isHigh isMedium ratio.
  rewrite !Qle_ratio by done.
  rewrite calculateConfidence_cross by done.
  destruct (n <=? 2 * m) eqn:E1; destruct (3 <=? m) eqn:E2;
    destruct (n <=? 4 * m) eqn:E3; destruct (2 <=? m) eqn:E4; simpl;
    repeat split; intros; try discriminate; try lia; try (exfalso; lia).
Qed.

(** The rule applied to Remix on a page that shows both of its two
    indicators. *)
Lemma detectFromHtml_confidence_rule_witness :
  exists t,
    detectSignature "<script>window.__remixContext = {};</script>"
      {| sp_name := "Remix";
         sp_patterns := [R [lit "__remixContext"]; Ri [lit "remix"]];
         sp_category := frontend_framework;
         sp_versionPattern := None |} = [t] /\
    confidence t = high.
Proof.
  destruct (detectFromHtml_confidence_rule
      "<script>window.__remixContext = {};</script>"
      {| sp_name := "Remix";
         sp_patterns := [R [lit "__remixContext"]; Ri [lit "remix"]];
         sp_category := frontend_framework;
         sp_versionPattern := None |})
    as (t & Ht & _ & _ & Hhigh & _).
  - vm_compute. reflexivity.
  - exists t. split; [exact Ht|]. apply Hhigh. left. vm_compute. discriminate.
Defined.

(** C9: for a fixed number of matchers the tier is monotone in the match
    count. *)
Theorem calculateConfidence_monotone (totalMatchers m1 m2 : Z) :
  1 <= m1 -> m1 <= m2 -> m2 <= totalMatchers ->
  tier (calculateConfidence m1 totalMatchers)
  <= tier (calculateConfidence m2 totalMatchers).
Proof.
  intros H1 H12 H2.
  rewrite !calculateConfidence_cross by lia.
  destruct (totalMatchers <=? 2 * m1) eqn:A1; destruct (3 <=? m1) eqn:A2;
    destruct (totalMatchers <=? 4 * m1) eqn:A3; destruct (2 <=? m1) eqn:A4;
    destruct (totalMatchers <=? 2 * m2) eqn:B1; destruct (3 <=? m2) eqn:B2;
    destruct (totalMatchers <=? 4 * m2) eqn:B3; destruct (2 <=? m2) eqn:B4;
    simpl; lia.
Qed.

Lemma calculateConfidence_monotone_witness :
  tier (calculateConfidence 1 6) <= tier (calculateConfidence 2 6).
Proof. apply calculateConfidence_monotone; lia. Defined.

End Confidence.

(** ** Deduplication by name *)

Section Dedup.

Lemma rank_cases (c : ConfidenceLevel) :
  rank c = match c with high => 0 | medium => 1 | low => 2 end.
Proof. by destruct c. Qed.

Lemma rank_inj (c d : ConfidenceLevel) : rank c = rank d -> c = d.
Proof. rewrite !rank_cases. destruct c, d; done. Qed.

Lemma rank_tier (c d : ConfidenceLevel) : rank c <= rank d <-> tier d <= tier c.
Proof. rewrite !rank_cases. destruct c, d; simpl; lia. Qed.

Lemma get_Some {V} (m : JsMap.t V) k v :
  JsMap.get m k = Some v -> (k, v) ∈ m.
Proof.
  induction m as [|[k' v'] m IH]; simpl; [done|].
  destruct (String.eqb_spec k' k) as [->|Hne].
  - intros [= ->]. apply elem_of_cons. by left.
  - intros H. apply elem_of_cons. right. by apply IH.
Qed.

Lemma get_None {V} (m : JsMap.t V) k :
  JsMap.get m k = None <-> k ∉ fst <$> m.
Proof.
  induction m as [|[k' v'] m IH].
  - simpl. split; [|done]. intros _ H. by apply elem_of_nil in H.
  - rewrite fmap_cons, not_elem_of_cons. simpl.
    destruct (String.eqb_spec k' k) as [->|Hne].
    + split; [done|]. intros [H _]. done.
    + rewrite IH. split; [|tauto]. intros H. split; [congruence|done].
Qed.

Lemma get_elem {V} (m : JsMap.t V) k v :
  NoDup (fst <$> m) -> (k, v) ∈ m -> JsMap.get m k = Some v.
Proof.
  induction m as [|[k' v'] m IH]; intros Hnd Hin.
  - by apply elem_of_nil in Hin.
  - rewrite fmap_cons in Hnd. apply NoDup_cons in Hnd as [Hk Hnd]. simpl in *.
    apply elem_of_cons in Hin as [[= -> ->]|Hin].
    + by rewrite String.eqb_refl.
    + destruct (String.eqb_spec k' k) as [->|Hne]; [|by apply IH].
      exfalso. apply Hk.
      apply list_elem_of_fmap. exists (k, v). done.
Qed.

Lemma get_set {V} (m : JsMap.t V) k v k' :
  JsMap.get (JsMap.set m k v) k' = if String.eqb k k' then Some v else JsMap.get m k'.
Proof.
  induction m as [|[k0 v0] m IH]; simpl.
  - destruct (String.eqb_spec k k'); done.
  - destruct (String.eqb_spec k0 k) as [->|Hne]; simpl.
    + destruct (String.eqb_spec k k'); done.
    + rewrite IH. destruct (String.eqb_spec k0 k') as [->|Hne'].
      * destruct (String.eqb_spec k k'); [congruence|done].
      * done.
Qed.

Lemma keys_set {V} (m : JsMap.t V) k v :
  fst <$> JsMap.set m k v =
    match JsMap.get m k with
    | Some _ => fst <$> m
    | None => (fst <$> m) ++ [k]
    end.
Proof.
  induction m as [|[k0 v0] m IH]; simpl; [done|].
  destruct (String.eqb_spec k0 k) as [->|Hne]; [done|].
  rewrite fmap_cons, IH. simpl. by destruct (JsMap.get m k).
Qed.

Lemma set_absent {V} (m : JsMap.t V) k v :
  k ∉ fst <$> m -> JsMap.set m k v = m ++ [(k, v)].
Proof.
  induction m as [|[k' v'] m IH]; [done|].
  rewrite fmap_cons, not_elem_of_cons. simpl. intros [Hne Hk].
  destruct (String.eqb_spec k' k) as [->|_]; [done|].
  by rewrite IH.
Qed.

Lemma deduplicateStep_cases m tech :
  deduplicateStep m tech =
    match JsMap.get m (name tech) with
    | None => JsMap.set m (name tech) tech
    | Some existing =>
        if replaces existing tech then JsMap.set m (name tech) tech else m
    end.
Proof.
  unfold deduplicateStep, replaces. fold (rank (confidence tech)).
  destruct (JsMap.get m (name tech)) as [existing|]; [|done].
  fold (rank (confidence existing)).
  destruct (rank (confidence tech) <? rank (confidence existing)); [done|].
  simpl. done.
Qed.

Lemma replaces_true a b :
  replaces a b = true ->
  atLeastAsGood b b /\
  forall s, atLeastAsGood a s -> atLeastAsGood b s.
Proof.
  unfold replaces, atLeastAsGood. intros H.
  split; [split; [lia|done]|].
  intros s [H1 H2].
  apply orb_true_iff in H as [H|H].
  - apply Z.ltb_lt in H. split; [lia|].
    intros Heq. rewrite Heq in H. lia.
  - apply andb_true_iff in H as [H Hb]. apply andb_true_iff in H as [H Ha].
    apply Z.eqb_eq in H. split; [lia|]. done.
Qed.

Lemma replaces_false a b : replaces a b = false -> atLeastAsGood a b.
Proof.
  unfold replaces, atLeastAsGood. intros H.
  apply orb_false_iff in H as [H1 H2]. apply Z.ltb_ge in H1.
  split; [done|]. intros Heq Hb.
  rewrite Heq, Z.eqb_refl, Hb in H2. simpl in H2.
  rewrite andb_true_r in H2. by apply negb_false_iff in H2.
Qed.

Lemma atLeastAsGood_refl t : atLeastAsGood t t.
Proof. split; [lia|done]. Qed.

Lemma dedupInv_step m seen tech :
  dedupInv m seen -> dedupInv (deduplicateStep m tech) (seen ++ [tech]).
Proof.
  intros (Hnd & Hget & Hseen). rewrite deduplicateStep_cases.
  assert (Hnew : forall m' : JsMap.t DetectedTechnology, NoDup (fst <$> m') ->
    (forall k', JsMap.get m' k' =
       if String.eqb (name tech) k' then Some tech else JsMap.get m k') ->
    (forall s, s ∈ seen -> name s = name tech ->
       forall e, JsMap.get m (name tech) = Some e -> atLeastAsGood tech s) ->
    dedupInv m' (seen ++ [tech])).
  { intros m' Hnd' Hg Hbetter. split; [done|]. split.
    - intros k e. rewrite Hg. destruct (String.eqb_spec (name tech) k) as [<-|Hne].
      + intros [= <-]. split; [done|]. apply elem_of_app. right.
        by apply list_elem_of_singleton.
      + intros H. destruct (Hget _ _ H) as [? ?]. split; [done|].
        apply elem_of_app. by left.
    - intros s Hs. rewrite Hg.
      destruct (String.eqb_spec (name tech) (name s)) as [Heq|Hne].
      + exists tech. split; [done|].
        apply elem_of_app in Hs as [Hs|Hs].
        * destruct (Hseen _ Hs) as (e & He & _). rewrite <- Heq in He.
          by apply (Hbetter s Hs (eq_sym Heq) e).
        * apply list_elem_of_singleton in Hs as ->. apply atLeastAsGood_refl.
      + apply elem_of_app in Hs as [Hs|Hs]; [by apply Hseen|].
        apply list_elem_of_singleton in Hs as ->. done. }
  destruct (JsMap.get m (name tech)) as [existing|] eqn:Hex.
  - destruct (replaces existing tech) eqn:Hrep.
    + apply Hnew.
      * by rewrite keys_set, Hex.
      * intros k'. apply get_set.
      * intros s Hs Hname e [= <-].
        destruct (Hseen _ Hs) as (e' & He' & Hgood).
        rewrite Hname, Hex in He'. injection He' as <-.
        by apply (replaces_true existing tech).
    + split; [done|]. split.
      * intros k e H. destruct (Hget _ _ H) as [? ?]. split; [done|].
        apply elem_of_app. by left.
      * intros s Hs. apply elem_of_app in Hs as [Hs|Hs]; [by apply Hseen|].
        apply list_elem_of_singleton in Hs as ->.
        exists existing. split; [done|]. by apply replaces_false.
  - apply Hnew.
    + rewrite keys_set, Hex. apply NoDup_app. split; [done|]. split.
      * intros k Hk Hk'. apply list_elem_of_singleton in Hk' as ->.
        by apply get_None in Hex.
      * apply NoDup_singleton.
    + intros k'. apply get_set.
    + intros s Hs Hname e He. congruence.
Qed.

Lemma dedupInv_foldl l : forall m seen,
  dedupInv m seen -> dedupInv (foldl deduplicateStep m l) (seen ++ l).
Proof.
  induction l as [|t l IH]; intros m seen Hinv; simpl.
  - by rewrite app_nil_r.
  - replace (seen ++ t :: l) with ((seen ++ [t]) ++ l)
      by (by rewrite <- app_assoc).
    apply IH. by apply dedupInv_step.
Qed.

Lemma dedupInv_final l : dedupInv (foldl deduplicateStep [] l) l.
Proof.
  apply (dedupInv_foldl l [] []). split; [constructor|]. split.
  - intros k e H. done.
  - intros t H. by apply elem_of_nil in H.
Qed.

Lemma values_names m seen :
  dedupInv m seen -> name <$> JsMap.values m = fst <$> m.
Proof.
  intros (Hnd & Hget & _). unfold JsMap.values.
  rewrite <- list_fmap_compose. apply list_fmap_ext.
  intros i [k v] Hi. simpl.
  apply (Hget k v). apply get_elem; [done|].
  by apply list_elem_of_lookup_2 in Hi.
Qed.

Lemma deduplicate_NoDup l : NoDup (name <$> deduplicateTechnologies l).
Proof.
  unfold deduplicateTechnologies.
  rewrite (values_names _ l (dedupInv_final l)).
  apply (dedupInv_final l).
Qed.

Lemma deduplicate_elem l e :
  e ∈ deduplicateTechnologies l <->
  JsMap.get (foldl deduplicateStep [] l) (name e) = Some e.
Proof.
  pose proof (dedupInv_final l) as (Hnd & Hget & _).
  unfold deduplicateTechnologies, JsMap.values. split.
  - intros H. apply list_elem_of_fmap in H as ([k v] & -> & Hin). simpl.
    pose proof (get_elem _ _ _ Hnd Hin) as Hg.
    destruct (Hget _ _ Hg) as [-> _]. done.
  - intros H. apply get_Some in H.
    apply list_elem_of_fmap. by exists (name e, e).
Qed.

(** Every entry is represented, under its name, by an entry of the input
    that is at least as good. *)
Lemma deduplicate_best l t :
  t ∈ l ->
  exists e, e ∈ deduplicateTechnologies l /\ e ∈ l /\ name e = name t /\
            atLeastAsGood e t.
Proof.
  intros Ht. pose proof (dedupInv_final l) as (_ & Hget & Hseen).
  destruct (Hseen t Ht) as (e & He & Hgood).
  destruct (Hget _ _ He) as [Hname Hel].
  exists e. split; [|done].
  apply deduplicate_elem. by rewrite Hname.
Qed.

Lemma deduplicate_unique l e e' :
  e ∈ deduplicateTechnologies l -> e' ∈ deduplicateTechnologies l ->
  name e = name e' -> e = e'.
Proof.
  rewrite !deduplicate_elem. intros H H' Hn. rewrite Hn in H. congruence.
Qed.

Lemma deduplicate_fresh l : forall m : JsMap.t DetectedTechnology,
  NoDup ((fst <$> m) ++ (name <$> l)) ->
  foldl deduplicateStep m l = m ++ ((fun t => (name t, t)) <$> l).
Proof.
  induction l as [|t l IH]; intros m Hnd; simpl.
  - by rewrite app_nil_r.
  - rewrite fmap_cons in Hnd.
    assert (Hfresh : name t ∉ fst <$> m).
    { apply NoDup_app in Hnd as (_ & Hdisj & _). intros Hin.
      apply (Hdisj _ Hin). apply elem_of_cons. by left. }
    rewrite deduplicateStep_cases.
    rewrite (proj2 (get_None m (name t)) Hfresh), set_absent by done.
    rewrite IH.
    + by rewrite <- app_assoc.
    + rewrite fmap_app. simpl. by rewrite <- app_assoc.
Qed.

Lemma deduplicate_id l :
  NoDup (name <$> l) -> deduplicateTechnologies l = l.
Proof.
  intros Hnd. unfold deduplicateTechnologies, JsMap.values.
  rewrite deduplicate_fresh by done. simpl.
  rewrite <- list_fmap_compose. rewrite <- (list_fmap_id l) at 2.
  by apply list_fmap_ext.
Qed.

End Dedup.

(** ** Ordering by confidence *)

Section Sort.

Lemma insertBy_perm {A} (cmp : A -> A -> Z) x l :
  JsArray.insertBy cmp x l ≡ₚ x :: l.
Proof.
  induction l as [|y l IH]; simpl; [done|].
  destruct (cmp x y <=? 0); [done|].
  rewrite IH. apply perm_swap.
Qed.

Lemma sort_perm {A} (cmp : A -> A -> Z) l : JsArray.sort cmp l ≡ₚ l.
Proof.
  induction l as [|x l IH]; simpl; [done|].
  fold (JsArray.sort cmp l). by rewrite insertBy_perm, IH.
Qed.

Lemma compareConfidence_le a b : compareConfidence a b <= 0 <-> byRank a b.
Proof. unfold compareConfidence, byRank, rank. lia. Qed.

Lemma insertBy_filter c x l :
  filter (fun t => confidence t = c) (JsArray.insertBy compareConfidence x l)
  = filter (fun t => confidence t = c) (x :: l).
Proof.
  induction l as [|y l IH]; simpl; [done|].
  destruct (compareConfidence x y <=? 0) eqn:Hc; [done|].
  apply Z.leb_gt in Hc.
  rewrite (filter_cons _ y), IH, !filter_cons.
  destruct (decide (confidence y = c)) as [Hy|Hy];
    destruct (decide (confidence x = c)) as [Hx|Hx]; try done.
  exfalso. unfold compareConfidence in Hc. rewrite Hx, Hy in Hc. lia.
Qed.

(** Stability: the entries of one confidence keep their order. *)
Lemma sort_filter c l :
  filter (fun t => confidence t = c) (JsArray.sort compareConfidence l)
  = filter (fun t => confidence t = c) l.
Proof.
  induction l as [|x l IH]; simpl; [done|].
  fold (JsArray.sort compareConfidence l).
  by rewrite insertBy_filter, !filter_cons, IH.
Qed.

Lemma insertBy_sorted x l :
  StronglySorted byRank l ->
  StronglySorted byRank (JsArray.insertBy compareConfidence x l).
Proof.
  induction 1 as [|y l Hs IH Hall]; simpl.
  - repeat constructor.
  - destruct (compareConfidence x y <=? 0) eqn:Hc.
    + apply Z.leb_le, compareConfidence_le in Hc.
      constructor; [by constructor|].
      constructor; [done|].
      eapply Forall_impl; [exact Hall|]. unfold byRank in *. intros z ?. lia.
    + apply Z.leb_gt in Hc.
      constructor; [done|].
      rewrite insertBy_perm. constructor; [|done].
      unfold byRank, compareConfidence, rank in *. lia.
Qed.

Lemma sort_sorted l : StronglySorted byRank (JsArray.sort compareConfidence l).
Proof.
  induction l as [|x l IH]; simpl; [constructor|].
  by apply insertBy_sorted.
Qed.

Lemma sorted_lookup l (i j : nat) a b :
  StronglySorted byRank l -> (i < j)%nat ->
  l !! i = Some a -> l !! j = Some b -> byRank a b.
Proof.
  intros Hs. revert i j. induction Hs as [|x l Hs IH Hall]; intros i j Hij Ha Hb.
  - done.
  - destruct j as [|j]; [lia|]. destruct i as [|i]; simpl in *.
    + injection Ha as <-. rewrite Forall_forall in Hall. apply Hall.
      by apply list_elem_of_lookup_2 in Hb.
    + apply (IH i j); [lia|done|done].
Qed.

Lemma filter_none {A} (P : A -> Prop) `{forall x, Decision (P x)} (l : list A) :
  Forall (fun x => ~ P x) l -> filter P l = [].
Proof.
  induction 1 as [|x l Hx _ IH]; [done|].
  by rewrite filter_cons_False.
Qed.

Lemma sorted_partition l :
  StronglySorted byRank l ->
  l = filter (fun t => confidence t = high) l
      ++ filter (fun t => confidence t = medium) l
      ++ filter (fun t => confidence t = low) l.
Proof.
  induction 1 as [|x l Hs IH Hall]; [done|].
  assert (Hempty : forall c, rank c < rank (confidence x) ->
                             filter (fun t => confidence t = c) l = []).
  { intros c Hc. apply filter_none.
    eapply Forall_impl; [exact Hall|]. unfold byRank. intros y Hy Heq.
    rewrite Heq in Hy. lia. }
  rewrite !filter_cons.
  destruct (confidence x) eqn:Hx.
  - rewrite decide_True, !decide_False by done. simpl. by rewrite <- IH.
  - rewrite decide_False, decide_True, decide_False by done.
    rewrite (Hempty high) by (rewrite !rank_cases; lia). simpl.
    rewrite IH at 1. by rewrite (Hempty high) by (rewrite !rank_cases; lia).
  - rewrite !decide_False, decide_True by done.
    rewrite (Hempty high), (Hempty medium) by (rewrite !rank_cases; lia). simpl.
    rewrite IH at 1.
    by rewrite (Hempty high), (Hempty medium) by (rewrite !rank_cases; lia).
Qed.

(** A stable sort is determined by its two properties, so the result does
    not depend on the algorithm the run time uses. *)
Lemma stable_sort_unique l sorted :
  StronglySorted byRank sorted ->
  (forall c, filter (fun t => confidence t = c) sorted
             = filter (fun t => confidence t = c) l) ->
  sorted = JsArray.sort compareConfidence l.
Proof.
  intros Hs Hf.
  rewrite (sorted_partition sorted Hs).
  rewrite (sorted_partition (JsArray.sort compareConfidence l) (sort_sorted l)).
  by rewrite !Hf, !sort_filter.
Qed.

End Sort.

(** ** Output of [detectFrameworks] *)

Section DetectFrameworks.

Lemma detectFrameworks_data html headers :
  data (detectFrameworks html headers)
  = JsArray.sort compareConfidence
      (deduplicateTechnologies (collectTechnologies html headers)).
Proof. done. Qed.

(** C3: the list returned by [detectFrameworks] has no two entries with
    the same name, and deduplicating it again returns it unchanged. *)
Theorem detectFrameworks_names_unique html headers :
  let detected := data (detectFrameworks html headers) in
  NoDup (name <$> detected) /\
  (forall (i j : nat) a b,
     detected !! i = Some a -> detected !! j = Some b ->
     name a = name b -> i = j) /\
  deduplicateTechnologies detected = detected.
Proof.
  intros detected.
  assert (Hnd : NoDup (name <$> detected)).
  { unfold detected. rewrite detectFrameworks_data, sort_perm.
    apply deduplicate_NoDup. }
  split; [done|]. split.
  - intros i j a b Ha Hb Hab.
    apply (NoDup_lookup (name <$> detected) i j (name a)); [done| |].
    + by rewrite list_lookup_fmap, Ha.
    + by rewrite list_lookup_fmap, Hb, Hab.
  - by apply deduplicate_id.
Qed.

(** C8: the deduplicated list is returned with every high entry before
    every medium entry before every low entry, and entries of equal
    confidence in the order in which deduplication produced them. *)
Theorem detectFrameworks_sorted_stable html headers :
  let deduplicated := deduplicateTechnologies (collectTechnologies html headers) in
  let detected := data (detectFrameworks html headers) in
  detected ≡ₚ deduplicated /\
  (forall (i j : nat) a b,
     (i < j)%nat -> detected !! i = Some a -> detected !! j = Some b ->
     tier (confidence b) <= tier (confidence a)) /\
  (forall c, filter (fun t => confidence t = c) detected
             = filter (fun t => confidence t = c) deduplicated) /\
  detected = filter (fun t => confidence t = high) deduplicated
             ++ filter (fun t => confidence t = medium) deduplicated
             ++ filter (fun t => confidence t = low) deduplicated.
Proof.
  intros deduplicated detected.
  assert (Hd : detected = JsArray.sort compareConfidence deduplicated) by done.
  pose proof (sort_sorted deduplicated) as Hs. rewrite <- Hd in Hs.
  split; [rewrite Hd; apply sort_perm|]. split.
  { intros i j a b Hij Ha Hb. apply rank_tier.
    by apply (sorted_lookup detected i j). }
  split.
  { intros c. rewrite Hd. apply sort_filter. }
  rewrite (sorted_partition detected Hs) at 1.
  by rewrite Hd, !sort_filter.
Qed.

End DetectFrameworks.

(** ** Captured versions are never empty *)

Section Captures.

Lemma capOk_clearCaps gs st : capOk st -> capOk (clearCaps gs st).
Proof.
  unfold capOk, clearCaps. simpl. induction gs as [|g gs IH]; simpl; [done|].
  intros H. destruct (decide (g = 1%nat)) as [->|Hne].
  - by rewrite lookup_delete_eq.
  - rewrite lookup_delete_ne by done. by apply IH.
Qed.

Lemma take_nonempty (n : nat) (s : string) :
  (0 < n)%nat -> (0 < String.length s)%nat -> take n s <> "".
Proof. destruct n, s; simpl; intros; (lia || done). Qed.

Lemma string_length_app (s1 s2 : string) :
  String.length (s1 +:+ s2) = (String.length s1 + String.length s2)%nat.
Proof. induction s1 as [|c s1 IH]; [reflexivity|simpl; congruence]. Qed.

Lemma app_assoc_s (s1 s2 s3 : string) : (s1 +:+ s2) +:+ s3 = s1 +:+ s2 +:+ s3.
Proof. induction s1 as [|c s1 IH]; [reflexivity|simpl; congruence]. Qed.

Lemma app_nil_r_s (s : string) : s +:+ "" = s.
Proof. induction s as [|c s IH]; [reflexivity|simpl; congruence]. Qed.

Lemma take_app_length (w s : string) : take (String.length w) (w +:+ s) = w.
Proof. induction w as [|c w IH]; [by destruct s|simpl; congruence]. Qed.

Lemma drop_app_length (w s : string) : drop (String.length w) (w +:+ s) = s.
Proof. induction w as [|c w IH]; [reflexivity|simpl; congruence]. Qed.

Lemma suffix_remaining st st' w :
  rest st = w +:+ rest st' ->
  (remaining st' <= remaining st)%nat /\ consumed st st' = w.
Proof.
  unfold consumed, remaining. intros ->. rewrite string_length_app. split; [lia|].
  replace (String.length w + String.length (rest st') - String.length (rest st'))%nat
    with (String.length w) by lia.
  apply take_app_length.
Qed.

Lemma step_follows (p : ascii -> bool) st k res :
  step p st k = Some res ->
  exists st', k st' = Some res /\ (exists w, rest st = w +:+ rest st') /\
              (remaining st' < remaining st)%nat /\ caps st' = caps st.
Proof.
  unfold step, remaining. destruct (rest st) as [|c s'] eqn:Hr; [done|].
  destruct (p c); [|done]. intros Hk.
  eexists. split; [exact Hk|]. simpl. split; [by exists (String c "")|].
  split; [lia|done].
Qed.

Lemma follows_refl r st :
  consumes r = false -> follows r st st.
Proof.
  intros Hc. split; [by exists ""|]. split; [congruence|done].
Qed.

Lemma suffix_trans (s1 s2 s3 : string) :
  (exists w, s1 = w +:+ s2) -> (exists w, s2 = w +:+ s3) -> exists w, s1 = w +:+ s3.
Proof.
  intros [w1 ->] [w2 ->]. exists (w1 +:+ w2). by rewrite app_assoc_s.
Qed.

Lemma suffix_le st st' :
  (exists w, rest st = w +:+ rest st') -> (remaining st' <= remaining st)%nat.
Proof. intros [w Hw]. by apply suffix_remaining in Hw as [? _]. Qed.

Lemma repeat_follows (body : MState -> Cont -> option MState) gs r :
  (forall k st res, body st k = Some res ->
     exists st', k st' = Some res /\ follows r st st') ->
  forall n k st res,
    repeat body gs k n st = Some res ->
    exists st', k st' = Some res /\ (exists w, rest st = w +:+ rest st') /\
                (group1Consumes r = true -> capOk st -> capOk st').
Proof.
  intros Hbody. induction n as [|n IH]; intros k st res; simpl.
  - intros Hk. exists st. split; [done|]. split; [by exists ""|done].
  - destruct (body (clearCaps gs st) _) as [res'|] eqn:Hb.
    + intros [= ->]. apply Hbody in Hb as (st1 & Hk1 & Hsuf & _ & Hcap).
      change (rest (clearCaps gs st)) with (rest st) in Hsuf.
      destruct (remaining st1 <? remaining st)%nat eqn:Hlt; [|done].
      apply IH in Hk1 as (st' & Hk & Hsuf' & Hcap').
      exists st'. split; [done|]. split; [by eapply suffix_trans|].
      intros Hg Hok. apply Hcap'; [done|]. apply Hcap; [done|].
      by apply capOk_clearCaps.
    + intros Hk. exists st. split; [done|]. split; [by exists ""|done].
Qed.

(** The cases of a pattern that reads exactly one character. *)
Local Ltac one_step :=
  let H := fresh "H" in
  intros H; apply step_follows in H as (st' & Hk & Hsuf & Hlt & Hc);
  exists st'; split; [done|]; split; [done|]; split; [done|];
  unfold capOk; by rewrite Hc.

Lemma rmatch_follows ic r : forall k st res,
  rmatch ic r st k = Some res ->
  exists st', k st' = Some res /\ follows r st st'.
Proof.
  induction r as [| a | | negated items | | r1 IH1 r2 IH2 | r1 IH1 r2 IH2
                  | r1 IH1 | r1 IH1 | r1 IH1 | i r1 IH1];
    intros k st res; simpl.
  - intros Hk. exists st. split; [done|]. by apply follows_refl.
  - one_step.
  - one_step.
  - one_step.
  - destruct (xorb _ _); [|done]. intros Hk. exists st.
    split; [done|]. by apply follows_refl.
  - intros H. apply IH1 in H as (st1 & H & Hsuf1 & Hlt1 & Hc1).
    apply IH2 in H as (st2 & Hk & Hsuf2 & Hlt2 & Hc2).
    pose proof (suffix_le _ _ Hsuf1). pose proof (suffix_le _ _ Hsuf2).
    exists st2. split; [done|]. split; [by eapply suffix_trans|]. split.
    + intros Hcons. apply orb_true_iff in Hcons as [Hcons|Hcons];
        [specialize (Hlt1 Hcons)|specialize (Hlt2 Hcons)]; lia.
    + intros Hg Hok. apply andb_true_iff in Hg as [Hg1 Hg2]. auto.
  - destruct (rmatch ic r1 st k) as [res'|] eqn:H1.
    + intros [= ->]. apply IH1 in H1 as (st' & Hk & Hsuf & Hlt & Hc).
      exists st'. split; [done|]. split; [done|]. split.
      * intros Hcons. apply andb_true_iff in Hcons as [Hcons _]. auto.
      * intros Hg. apply andb_true_iff in Hg as [Hg _]. auto.
    + intros H2. apply IH2 in H2 as (st' & Hk & Hsuf & Hlt & Hc).
      exists st'. split; [done|]. split; [done|]. split.
      * intros Hcons. apply andb_true_iff in Hcons as [_ Hcons]. auto.
      * intros Hg. apply andb_true_iff in Hg as [_ Hg]. auto.
  - intros H. apply (repeat_follows _ _ r1 (IH1)) in H as (st' & Hk & Hsuf & Hc).
    exists st'. split; [done|]. split; [done|]. done.
  - intros H. apply IH1 in H as (st1 & H & Hsuf1 & Hlt1 & Hc1).
    change (rest (clearCaps (groupsOf r1) st)) with (rest st) in Hsuf1.
    change (remaining (clearCaps (groupsOf r1) st)) with (remaining st) in Hlt1.
    apply (repeat_follows _ _ r1 (IH1)) in H as (st' & Hk & Hsuf & Hc).
    pose proof (suffix_le _ _ Hsuf).
    exists st'. split; [done|]. split; [by eapply suffix_trans|]. split.
    + intros Hcons. specialize (Hlt1 Hcons). lia.
    + intros Hg Hok. apply Hc; [done|]. apply Hc1; [done|].
      by apply capOk_clearCaps.
  - destruct (rmatch ic r1 (clearCaps (groupsOf r1) st) _) as [res'|] eqn:H1.
    + intros [= ->]. apply IH1 in H1 as (st1 & Hk & Hsuf & _ & Hc).
      change (rest (clearCaps (groupsOf r1) st)) with (rest st) in Hsuf.
      destruct (remaining st1 <? remaining st)%nat; [|done].
      exists st1. split; [done|]. split; [done|]. split; [done|].
      intros Hg Hok. apply Hc; [done|]. by apply capOk_clearCaps.
    + intros Hk. exists st. split; [done|]. by apply follows_refl.
  - intros H. apply IH1 in H as (st1 & Hk & Hsuf & Hlt & Hc).
    exists (setCap i (consumed st st1) st1). split; [done|].
    split; [exact Hsuf|]. split; [exact Hlt|].
    intros Hg Hok. apply andb_true_iff in Hg as [Hg Hi].
    unfold capOk, setCap. simpl.
    destruct (Nat.eqb_spec i 1) as [->|Hne].
    + rewrite lookup_insert_eq. intros [= He]. revert He.
      specialize (Hlt Hi). apply take_nonempty; [lia|].
      fold (remaining st). lia.
    + rewrite lookup_insert_ne by done. by apply Hc.
Qed.

(** A successful [exec] returns as group 0 the part of the input that
    starts at [index], and a non-empty group 1 when the pattern's first
    group consumes. *)
Lemma execFrom_spec (re : RegExp) : forall s i before m,
  execFrom re i before s = Some m ->
  (exists pre post, s = pre +:+ group0 m +:+ post /\ index m = i + len pre) /\
  (group1Consumes (source re) = true -> groups m !! 1%nat <> Some "").
Proof.
  assert (Hhere : forall s i before st',
    rmatch (ignoreCase re) (source re)
      {| prev := before; rest := s; caps := ∅ |} Some = Some st' ->
    let m := {| index := i;
                group0 := consumed {| prev := before; rest := s; caps := ∅ |} st';
                groups := caps st' |} in
    (exists pre post, s = pre +:+ group0 m +:+ post /\ index m = i + len pre) /\
    (group1Consumes (source re) = true -> groups m !! 1%nat <> Some "")).
  { intros s i before st' Hm. simpl.
    apply rmatch_follows in Hm as (st & [= ->] & [w Hsuf] & _ & Hc).
    pose proof (suffix_remaining _ _ _ Hsuf) as [_ ->]. simpl in Hsuf. split.
    - exists "", (rest st'). split; [done|]. unfold len. simpl. lia.
    - intros Hg. apply Hc; [done|]. unfold capOk. simpl. by rewrite lookup_empty. }
  induction s as [|c s IH]; intros i before m; simpl.
  - destruct (rmatch _ _ _ _) as [st'|] eqn:Hm; [|done].
    intros [= <-]. by apply Hhere.
  - destruct (rmatch _ _ _ _) as [st'|] eqn:Hm.
    + intros [= <-]. by apply Hhere.
    + intros H. apply IH in H as [(pre & post & -> & Hi) Hg]. split; [|done].
      exists (String c pre), post. split; [done|].
      rewrite Hi. unfold len. simpl String.length. lia.
Qed.

Lemma execFrom_group1 (re : RegExp) s i before m :
  group1Consumes (source re) = true ->
  execFrom re i before s = Some m -> groups m !! 1%nat <> Some "".
Proof. intros Hg H. apply execFrom_spec in H as [_ H]. by apply H. Qed.

Lemma versionPatterns_consume :
  Forall (fun s => match sp_versionPattern s with
                   | Some vp => group1Consumes (source vp) = true
                   | None => True
                   end) frameworkSignatures.
Proof. repeat constructor. Qed.

Lemma detectSignature_version html signature t :
  signature ∈ frameworkSignatures ->
  t ∈ detectSignature html signature -> version t <> Some "".
Proof.
  intros Hs Ht.
  pose proof versionPatterns_consume as Hall. rewrite Forall_forall in Hall.
  specialize (Hall _ Hs).
  unfold detectSignature in Ht.
  destruct (countMatches html (sp_patterns signature)) as [c ps].
  destruct (0 <? c); [|by apply elem_of_nil in Ht].
  apply list_elem_of_singleton in Ht as ->. simpl.
  unfold extractVersion. destruct (sp_versionPattern signature) as [vp|]; [|done].
  destruct (exec vp html) as [m|] eqn:Hm; [|done].
  by apply (execFrom_group1 vp html 0 None m).
Qed.

End Captures.

(** ** Header-based detection *)

Section Headers.

Lemma normalizeHeaders_lookup headers h :
  normalizeHeaders headers !! h = headerValueOf headers h.
Proof.
  unfold normalizeHeaders, headerValueOf.
  induction headers as [|[k v] headers IH] using rev_ind; [done|].
  rewrite foldl_snoc, filter_app, filter_cons, filter_nil. simpl.
  destruct (decide (toLowerCase k = h)) as [<-|Hne].
  - by rewrite lookup_insert_eq, last_snoc.
  - by rewrite lookup_insert_ne, app_nil_r.
Qed.

Lemma detectHeaderRules_find signature headerValue rules :
  detectHeaderRules signature headerValue rules =
    match List.find (fun r => matchesPattern headerValue (hr_pattern r)) rules with
    | Some r =>
        [ {| name := hr_technology r;
             version := None;
             confidence := high;
             category := hr_category r;
             evidence := Some (hs_header signature +:+ ": " +:+ headerValue) |} ]
    | None => []
    end.
Proof.
  induction rules as [|r rules IH]; simpl; [done|].
  by destruct (matchesPattern headerValue (hr_pattern r)).
Qed.

(** No rule of the catalog matches an empty header value. *)
Lemma headerRules_nonempty_value :
  Forall (fun signature =>
            List.find (fun r => matchesPattern "" (hr_pattern r))
                      (hs_patterns signature) = None)
         headerSignatures.
Proof. repeat (constructor; [vm_compute; reflexivity|]). constructor. Qed.

Lemma foldl_append {A B} (g : list B -> A -> list B) (f : A -> list B) l acc :
  (forall acc x, x ∈ l -> g acc x = acc ++ f x) ->
  foldl g acc l = acc ++ mjoin (f <$> l).
Proof.
  revert acc. induction l as [|x l IH]; intros acc Hg; simpl.
  - by rewrite app_nil_r.
  - rewrite Hg by (apply elem_of_cons; by left).
    rewrite IH, app_assoc; [done|].
    intros acc' y Hy. apply Hg. apply elem_of_cons. by right.
Qed.

Lemma detectFromHeaders_spec headers :
  detectFromHeaders headers = mjoin (headerDetection headers <$> headerSignatures).
Proof.
  unfold detectFromHeaders. cbv zeta.
  rewrite (foldl_append _ (headerDetection headers)); [done|].
  intros acc signature Hs. unfold headerDetection.
  rewrite normalizeHeaders_lookup.
  destruct (headerValueOf headers _) as [headerValue|]; [|by rewrite app_nil_r].
  destruct headerValue as [|c v].
  - simpl truthy. cbv iota.
    pose proof headerRules_nonempty_value as Hall.
    rewrite Forall_forall in Hall. rewrite (Hall _ Hs). by rewrite app_nil_r.
  - simpl truthy. cbv iota. by rewrite detectHeaderRules_find.
Qed.

Lemma headerDetection_shape headers signature t :
  t ∈ headerDetection headers signature ->
  confidence t = high /\ version t = None /\
  exists headerValue,
    headerValueOf headers (toLowerCase (hs_header signature)) = Some headerValue /\
    evidence t = Some (hs_header signature +:+ ": " +:+ headerValue).
Proof.
  unfold headerDetection.
  destruct (headerValueOf headers _) as [headerValue|];
    [|intros H; by apply elem_of_nil in H].
  destruct (List.find _ _) as [r|]; [|intros H; by apply elem_of_nil in H].
  intros H. apply list_elem_of_singleton in H as ->. simpl.
  split; [done|]. split; [done|]. by exists headerValue.
Qed.

Lemma detectFromHeaders_shape headers t :
  t ∈ detectFromHeaders headers -> confidence t = high /\ version t = None.
Proof.
  rewrite detectFromHeaders_spec. intros H.
  apply list_elem_of_join in H as (l & Ht & Hl).
  apply list_elem_of_fmap in Hl as (signature & -> & _).
  apply headerDetection_shape in Ht as (? & ? & _). done.
Qed.

Lemma length_mjoin_le {A B} (f : A -> list B) (l : list A) :
  (forall x, (length (f x) <= 1)%nat) ->
  (length (mjoin (f <$> l)) <= length l)%nat.
Proof.
  intros Hf. induction l as [|x l IH]; [simpl; lia|].
  change (mjoin (f <$> x :: l)) with (f x ++ mjoin (f <$> l)).
  rewrite length_app. specialize (Hf x). simpl length. lia.
Qed.

Lemma headerDetection_length headers signature :
  (length (headerDetection headers signature) <= 1)%nat.
Proof.
  unfold headerDetection. destruct (headerValueOf headers _); [|simpl; lia].
  destruct (List.find _ _); simpl; lia.
Qed.

(** C4: header-based detection lets each header signature contribute the
    technology of the first rule, in declared order, that matches the
    value stored under the lower-cased header name, and nothing else (so
    at most one technology per header signature);
    every technology it emits has confidence high, evidence
    "<headerName>: <headerValue>" and no version, and enters the result
    whenever the header map is not empty. The header map
    {X-Powered-By: Express} with empty HTML yields exactly Express,
    backend-framework, high, with evidence "x-powered-by: Express". *)
Theorem detectFromHeaders_first_rule (headers : list (string * string)) :
  detectFromHeaders headers = mjoin (headerDetection headers <$> headerSignatures) /\
  (length (detectFromHeaders headers) <= length headerSignatures)%nat /\
  (forall t, t ∈ detectFromHeaders headers ->
     confidence t = high /\ version t = None /\
     exists signature headerValue,
       signature ∈ headerSignatures /\
       headerValueOf headers (toLowerCase (hs_header signature)) = Some headerValue /\
       evidence t = Some (hs_header signature +:+ ": " +:+ headerValue)) /\
  (forall html t, headers <> [] -> t ∈ detectFromHeaders headers ->
     t ∈ collectTechnologies html (Some headers)) /\
  detectFrameworks "" (Some [("X-Powered-By", "Express")])
  = {| ok := true;
       data := [ {| name := "Express";
                    version := None;
                    confidence := high;
                    category := backend_framework;
                    evidence := Some "x-powered-by: Express" |} ];
       warnings := ["Empty HTML content provided"] |}.
Proof.
  split; [apply detectFromHeaders_spec|]. split; [|split; [|split]].
  - rewrite detectFromHeaders_spec. apply length_mjoin_le.
    apply headerDetection_length.
  - rewrite detectFromHeaders_spec. intros t H.
    apply list_elem_of_join in H as (l & Ht & Hl).
    apply list_elem_of_fmap in Hl as (signature & -> & Hs).
    apply headerDetection_shape in Ht as (? & ? & v & ? & ?).
    split; [done|]. split; [done|]. by exists signature, v.
  - intros html t Hne Ht. unfold collectTechnologies.
    destruct headers as [|h headers]; [done|]. simpl length.
    destruct (0 <? Z.of_nat (S (length headers))) eqn:Hlen;
      [|apply Z.ltb_ge in Hlen; lia].
    apply elem_of_app. by right.
  - vm_compute. reflexivity.
Qed.

End Headers.

(** ** What deduplication keeps *)

Section DedupClaim.

Lemma collectTechnologies_elem html headers t :
  t ∈ collectTechnologies html headers ->
  t ∈ detectFromHtml html \/ exists hs, headers = Some hs /\ t ∈ detectFromHeaders hs.
Proof.
  unfold collectTechnologies.
  destruct (isEmptyHtml html); simpl; destruct headers as [hs|];
    try destruct (0 <? Z.of_nat (length hs)); rewrite ?elem_of_app;
    intros H; try (by apply elem_of_nil in H); try (by left).
  - right. by exists hs.
  - destruct H as [H|H]; [by left|right; by exists hs].
Qed.

(** The versions found by the two passes are never the empty string. *)
Lemma collectTechnologies_versions html headers :
  Forall (fun t => version t <> Some "") (collectTechnologies html headers).
Proof.
  apply Forall_forall. intros t Ht.
  apply collectTechnologies_elem in Ht as [Ht|(hs & _ & Ht)].
  - rewrite detectFromHtml_concat in Ht.
    apply list_elem_of_join in Ht as (l & Ht & Hl).
    apply list_elem_of_fmap in Hl as (signature & -> & Hs).
    by apply (detectSignature_version html signature).
  - apply detectFromHeaders_shape in Ht as [_ ->]. done.
Qed.

Lemma truthy_version t :
  version t <> Some "" -> (truthy (version t) = true <-> version t <> None).
Proof. destruct (version t) as [[|c v]|]; simpl; intros H; split; done. Qed.

(** C2: deduplication keeps exactly one entry per name, taken from the
    input; it has the best confidence of the entries with that name, and
    if an entry with that name and that same confidence carries a version,
    so does the kept one. This holds for every list combined from the HTML
    pass and the header pass, and more generally for every list in which
    no version is the empty string. *)
Theorem deduplicate_keeps_best :
  (forall html headers, keepsBest (collectTechnologies html headers)) /\
  (forall technologies,
     Forall (fun t => version t <> Some "") technologies -> keepsBest technologies).
Proof.
  assert (Hgen : forall technologies,
    Forall (fun t => version t <> Some "") technologies -> keepsBest technologies).
  { intros technologies Hv. rewrite Forall_forall in Hv. split.
    - intros e He. apply deduplicate_elem in He.
      pose proof (dedupInv_final technologies) as (_ & Hget & _).
      by apply Hget in He as [_ ?].
    - intros t Ht.
      destruct (deduplicate_best technologies t Ht) as (e & He & Hel & Hname & Hr & Hver).
      exists e. split; [done|]. split; [done|]. split; [|split].
      + intros e' He' Hn. apply (deduplicate_unique technologies); [done|done|congruence].
      + by apply rank_tier.
      + intros Hc Hvt. apply truthy_version; [by apply Hv|].
        apply Hver; [done|]. apply truthy_version; [by apply Hv|done]. }
  split; [|done].
  intros html headers. apply Hgen, collectTechnologies_versions.
Qed.

(** Two WordPress entries of the same confidence: the one with the
    version is kept. *)
Lemma deduplicate_keeps_best_witness :
  let a := {| name := "WordPress"; version := None; confidence := high;
              category := cms; evidence := Some "x-generator: WordPress 6.4" |} in
  let b := {| name := "WordPress"; version := Some "6.4"; confidence := high;
              category := cms; evidence := Some "wp-json" |} in
  deduplicateTechnologies [a; b] = [b] /\
  exists e, e ∈ deduplicateTechnologies [a; b] /\ version e <> None.
Proof.
  intros a b. split; [reflexivity|].
  assert (Hv : Forall (fun t => version t <> Some "") [a; b])
    by (repeat constructor; discriminate).
  destruct deduplicate_keeps_best as [_ Hgen].
  destruct (Hgen [a; b] Hv) as [_ H].
  destruct (H b) as (e & He & _ & _ & _ & Hver).
  - apply elem_of_cons. right. apply elem_of_cons. by left.
  - exists e. split; [exact He|]. apply Hver; [|discriminate].
    apply elem_of_cons in He as [->|He]; [reflexivity|].
    by apply elem_of_nil in He.
Defined.

End DedupClaim.

(** ** Empty pages *)

Section EmptyHtml.

Lemma onlyWhiteSpace_cons c s :
  onlyWhiteSpace (String c s) <-> isWhiteSpace c = true /\ onlyWhiteSpace s.
Proof.
  unfold onlyWhiteSpace. split.
  - intros H. split; [by apply (H O)|]. intros i d Hd. by apply (H (S i)).
  - intros [Hc Hs] [|i] d; simpl; [by intros [= <-]|]. apply Hs.
Qed.

Lemma onlyWhiteSpace_nil : onlyWhiteSpace "".
Proof. intros i c. by destruct i. Qed.

Lemma trimStart_blank s : trimStart s = "" <-> onlyWhiteSpace s.
Proof.
  induction s as [|c s IH]; simpl.
  - split; [intros _; apply onlyWhiteSpace_nil|done].
  - rewrite onlyWhiteSpace_cons. destruct (isWhiteSpace c).
    + rewrite IH. tauto.
    + split; [done|]. by intros [? _].
Qed.

Lemma trimEnd_blank s : trimEnd s = "" <-> onlyWhiteSpace s.
Proof.
  induction s as [|c s IH]; simpl.
  - split; [intros _; apply onlyWhiteSpace_nil|done].
  - rewrite onlyWhiteSpace_cons. destruct (trimEnd s) as [|d t].
    + destruct (isWhiteSpace c); [tauto|]. split; [done|]. by intros [? _].
    + split; [done|]. intros [_ H]. by apply IH in H.
Qed.

Lemma trimStart_suffix s :
  onlyWhiteSpace (trimStart s) -> onlyWhiteSpace s.
Proof.
  induction s as [|c s IH]; simpl; [done|].
  destruct (isWhiteSpace c) eqn:Hc; [|done].
  intros H. apply onlyWhiteSpace_cons. auto.
Qed.

Lemma length_zero s : len s = 0 <-> s = "".
Proof. unfold len. destruct s; simpl; split; intros; (done || lia). Qed.

(** The guard [!html || html.trim().length === 0] holds exactly for the
    pages that are empty or all white space. *)
Lemma isEmptyHtml_spec html : isEmptyHtml html = true <-> onlyWhiteSpace html.
Proof.
  unfold isEmptyHtml, trim. split.
  - intros H. apply orb_true_iff in H as [H|H].
    + destruct html; [apply onlyWhiteSpace_nil|done].
    + apply Z.eqb_eq, length_zero, trimEnd_blank in H. by apply trimStart_suffix.
  - intros H. apply orb_true_iff. right.
    apply Z.eqb_eq, length_zero. by apply trimStart_blank in H as ->.
Qed.

(** C5: for a page that is empty or all white space, [detectFrameworks]
    and [detectAnalytics] warn exactly "Empty HTML content provided" and
    detect nothing from the page; [detectFrameworks] still runs the header
    pass on a non-empty header map. *)
Theorem empty_html_warns html headers :
  onlyWhiteSpace html ->
  warnings (detectFrameworks html headers) = ["Empty HTML content provided"] /\
  warnings (detectAnalytics html) = ["Empty HTML content provided"] /\
  data (detectAnalytics html) = [] /\
  collectTechnologies html headers = headerPass headers /\
  data (detectFrameworks html headers)
  = JsArray.sort compareConfidence (deduplicateTechnologies (headerPass headers)).
Proof.
  intros H. apply isEmptyHtml_spec in H.
  assert (Hc : collectTechnologies html headers = headerPass headers).
  { unfold collectTechnologies. rewrite H.
    destruct headers as [[|h hs]|]; done. }
  unfold detectAnalytics, detectAnalyticsOver.
  rewrite detectFrameworks_data, Hc. unfold detectFrameworks. rewrite H. done.
Qed.

Lemma empty_html_warns_witness :
  warnings (detectFrameworks "  " (Some [("Server", "nginx/1.21.0")]))
    = ["Empty HTML content provided"] /\
  data (detectFrameworks "  " (Some [("Server", "nginx/1.21.0")]))
    = [ {| name := "nginx"; version := None; confidence := high;
           category := server; evidence := Some "server: nginx/1.21.0" |} ].
Proof.
  assert (H : onlyWhiteSpace "  ").
  { intros [|[|[|i]]] c; simpl; intros [= <-]; reflexivity. }
  destruct (empty_html_warns "  " (Some [("Server", "nginx/1.21.0")]) H)
    as (Hw & _ & _ & _ & Hd).
  split; [exact Hw|]. rewrite Hd. vm_compute. reflexivity.
Defined.

End EmptyHtml.

(** ** Evidence *)

Section Evidence.

Lemma startsWith_spec content pat :
  startsWith content pat = true <-> exists b, content = pat +:+ b.
Proof.
  revert content. induction pat as [|p pat IH]; intros content; simpl.
  - split; [intros _; by exists content|intros _; by destruct content].
  - destruct content as [|c content]; simpl.
    + split; [done|]. by intros [b [=]].
    + destruct (Ascii.eqb_spec p c) as [->|Hne].
      * rewrite IH. split; intros [b Hb]; exists b; congruence.
      * split; [done|]. intros [b [=]]. done.
Qed.

Lemma occursAt_cons c content pat a :
  occursAt (String c content) pat a <->
  (a = "" /\ startsWith (String c content) pat = true) \/
  (exists a', a = String c a' /\ occursAt content pat a').
Proof.
  unfold occursAt. rewrite startsWith_spec. split.
  - intros [b Hb]. destruct a as [|d a]; [left; split; [done|by exists b]|].
    right. simpl in Hb. injection Hb as -> ->. exists a. split; [done|by exists b].
  - intros [[-> [b Hb]]|(a' & -> & b & ->)]; by exists b.
Qed.

Lemma occursAt_nil pat a :
  occursAt "" pat a <-> a = "" /\ startsWith "" pat = true.
Proof.
  unfold occursAt. rewrite startsWith_spec. split.
  - intros [b Hb]. destruct a; [|done]. split; [done|by exists b].
  - intros [-> [b Hb]]. by exists b.
Qed.

Lemma includes_eq content pat :
  includes content pat =
    startsWith content pat ||
    match content with
    | EmptyString => false
    | String _ rest => includes rest pat
    end.
Proof. by destruct content. Qed.

Lemma indexOfFrom_eq i content pat :
  indexOfFrom i content pat =
    if startsWith content pat then i
    else match content with
         | EmptyString => -1
         | String _ rest => indexOfFrom (i + 1) rest pat
         end.
Proof. by destruct content. Qed.

Lemma includes_spec content pat :
  includes content pat = true <-> exists a, occursAt content pat a.
Proof.
  induction content as [|c content IH]; rewrite includes_eq.
  - rewrite orb_false_r. split.
    + intros H. exists "". by apply occursAt_nil.
    + intros [a Ha]. by apply occursAt_nil in Ha as [_ ?].
  - rewrite orb_true_iff, IH. split.
    + intros [H|[a Ha]].
      * exists "". apply occursAt_cons. by left.
      * exists (String c a). apply occursAt_cons. right. by exists a.
    + intros [a Ha]. apply occursAt_cons in Ha as [[_ H]|(a' & _ & H)];
        [by left|right; by exists a'].
Qed.

(** [indexOf] is -1 exactly when there is no occurrence, and otherwise
    the length of the shortest prefix before one. *)
Lemma indexOfFrom_spec pat : forall content i,
  0 <= i ->
  (indexOfFrom i content pat = -1 /\ includes content pat = false) \/
  (exists a, occursAt content pat a /\
             indexOfFrom i content pat = i + len a /\
             forall a', occursAt content pat a' ->
                        (String.length a <= String.length a')%nat).
Proof.
  induction content as [|c content IH]; intros i Hi0;
    rewrite indexOfFrom_eq, includes_eq.
  - rewrite orb_false_r. destruct (startsWith "" pat) eqn:Hs.
    + right. exists "". split; [by apply occursAt_nil|].
      split; [unfold len; simpl; lia|]. intros a' _. simpl. lia.
    + by left.
  - destruct (startsWith (String c content) pat) eqn:Hs.
    + right. exists "". split; [apply occursAt_cons; by left|].
      split; [unfold len; simpl; lia|]. intros a' _. simpl. lia.
    + rewrite orb_false_l.
      destruct (IH (i + 1)) as [[H1 H2]|(a & Ha & Hi & Hmin)]; [lia| |].
      * by left.
      * right. exists (String c a). split; [|split].
        -- apply occursAt_cons. right. by exists a.
        -- rewrite Hi. unfold len. simpl String.length. lia.
        -- intros a' Ha'. apply occursAt_cons in Ha' as [[_ H]|(a'' & -> & H)];
             [congruence|]. simpl. apply Hmin in H. lia.
Qed.

Lemma drop_app_le (n : nat) (a r : string) :
  (n <= String.length a)%nat -> drop n (a +:+ r) = drop n a +:+ r.
Proof.
  revert a. induction n as [|n IH]; intros a Hn; [done|].
  destruct a as [|c a]; simpl in *; [lia|]. apply IH. lia.
Qed.

Lemma take_app_plus (w r : string) (k : nat) :
  take (String.length w + k) (w +:+ r) = w +:+ take k r.
Proof. induction w as [|c w IH]; [done|]. simpl. by rewrite IH. Qed.

Lemma take_min (k : nat) (b : string) : take (k `min` String.length b) b = take k b.
Proof.
  revert b. induction k as [|k IH]; intros b; [done|].
  destruct b as [|c b]; simpl; [done|]. by rewrite IH.
Qed.

Lemma length_drop (n : nat) (a : string) :
  String.length (drop n a) = (String.length a - n)%nat.
Proof.
  revert a. induction n as [|n IH]; intros a; simpl; [lia|].
  destruct a as [|c a]; simpl; [done|]. apply IH.
Qed.

(** The evidence window around an occurrence of [s] after [a]: the last
    20 characters of [a] at most, [s], and the first 20 characters of [b]
    at most. *)
Lemma slice_window (a s b : string) :
  let content := a +:+ s +:+ b in
  slice content (Z.max 0 (len a - 20)) (Z.min (len content) (len a + len s + 20))
  = drop (String.length a - 20) a +:+ s +:+ take 20 b.
Proof.
  intros content. unfold slice, len. subst content.
  rewrite !string_length_app.
  set (la := String.length a). set (ls := String.length s).
  set (lb := String.length b).
  destruct (Z.max 0 (Z.of_nat la - 20) <? 0) eqn:E1;
    [apply Z.ltb_lt in E1; lia|].
  destruct (Z.min (Z.of_nat (la + (ls + lb))) (Z.of_nat la + Z.of_nat ls + 20) <? 0)
    eqn:E2; [apply Z.ltb_lt in E2; lia|].
  replace (Z.to_nat (Z.min (Z.max 0 (Z.of_nat la - 20)) (Z.of_nat (la + (ls + lb)))))
    with (la - 20)%nat by lia.
  rewrite drop_app_le by (subst la; lia).
  replace (Z.to_nat _)
    with (String.length (drop (la - 20) a +:+ s) + (20 `min` lb))%nat.
  - rewrite <- app_assoc_s, take_app_plus, app_assoc_s. subst lb.
    by rewrite take_min.
  - rewrite string_length_app, length_drop. fold la ls. lia.
Qed.

Lemma findEvidence_skip content p rules :
  matchesPattern content p = false ->
  findEvidence content (p :: rules) = findEvidence content rules.
Proof.
  destruct p as [s|r]; cbn [findEvidence matchesPattern].
  - intros Hinc. unfold indexOf.
    destruct (indexOfFrom_spec s content 0) as [[-> _]|(a & Ha & _)]; [lia|done|].
    assert (includes content s = true) by (apply includes_spec; by exists a).
    congruence.
  - unfold test. by destruct (exec r content).
Qed.

Lemma findEvidence_literal content s rules :
  includes content s = true ->
  exists before after,
    content = before +:+ s +:+ after /\
    (forall before' after', content = before' +:+ s +:+ after' ->
       (String.length before <= String.length before')%nat) /\
    findEvidence content (Lit s :: rules)
    = Some ("..." +:+ drop (String.length before - 20) before +:+ s
                  +:+ take 20 after +:+ "...").
Proof.
  intros Hinc. cbn [findEvidence]. unfold indexOf.
  destruct (indexOfFrom_spec s content 0) as [[_ Hno]|(a & [b Hb] & Hi & Hmin)];
    [lia|congruence|].
  exists a, b. split; [done|]. split.
  - intros a' b' H. apply Hmin. by exists b'.
  - rewrite Z.add_0_l in Hi. rewrite Hi.
    destruct (len a =? -1) eqn:E; [apply Z.eqb_eq in E; unfold len in E; lia|].
    cbn [negb]. rewrite Hb at 1 2. rewrite slice_window.
    by rewrite !app_assoc_s.
Qed.

Lemma findEvidence_regexp content r rules :
  test r content = true ->
  exists m, exec r content = Some m /\
            findEvidence content (Re r :: rules) = Some (group0 m) /\
            exists before after, content = before +:+ group0 m +:+ after /\
                                 index m = len before.
Proof.
  unfold test. cbn [findEvidence]. destruct (exec r content) as [m|] eqn:Hm; [|done].
  intros _. exists m. split; [done|]. split; [done|].
  apply execFrom_spec in Hm as [(pre & post & ? & ?) _]. by exists pre, post.
Qed.

(** C6: [findEvidence] looks at the first rule that matches. For a
    literal it returns the text from 20 characters before the literal's
    first occurrence to 20 characters after its end, cut at the ends of
    the text, between two "..." marks; for a regular expression it
    returns the matched substring (group 0) as it is; it returns
    undefined when no rule matches. *)
Theorem findEvidence_first_match (content : string) (rules : list Pattern) :
  (Forall (fun p => matchesPattern content p = false) rules ->
   findEvidence content rules = None) /\
  (forall pre rule post,
     rules = pre ++ rule :: post ->
     Forall (fun p => matchesPattern content p = false) pre ->
     matchesPattern content rule = true ->
     match rule with
     | Lit s =>
         exists before after,
           content = before +:+ s +:+ after /\
           (forall before' after', content = before' +:+ s +:+ after' ->
              (String.length before <= String.length before')%nat) /\
           findEvidence content rules
           = Some ("..." +:+ drop (String.length before - 20) before +:+ s
                         +:+ take 20 after +:+ "...")
     | Re r =>
         exists m, exec r content = Some m /\
                   findEvidence content rules = Some (group0 m) /\
                   exists before after, content = before +:+ group0 m +:+ after /\
                                        index m = len before
     end).
Proof.
  split.
  - induction 1 as [|p rules Hp _ IH]; [done|]. by rewrite findEvidence_skip.
  - intros pre rule post -> Hpre Hrule.
    assert (Hskip : findEvidence content (pre ++ rule :: post)
                    = findEvidence content (rule :: post)).
    { induction Hpre as [|p pre Hp _ IH]; [done|].
      rewrite <- app_comm_cons. by rewrite findEvidence_skip. }
    rewrite Hskip. destruct rule as [s|r].
    + by apply findEvidence_literal.
    + by apply findEvidence_regexp.
Qed.

(** A literal found in the middle of a 40-character text, after a rule
    that does not match: 5 characters before it (the text starts there) and
    20 after it. *)
Lemma findEvidence_first_match_witness :
  exists before after,
    "0123456789012345678901234567890123456789" = before +:+ "5678901234" +:+ after /\
    findEvidence "0123456789012345678901234567890123456789"
      [Lit "zz"; Lit "5678901234"; Lit "0"]
    = Some ("..." +:+ drop (String.length before - 20) before +:+ "5678901234"
                  +:+ take 20 after +:+ "...") /\
    findEvidence "0123456789012345678901234567890123456789"
      [Lit "zz"; Lit "5678901234"; Lit "0"]
    = Some "...01234567890123456789012345678901234...".
Proof.
  destruct (findEvidence_first_match "0123456789012345678901234567890123456789"
              [Lit "zz"; Lit "5678901234"; Lit "0"]) as [_ H].
  destruct (H [Lit "zz"] (Lit "5678901234") [Lit "0"]) as (before & after & Hc & _ & Hr).
  - reflexivity.
  - repeat constructor.
  - vm_compute. reflexivity.
  - exists before, after. split; [exact Hc|]. split; [exact Hr|].
    vm_compute. reflexivity.
Defined.

End Evidence.

(** ** Analytics detection *)

Section Analytics.

Lemma detectAnalyticsPatterns_find html signature patterns :
  detectAnalyticsPatterns html (toLowerCase html) signature patterns =
    match List.find (matchesEitherCase html) patterns with
    | Some p => Some {| da_name := as_name signature;
                        da_type := as_type signature;
                        da_evidence := findEvidence html [p] |}
    | None => None
    end.
Proof.
  induction patterns as [|p patterns IH]; [done|].
  cbn [detectAnalyticsPatterns List.find]. unfold matchesEitherCase at 1.
  by destruct (matchesPattern html p || matchesPattern (toLowerCase html) p).
Qed.

Lemma detectAnalytics_foldl html : forall signatures detected
    (seenNames : gset string) (emitted : list string),
  (forall x, x ∈ seenNames <-> x ∈ emitted) ->
  fst (foldl (detectAnalyticsStep html (toLowerCase html))
             (detected, seenNames) signatures)
  = detected ++ analyticsRun html emitted signatures.
Proof.
  induction signatures as [|s signatures IH]; intros detected seenNames emitted Hseen.
  - simpl. by rewrite app_nil_r.
  - cbn [foldl analyticsRun]. unfold detectAnalyticsStep at 2.
    rewrite detectAnalyticsPatterns_find. fold (analyticsDetection html s).
    case_bool_decide as Hin.
    + rewrite decide_True by (by apply Hseen). by apply IH.
    + rewrite decide_False by (by rewrite <- Hseen).
      destruct (analyticsDetection html s) as [d|]; [|by apply IH].
      rewrite (IH _ _ (as_name s :: emitted)).
      * by rewrite <- app_assoc.
      * intros x. rewrite elem_of_union, elem_of_singleton, elem_of_cons, Hseen.
        done.
Qed.

Lemma analyticsRun_names html : forall signatures emitted,
  NoDup (da_name <$> analyticsRun html emitted signatures) /\
  forall d, d ∈ analyticsRun html emitted signatures ->
    (da_name d ∉ emitted) /\
    exists signature, signature ∈ signatures /\
                      analyticsDetection html signature = Some d.
Proof.
  induction signatures as [|s signatures IH]; intros emitted.
  - split; [constructor|]. intros d H. by apply elem_of_nil in H.
  - cbn [analyticsRun].
    assert (Hweak : forall em,
      (forall d, d ∈ analyticsRun html em signatures ->
         (da_name d ∉ em) /\
         exists signature, signature ∈ signatures /\
                           analyticsDetection html signature = Some d) ->
      forall d, d ∈ analyticsRun html em signatures ->
         (da_name d ∉ em) /\
         exists signature, signature ∈ s :: signatures /\
                           analyticsDetection html signature = Some d).
    { intros em H d Hd. destruct (H d Hd) as (? & sg & ? & ?).
      split; [done|]. exists sg. split; [|done]. apply elem_of_cons. by right. }
    destruct (decide (as_name s ∈ emitted)) as [Hin|Hin].
    { destruct (IH emitted) as [? ?]. split; [done|]. by apply Hweak. }
    destruct (analyticsDetection html s) as [d0|] eqn:Hd0.
    2:{ destruct (IH emitted) as [? ?]. split; [done|]. by apply Hweak. }
    destruct (IH (as_name s :: emitted)) as [Hnd Hel].
    assert (Hname : da_name d0 = as_name s).
    { unfold analyticsDetection in Hd0.
      destruct (List.find _ _); [|done]. by injection Hd0 as <-. }
    split.
    + rewrite fmap_cons. apply NoDup_cons. split; [|done].
      intros Hd. apply list_elem_of_fmap in Hd as (d & Heq & Hd).
      apply Hel in Hd as [Hd _]. apply Hd. rewrite <- Heq, Hname.
      apply elem_of_cons. by left.
    + intros d Hd. apply elem_of_cons in Hd as [->|Hd].
      * split; [by rewrite Hname|]. exists s. split; [|done].
        apply elem_of_cons. by left.
      * destruct (Hweak _ Hel d Hd) as [Hd' ?]. split; [|done].
        intros ?. apply Hd'. apply elem_of_cons. by right.
Qed.

Lemma detectAnalyticsOver_data signatures html :
  isEmptyHtml html = false ->
  detectAnalyticsOver signatures html
  = createResponse (analyticsRun html [] signatures) [].
Proof.
  intros He. unfold detectAnalyticsOver. rewrite He. cbv zeta.
  pose proof (detectAnalytics_foldl html signatures [] ∅ []) as H.
  destruct (foldl _ _ _) as [detected seen]. simpl in H.
  rewrite H; [done|]. intros x. split; intros Hx.
  - by apply not_elem_of_empty in Hx.
  - by apply elem_of_nil in Hx.
Qed.

Lemma analyticsRun_skips html emitted signatures n :
  n ∈ emitted ->
  filter (fun d => da_name d = n) (analyticsRun html emitted signatures) = [].
Proof.
  intros Hn. apply filter_none. apply Forall_forall. intros d Hd Heq.
  apply (analyticsRun_names html signatures emitted) in Hd as [Hd _].
  apply Hd. by rewrite Heq.
Qed.

Lemma analyticsRun_cons html emitted signature signatures :
  analyticsRun html emitted (signature :: signatures) =
    if decide (as_name signature ∈ emitted) then analyticsRun html emitted signatures
    else match analyticsDetection html signature with
         | Some d => d :: analyticsRun html (as_name signature :: emitted) signatures
         | None => analyticsRun html emitted signatures
         end.
Proof. reflexivity. Qed.

Lemma analyticsSignatures_head :
  analyticsSignatures = googleAnalytics :: tail analyticsSignatures.
Proof. reflexivity. Qed.

Lemma googleAnalytics_once html :
  isEmptyHtml html = false ->
  (exists p, p ∈ as_patterns googleAnalytics /\ matchesEitherCase html p = true) ->
  exists p,
    List.find (matchesEitherCase html) (as_patterns googleAnalytics) = Some p /\
    filter (fun d => da_name d = "Google Analytics") (data (detectAnalytics html))
    = [ {| da_name := "Google Analytics";
           da_type := analytics;
           da_evidence := findEvidence html [p] |} ].
Proof.
  intros He (p & Hp & Hm).
  destruct (List.find (matchesEitherCase html) (as_patterns googleAnalytics))
    as [q|] eqn:Hfind.
  2:{ apply list_elem_of_In in Hp.
      pose proof (List.find_none _ _ Hfind p Hp). congruence. }
  exists q. split; [done|].
  unfold detectAnalytics. rewrite detectAnalyticsOver_data by done.
  rewrite analyticsSignatures_head at 1. unfold createResponse, data.
  rewrite analyticsRun_cons.
  rewrite decide_False by (intros H; by apply elem_of_nil in H).
  unfold analyticsDetection. rewrite Hfind.
  rewrite filter_cons_True by reflexivity.
  rewrite analyticsRun_skips; [reflexivity|]. apply elem_of_cons. by left.
Qed.

Lemma execFrom_eq re i before s :
  execFrom re i before s =
    let st := {| prev := before; rest := s; caps := ∅ |} in
    match rmatch (ignoreCase re) (source re) st Some with
    | Some st' => Some {| index := i; group0 := consumed st st'; groups := caps st' |}
    | None =>
        match s with
        | EmptyString => None
        | String c s' => execFrom re (i + 1) (Some c) s'
        end
    end.
Proof. by destruct s. Qed.

(** The search finds a match if the pattern matches after the prefix [a]
    (it may find an earlier one). *)
Lemma execFrom_found re s : forall a i before,
  rmatch (ignoreCase re) (source re)
    {| prev := lastChar before a; rest := s; caps := ∅ |} Some <> None ->
  execFrom re i before (a +:+ s) <> None.
Proof.
  induction a as [|c a IH]; intros i before Hm; rewrite execFrom_eq; cbv zeta.
  - simpl in *. by destruct (rmatch _ _ _ _).
  - destruct (rmatch _ _ {| prev := before; rest := String c a +:+ s; caps := ∅ |} Some);
      [done|].
    simpl. by apply IH.
Qed.

Lemma rmatch_wordB ic r st k :
  rmatch ic (RSeq RWordB r) st k =
    if xorb (wordAt (prev st)) (wordAt (headOf (rest st)))
    then rmatch ic r st k else None.
Proof. reflexivity. Qed.

(** A call of gtag( whose name starts at a word boundary is matched by
    the second matcher of Google Analytics. *)
Lemma gtag_call_matches (a b : string) :
  wordAt (lastChar None a) = false ->
  matchesPattern (a +:+ "gtag(" +:+ b) (R [RWordB; lit "gtag("]) = true.
Proof.
  intros Hb. unfold matchesPattern, R, test, exec.
  destruct (execFrom _ _ _ _) eqn:He; [done|]. exfalso. revert He.
  apply execFrom_found. unfold re, source, ignoreCase, seq, foldr.
  rewrite rmatch_wordB. cbn [prev rest]. rewrite Hb.
  vm_compute. discriminate.
Qed.

Lemma onlyWhiteSpace_app a s : onlyWhiteSpace (a +:+ s) -> onlyWhiteSpace s.
Proof.
  induction a as [|c a IH]; [done|]. simpl.
  intros H. apply onlyWhiteSpace_cons in H as [_ H]. by apply IH.
Qed.

Lemma filter_name_once (l : list DetectedAnalytics) n :
  NoDup (da_name <$> l) ->
  (length (filter (fun d => da_name d = n) l) <= 1)%nat.
Proof.
  induction l as [|d l IH]; [simpl; lia|].
  rewrite fmap_cons. intros Hnd. apply NoDup_cons in Hnd as [Hd Hnd].
  rewrite filter_cons. destruct (decide (da_name d = n)) as [Hn|Hn]; [|by apply IH].
  rewrite filter_none; [simpl; lia|].
  apply Forall_forall. intros d' Hd' Heq. apply Hd. rewrite Hn, <- Heq.
  by apply list_elem_of_fmap_2.
Qed.

(** C7, as amended: on a page that is not empty, [detectAnalytics] goes
    through the signatures in catalog order, skips a name it has already
    emitted, and emits for a signature the detection of its first matcher
    that succeeds on the page or on its lower-case copy; so no name is
    emitted twice. (A [DetectedAnalytics] has the fields name, type and
    evidence only.) There is at most one Google Analytics entry, and
    exactly one on a page on which one of Google Analytics' matchers
    succeeds: so on every page with two gtag('config', ...) calls of which
    one at least has its name gtag starting a word, among them the page
    of the unit test. *)
Theorem detectAnalytics_first_match (signatures : list AnalyticsSignature)
    (html : string) :
  ~ onlyWhiteSpace html ->
  let detected := data (detectAnalyticsOver signatures html) in
  detected = analyticsRun html [] signatures /\
  warnings (detectAnalyticsOver signatures html) = [] /\
  NoDup (da_name <$> detected) /\
  (forall d, d ∈ detected ->
     exists signature p,
       signature ∈ signatures /\
       List.find (matchesEitherCase html) (as_patterns signature) = Some p /\
       d = {| da_name := as_name signature;
              da_type := as_type signature;
              da_evidence := findEvidence html [p] |}) /\
  ((exists p, p ∈ as_patterns googleAnalytics /\ matchesEitherCase html p = true) ->
   length (filter (fun d => da_name d = "Google Analytics")
                  (data (detectAnalytics html))) = 1%nat) /\
  (length (filter (fun d => da_name d = "Google Analytics")
                  (data (detectAnalytics html))) <= 1)%nat /\
  (forall a b c,
     html = a +:+ "gtag('config'" +:+ b +:+ "gtag('config'" +:+ c ->
     wordAt (lastChar None a) = false \/
     wordAt (lastChar None (a +:+ "gtag('config'" +:+ b)) = false ->
     length (filter (fun d => da_name d = "Google Analytics")
                    (data (detectAnalytics html))) = 1%nat) /\
  data (detectAnalytics duplicatePage)
  = [ {| da_name := "Google Analytics";
         da_type := analytics;
         da_evidence := Some "gtag(" |} ].
Proof.
  intros Hne detected.
  assert (He : isEmptyHtml html = false).
  { destruct (isEmptyHtml html) eqn:E; [|done]. by apply isEmptyHtml_spec in E. }
  unfold detected. rewrite detectAnalyticsOver_data by done.
  unfold createResponse. cbn [data warnings].
  split; [done|]. split; [done|].
  destruct (analyticsRun_names html signatures []) as [Hnd Hel].
  split; [done|]. split; [|split; [|split; [|split]]].
  - intros d Hd. apply Hel in Hd as (_ & signature & Hs & Hd).
    unfold analyticsDetection in Hd.
    destruct (List.find _ _) as [p|] eqn:Hp; [|done].
    exists signature, p. split; [done|]. split; [done|]. congruence.
  - intros Hp. destruct (googleAnalytics_once html He Hp) as (p & _ & ->). done.
  - apply filter_name_once. unfold detectAnalytics.
    rewrite detectAnalyticsOver_data by done. unfold createResponse. cbn [data].
    apply (analyticsRun_names html analyticsSignatures []).
  - intros a b c Hhtml Hb.
    destruct (googleAnalytics_once html He) as (p & _ & ->); [|done].
    exists (R [RWordB; lit "gtag("]). split.
    + apply elem_of_cons. right. apply elem_of_cons. by left.
    + unfold matchesEitherCase. rewrite Hhtml. destruct Hb as [Hb|Hb].
      * change ("gtag('config'" +:+ b +:+ "gtag('config'" +:+ c)
          with ("gtag(" +:+ "'config'" +:+ b +:+ "gtag('config'" +:+ c).
        by rewrite gtag_call_matches.
      * replace (a +:+ "gtag('config'" +:+ b +:+ "gtag('config'" +:+ c)
          with ((a +:+ "gtag('config'" +:+ b) +:+ "gtag(" +:+ "'config'" +:+ c)
          by (by rewrite !app_assoc_s).
        by rewrite gtag_call_matches.
  - vm_compute. reflexivity.
Qed.

Lemma detectAnalytics_first_match_counterexample :
  ~ onlyWhiteSpace underscoredPage /\
  underscoredPage
  = "_" +:+ "gtag('config'" +:+ ", 'G-1'); _" +:+ "gtag('config'" +:+ ", 'G-2');" /\
  data (detectAnalytics underscoredPage) = [] /\
  length (filter (fun d => da_name d = "Google Analytics")
                 (data (detectAnalytics underscoredPage))) <> 1%nat.
Proof.
  split; [|split; [reflexivity|]].
  - intros H. specialize (H O "_"%char eq_refl). vm_compute in H. discriminate.
  - assert (Hd : data (detectAnalytics underscoredPage) = [])
      by (vm_compute; reflexivity).
    split; [exact Hd|]. rewrite Hd. simpl. lia.
Qed.

Lemma detectAnalytics_first_match_witness :
  data (detectAnalytics "<script>fbq('track', 'PageView');</script>")
  = [ {| da_name := "Facebook Pixel";
         da_type := marketing;
         da_evidence := Some "fbq(" |} ].
Proof.
  assert (Hne : ~ onlyWhiteSpace "<script>fbq('track', 'PageView');</script>").
  { intros H. specialize (H O "<"%char eq_refl). vm_compute in H. discriminate. }
  destruct (detectAnalytics_first_match analyticsSignatures _ Hne) as [H _].
  unfold detectAnalytics. rewrite H. vm_compute. reflexivity.
Defined.

(** C10: a detection whose matcher succeeds only on the lower-case copy
    of the page is emitted with undefined evidence, because the evidence
    is looked for in the original page; the page "GA.JS" is such a case. *)
Theorem detectAnalytics_evidence_undefined :
  (forall html signature p,
     List.find (matchesEitherCase html) (as_patterns signature) = Some p ->
     matchesPattern html p = false ->
     matchesPattern (toLowerCase html) p = true /\
     analyticsDetection html signature
     = Some {| da_name := as_name signature;
               da_type := as_type signature;
               da_evidence := None |}) /\
  exists html,
    data (detectAnalytics html)
    = [ {| da_name := "Google Analytics";
           da_type := analytics;
           da_evidence := None |} ].
Proof.
  split.
  - intros html signature p Hfind Hp.
    apply List.find_some in Hfind as Hm. destruct Hm as [_ Hm].
    unfold matchesEitherCase in Hm. rewrite Hp in Hm. simpl in Hm.
    split; [done|]. unfold analyticsDetection. rewrite Hfind.
    by rewrite findEvidence_skip.
  - exists "GA.JS". vm_compute. reflexivity.
Qed.

End Analytics.

(** ** Which duplicate is kept, and where *)

Section DedupOrder.

Lemma replaces_quality a b : replaces a b = true <-> quality b < quality a.
Proof.
  unfold replaces, quality.
  rewrite orb_true_iff, !andb_true_iff, Z.ltb_lt, Z.eqb_eq, negb_true_iff.
  destruct (truthy (version a)), (truthy (version b)); split; intros H;
    try lia; try (destruct H as [H|[[H ?] ?]]; (done || lia)).
Qed.

Lemma firstBest_snoc seen e t :
  firstBest seen e -> (name t = name e -> quality e <= quality t) ->
  firstBest (seen ++ [t]) e.
Proof.
  intros (l1 & l2 & -> & H1 & H2) Ht. exists l1, (l2 ++ [t]). split; [|split].
  - by rewrite <- app_assoc.
  - done.
  - intros u Hu Hn. apply elem_of_app in Hu as [Hu|Hu]; [by apply H2|].
    apply list_elem_of_singleton in Hu as ->. by apply Ht.
Qed.

Lemma firstBest_elem seen e t :
  firstBest seen e -> t ∈ seen -> name t = name e -> quality e <= quality t.
Proof.
  intros (l1 & l2 & -> & H1 & H2) Ht Hn.
  apply elem_of_app in Ht as [Ht|Ht]; [specialize (H1 t Ht Hn); lia|].
  apply elem_of_cons in Ht as [->|Ht]; [lia|]. by apply H2.
Qed.

Lemma firstBest_step m seen tech :
  (forall k e, JsMap.get m k = Some e -> name e = k /\ firstBest seen e) ->
  (forall t, t ∈ seen -> is_Some (JsMap.get m (name t))) ->
  (forall k e, JsMap.get (deduplicateStep m tech) k = Some e ->
     name e = k /\ firstBest (seen ++ [tech]) e) /\
  (forall t, t ∈ seen ++ [tech] ->
     is_Some (JsMap.get (deduplicateStep m tech) (name t))).
Proof.
  intros Hget Hseen. rewrite deduplicateStep_cases.
  assert (Hlast : forall q, (forall t, t ∈ seen -> name t = name tech -> q t) ->
            exists l1 l2, seen ++ [tech] = l1 ++ tech :: l2 /\
              (forall t, t ∈ l1 -> name t = name tech -> q t) /\
              (forall t, t ∈ l2 -> name t = name tech -> quality tech <= quality t)).
  { intros q Hq. exists seen, []. split; [done|]. split; [done|].
    intros t Ht. by apply elem_of_nil in Ht. }
  assert (Hset : (forall t, t ∈ seen -> name t = name tech -> quality tech < quality t) ->
    (forall k e, JsMap.get (JsMap.set m (name tech) tech) k = Some e ->
       name e = k /\ firstBest (seen ++ [tech]) e) /\
    (forall t, t ∈ seen ++ [tech] ->
       is_Some (JsMap.get (JsMap.set m (name tech) tech) (name t)))).
  { intros Hbeats. split.
    - intros k e. rewrite get_set.
      destruct (String.eqb_spec (name tech) k) as [<-|Hne].
      + intros [= <-]. split; [done|]. by apply (Hlast (fun t => quality tech < quality t)).
      + intros He. destruct (Hget _ _ He) as [Hk Hfb]. split; [done|].
        apply firstBest_snoc; [done|]. congruence.
    - intros t Ht. rewrite get_set.
      destruct (String.eqb_spec (name tech) (name t)); [by eexists|].
      apply elem_of_app in Ht as [Ht|Ht]; [by apply Hseen|].
      apply list_elem_of_singleton in Ht as ->. done. }
  destruct (JsMap.get m (name tech)) as [existing|] eqn:Hex.
  - destruct (Hget _ _ Hex) as [Hname Hfb].
    destruct (replaces existing tech) eqn:Hrep.
    + apply Hset. apply replaces_quality in Hrep. intros t Ht Hn.
      pose proof (firstBest_elem seen existing t Hfb Ht). 
      assert (quality existing <= quality t) by (apply H; congruence). lia.
    + assert (Hq : quality existing <= quality tech).
      { destruct (Z.lt_ge_cases (quality tech) (quality existing)) as [Hlt|]; [|done].
        apply replaces_quality in Hlt. congruence. }
      split.
      * intros k e He. destruct (Hget _ _ He) as [Hk Hfb']. split; [done|].
        apply firstBest_snoc; [done|]. intros Hn.
        assert (e = existing) as -> by (rewrite Hn, Hk in Hex; congruence).
        done.
      * intros t Ht. apply elem_of_app in Ht as [Ht|Ht]; [by apply Hseen|].
        apply list_elem_of_singleton in Ht as ->. by rewrite Hex.
  - apply Hset. intros t Ht Hn. apply Hseen in Ht as [e He].
    rewrite Hn in He. congruence.
Qed.

Lemma firstBest_foldl l : forall m seen,
  (forall k e, JsMap.get m k = Some e -> name e = k /\ firstBest seen e) ->
  (forall t, t ∈ seen -> is_Some (JsMap.get m (name t))) ->
  forall k e, JsMap.get (foldl deduplicateStep m l) k = Some e ->
    name e = k /\ firstBest (seen ++ l) e.
Proof.
  induction l as [|t l IH]; intros m seen Hget Hseen; simpl.
  - by rewrite app_nil_r.
  - destruct (firstBest_step m seen t Hget Hseen) as [Hget' Hseen'].
    replace (seen ++ t :: l) with ((seen ++ [t]) ++ l) by (by rewrite <- app_assoc).
    by apply IH.
Qed.

(** X1: of several entries with one name, deduplication keeps the first
    one that no other beats: every earlier entry of that name is strictly
    worse (lower confidence, or the same confidence and no version where
    the kept one has one), and no later one is better. *)
Theorem deduplicate_keeps_first_best (technologies : list DetectedTechnology) e :
  e ∈ deduplicateTechnologies technologies ->
  exists earlier later,
    technologies = earlier ++ e :: later /\
    (forall t, t ∈ earlier -> name t = name e -> quality e < quality t) /\
    (forall t, t ∈ later -> name t = name e -> quality e <= quality t).
Proof.
  intros He. apply deduplicate_elem in He.
  apply (firstBest_foldl technologies [] []) in He as [_ H]; [done| |].
  - intros k e' H. done.
  - intros t Ht. by apply elem_of_nil in Ht.
Qed.

(** Three React entries of the same confidence, two of them with a
    version: the first of the two is kept. *)
Lemma deduplicate_keeps_first_best_witness :
  let a := {| name := "React"; version := None; confidence := high;
              category := frontend_framework; evidence := Some "a" |} in
  let b := {| name := "React"; version := Some "18.2.0"; confidence := high;
              category := frontend_framework; evidence := Some "b" |} in
  let c := {| name := "React"; version := Some "17.0.0"; confidence := high;
              category := frontend_framework; evidence := Some "c" |} in
  deduplicateTechnologies [a; b; c] = [b] /\
  exists earlier later, [a; b; c] = earlier ++ b :: later.
Proof.
  intros a b c. split; [reflexivity|].
  destruct (deduplicate_keeps_first_best [a; b; c] b) as (l1 & l2 & H & _).
  - vm_compute. apply elem_of_cons. by left.
  - by exists l1, l2.
Defined.

Lemma foldl_names l :
  (forall n, n ∈ fst <$> foldl deduplicateStep [] l <-> n ∈ name <$> l).
Proof.
  intros n. pose proof (dedupInv_final l) as (Hnd & Hget & Hseen). split.
  - intros Hn. apply list_elem_of_fmap in Hn as ([k e] & -> & Hin). simpl.
    apply (get_elem _ _ _ Hnd) in Hin. destruct (Hget _ _ Hin) as [<- He].
    by apply list_elem_of_fmap_2.
  - intros Hn. apply list_elem_of_fmap in Hn as (t & -> & Ht).
    destruct (Hseen t Ht) as (e & He & _). apply get_Some in He.
    apply list_elem_of_fmap. by exists (name t, e).
Qed.

(** X2: the kept entries stand in the order in which their names first
    occur: one more entry at the end adds its name at the end if the name
    is new, and otherwise leaves the order of the names as it is (even when
    the new entry replaces the kept one). *)
Theorem deduplicate_order (technologies : list DetectedTechnology) t :
  name <$> deduplicateTechnologies (technologies ++ [t]) =
    if decide (name t ∈ name <$> technologies)
    then name <$> deduplicateTechnologies technologies
    else (name <$> deduplicateTechnologies technologies) ++ [name t].
Proof.
  unfold deduplicateTechnologies.
  rewrite (values_names _ _ (dedupInv_final (technologies ++ [t]))).
  rewrite (values_names _ _ (dedupInv_final technologies)).
  rewrite foldl_snoc, deduplicateStep_cases.
  set (m := foldl deduplicateStep [] technologies).
  destruct (JsMap.get m (name t)) as [existing|] eqn:Hex.
  - rewrite decide_True.
    + destruct (replaces existing t); [|done]. by rewrite keys_set, Hex.
    + apply foldl_names. apply get_Some in Hex.
      apply list_elem_of_fmap. by exists (name t, existing).
  - rewrite decide_False.
    + by rewrite keys_set, Hex.
    + intros Hin. apply foldl_names in Hin. by apply get_None in Hex.
Qed.

End DedupOrder.

(** ** Where evidence and versions come from *)

(** Whatever the matcher reaches, it reaches through its continuation: a
    relation that holds along every single step holds between the state a
    pattern starts on and the state its continuation is entered on. *)
Section Continuation.

Variable R : MState -> MState -> Prop.
Hypothesis R_refl : forall st, R st st.
Hypothesis R_trans : forall st1 st2 st3, R st1 st2 -> R st2 st3 -> R st1 st3.
Hypothesis R_step : forall st c s',
  rest st = String c s' -> R st {| prev := Some c; rest := s'; caps := caps st |}.
Hypothesis R_clear : forall gs st, R st (clearCaps gs st).
Hypothesis R_group : forall i st st1,
  R st st1 -> R st (setCap i (consumed st st1) st1).

Lemma step_reaches (p : ascii -> bool) st k res :
  step p st k = Some res -> exists st', k st' = Some res /\ R st st'.
Proof.
  unfold step. destruct (rest st) as [|c s'] eqn:Hr; [done|].
  destruct (p c); [|done]. intros Hk. eexists. split; [exact Hk|]. by apply R_step.
Qed.

Lemma repeat_reaches (body : MState -> Cont -> option MState) gs :
  (forall k st res, body st k = Some res -> exists st', k st' = Some res /\ R st st') ->
  forall n k st res,
    repeat body gs k n st = Some res -> exists st', k st' = Some res /\ R st st'.
Proof.
  intros Hbody. induction n as [|n IH]; intros k st res; simpl.
  - intros Hk. by exists st.
  - destruct (body (clearCaps gs st) _) as [res'|] eqn:Hb.
    + intros [= ->]. apply Hbody in Hb as (st1 & Hk1 & H1).
      destruct (remaining st1 <? remaining st)%nat; [|done].
      apply IH in Hk1 as (st' & Hk & H2).
      exists st'. split; [done|]. eauto.
    + intros Hk. by exists st.
Qed.

Lemma rmatch_reaches ic r : forall k st res,
  rmatch ic r st k = Some res -> exists st', k st' = Some res /\ R st st'.
Proof.
  induction r as [| a | | negated items | | r1 IH1 r2 IH2 | r1 IH1 r2 IH2
                  | r1 IH1 | r1 IH1 | r1 IH1 | i r1 IH1];
    intros k st res; simpl.
  - intros Hk. by exists st.
  - apply step_reaches.
  - apply step_reaches.
  - apply step_reaches.
  - destruct (xorb _ _); [|done]. intros Hk. by exists st.
  - intros H. apply IH1 in H as (st1 & H & H1). apply IH2 in H as (st2 & Hk & H2).
    exists st2. eauto.
  - destruct (rmatch ic r1 st k) as [res'|] eqn:H1.
    + intros [= ->]. by apply IH1.
    + by apply IH2.
  - by apply repeat_reaches.
  - intros H. apply IH1 in H as (st1 & H & H1).
    apply (repeat_reaches _ _ IH1) in H as (st' & Hk & H2).
    exists st'. eauto.
  - destruct (rmatch ic r1 (clearCaps (groupsOf r1) st) _) as [res'|] eqn:H1.
    + intros [= ->]. apply IH1 in H1 as (st1 & Hk & H1).
      destruct (remaining st1 <? remaining st)%nat; [|done].
      exists st1. eauto.
    + intros Hk. by exists st.
  - intros H. apply IH1 in H as (st1 & Hk & H1).
    exists (setCap i (consumed st st1) st1). split; [done|].
    apply R_group. done.
Qed.

End Continuation.

Section Provenance.

Lemma substringOf_refl_app a v b : substringOf v (a +:+ v +:+ b).
Proof. by exists a, b. Qed.

Lemma within_reaches text ic r k st res :
  rmatch ic r st k = Some res -> exists st', k st' = Some res /\ within text st st'.
Proof.
  apply rmatch_reaches.
  - intros st0. split; [by exists ""|done].
  - intros st1 st2 st3 [Hs1 Hc1] [Hs2 Hc2]. split; [by eapply suffix_trans|].
    intros [a Ha] Hcaps. apply Hc2; [|by apply Hc1; [exists a|]].
    destruct Hs1 as [w Hw]. exists (a +:+ w). by rewrite Ha, Hw, app_assoc_s.
  - intros st0 c s' Hr. split; [exists (String c ""); by rewrite Hr|]. done.
  - intros gs st0. split; [by exists ""|].
    intros _ Hcaps i v. unfold clearCaps. simpl.
    induction gs as [|g gs IH]; simpl; [apply Hcaps|].
    destruct (decide (g = i)) as [->|Hne].
    + by rewrite lookup_delete_eq.
    + by rewrite lookup_delete_ne.
  - intros i st0 st1 [[w Hw] Hc]. split; [by exists w|].
    intros [a Ha] Hcaps j v. unfold setCap. simpl.
    destruct (decide (i = j)) as [->|Hne].
    + rewrite lookup_insert_eq. intros [= <-].
      destruct (suffix_remaining _ _ _ Hw) as [_ ->].
      exists a, (rest st1). by rewrite Ha, Hw.
    + rewrite lookup_insert_ne by done. apply Hc; [by exists a|done].
Qed.

Lemma execFrom_within (re : RegExp) text : forall s i before m,
  (exists a, text = a +:+ s) ->
  execFrom re i before s = Some m ->
  forall j v, groups m !! j = Some v -> substringOf v text.
Proof.
  assert (Hhere : forall s before st',
    (exists a, text = a +:+ s) ->
    rmatch (ignoreCase re) (source re)
      {| prev := before; rest := s; caps := ∅ |} Some = Some st' ->
    capsWithin text st').
  { intros s before st' Ha Hm.
    apply (within_reaches text) in Hm as (st & [= ->] & _ & Hc).
    apply Hc; [done|]. intros j v. simpl. by rewrite lookup_empty. }
  induction s as [|c s IH]; intros i before m Ha; simpl.
  - destruct (rmatch _ _ _ _) as [st'|] eqn:Hm; [|done].
    intros [= <-] j v Hv. exact (Hhere "" before st' Ha Hm j v Hv).
  - destruct (rmatch _ _ _ _) as [st'|] eqn:Hm.
    + intros [= <-] j v Hv. exact (Hhere (String c s) before st' Ha Hm j v Hv).
    + apply IH. destruct Ha as [a ->]. exists (a +:+ String c "").
      by rewrite app_assoc_s.
Qed.

Lemma extractVersion_within html vp v :
  extractVersion html vp = Some v -> substringOf v html.
Proof.
  unfold extractVersion. destruct vp as [vp|]; [|done].
  destruct (exec vp html) as [m|] eqn:Hm; [|done].
  intros Hv. apply (execFrom_within vp html html 0 None m) with (j := 1%nat);
    [by exists ""|done|done].
Qed.

Lemma execFrom_group0 (re : RegExp) : forall s i before m,
  consumes (source re) = true ->
  execFrom re i before s = Some m -> group0 m <> "".
Proof.
  assert (Hhere : forall s before st',
    consumes (source re) = true ->
    rmatch (ignoreCase re) (source re)
      {| prev := before; rest := s; caps := ∅ |} Some = Some st' ->
    consumed {| prev := before; rest := s; caps := ∅ |} st' <> "").
  { intros s before st' Hc Hm.
    apply rmatch_follows in Hm as (st & [= ->] & [w Hw] & Hlt & _).
    specialize (Hlt Hc). unfold consumed.
    apply take_nonempty; unfold remaining in *; simpl in *; lia. }
  induction s as [|c s IH]; intros i before m Hc; simpl.
  - destruct (rmatch _ _ _ _) as [st'|] eqn:Hm; [|done].
    intros [= <-]. by apply Hhere.
  - destruct (rmatch _ _ _ _) as [st'|] eqn:Hm.
    + intros [= <-]. by apply Hhere.
    + by apply IH.
Qed.

Lemma findEvidence_regex_piece content patterns e :
  Forall (fun p => regexConsumes p = true) patterns ->
  findEvidence content patterns = Some e ->
  e <> "" /\ substringOf e content.
Proof.
  induction 1 as [|p ps Hp _ IH]; [done|].
  destruct p as [s|r]; [done|]. cbn [findEvidence]. simpl in Hp.
  destruct (exec r content) as [m|] eqn:Hm; [|done].
  intros [= <-]. split.
  - by apply (execFrom_group0 r content 0 None).
  - apply execFrom_spec in Hm as [(pre & post & ? & _) _]. by exists pre, post.
Qed.

Lemma findEvidence_defined content p ps :
  matchesPattern content p = true -> findEvidence content (p :: ps) <> None.
Proof.
  destruct p as [s|r]; simpl matchesPattern; intros Hm.
  - destruct (findEvidence_literal content s ps Hm) as (? & ? & _ & _ & ->). done.
  - destruct (findEvidence_regexp content r ps Hm) as (? & _ & -> & _). done.
Qed.

Lemma frameworkPatterns_consume :
  Forall (fun s => Forall (fun p => regexConsumes p = true) (sp_patterns s))
         frameworkSignatures.
Proof. repeat constructor. Qed.

Lemma analyticsPatterns_consume :
  Forall (fun s => Forall (fun p => regexConsumes p = true) (as_patterns s))
         analyticsSignatures.
Proof. repeat constructor. Qed.

Lemma deduplicate_subset l e : e ∈ deduplicateTechnologies l -> e ∈ l.
Proof.
  intros He. apply deduplicate_elem in He.
  pose proof (dedupInv_final l) as (_ & Hget & _). by apply Hget in He as [_ ?].
Qed.

Lemma detectFrameworks_elem html headers t :
  t ∈ data (detectFrameworks html headers) ->
  t ∈ detectFromHtml html \/ exists hs, headers = Some hs /\ t ∈ detectFromHeaders hs.
Proof.
  rewrite detectFrameworks_data, sort_perm. intros Ht.
  apply deduplicate_subset in Ht. by apply collectTechnologies_elem.
Qed.

Lemma detectFromHtml_elem html t :
  t ∈ detectFromHtml html ->
  exists signature, signature ∈ frameworkSignatures /\ detectSignature html signature = [t].
Proof.
  rewrite detectFromHtml_concat. intros Ht.
  apply list_elem_of_join in Ht as (l & Ht & Hl).
  apply list_elem_of_fmap in Hl as (signature & -> & Hs).
  exists signature. split; [done|]. revert Ht. unfold detectSignature.
  destruct (countMatches html (sp_patterns signature)) as [c ps].
  destruct (0 <? c); intros Ht; [|by apply elem_of_nil in Ht].
  by apply list_elem_of_singleton in Ht as ->.
Qed.

Lemma headerNames_nonempty :
  Forall (fun s => hs_header s <> "") headerSignatures.
Proof. repeat constructor; discriminate. Qed.

(** X3: every technology that [detectFrameworks] returns comes with
    evidence, which is not empty and is either a piece of the page as it
    stands or, for a header detection, the header's name, a colon and a
    space, and its value. *)
Theorem detectFrameworks_evidence html headers t :
  t ∈ data (detectFrameworks html headers) ->
  exists e, evidence t = Some e /\ e <> "" /\
    (substringOf e html \/
     exists signature headerValue hs,
       signature ∈ headerSignatures /\ headers = Some hs /\
       headerValueOf hs (toLowerCase (hs_header signature)) = Some headerValue /\
       e = hs_header signature +:+ ": " +:+ headerValue).
Proof.
  intros Ht. apply detectFrameworks_elem in Ht as [Ht|(hs & -> & Ht)].
  - apply detectFromHtml_elem in Ht as (signature & Hs & Ht).
    pose proof frameworkPatterns_consume as Hall. rewrite Forall_forall in Hall.
    specialize (Hall _ Hs).
    unfold detectSignature in Ht. rewrite countMatches_spec in Ht.
    destruct (0 <? matchedCount html (sp_patterns signature)) eqn:Hpos; [|done].
    injection Ht as <-. cbn [evidence].
    set (matched := filter (fun p => matchesPattern html p = true) (sp_patterns signature)).
    assert (Hm : Forall (fun p => regexConsumes p = true) matched).
    { apply Forall_forall. intros p Hp. apply list_elem_of_filter in Hp as [_ Hp].
      rewrite Forall_forall in Hall. by apply Hall. }
    destruct (findEvidence html matched) as [e|] eqn:He.
    + exists e. split; [done|].
      destruct (findEvidence_regex_piece html matched e Hm He). split; [done|]. by left.
    + exfalso. destruct matched as [|p ps] eqn:Hmatched.
      * unfold matchedCount in Hpos. fold matched in Hpos.
        rewrite Hmatched in Hpos. done.
      * assert (Hp : p ∈ matched) by (rewrite Hmatched; apply elem_of_cons; by left).
        apply list_elem_of_filter in Hp as [Hp _].
        by apply (findEvidence_defined html p ps).
  - rewrite detectFromHeaders_spec in Ht.
    apply list_elem_of_join in Ht as (l & Ht & Hl).
    apply list_elem_of_fmap in Hl as (signature & -> & Hs).
    apply headerDetection_shape in Ht as (_ & _ & v & Hv & He).
    exists (hs_header signature +:+ ": " +:+ v). split; [done|]. split.
    + pose proof headerNames_nonempty as Hn. rewrite Forall_forall in Hn.
      specialize (Hn _ Hs). destruct (hs_header signature); done.
    + right. by exists signature, v, hs.
Qed.

Lemma detectFrameworks_evidence_witness :
  exists e,
    Some "x-powered-by: Express" = Some e /\ e <> "".
Proof.
  destruct (detectFrameworks_evidence "" (Some [("X-Powered-By", "Express")])
              {| name := "Express"; version := None; confidence := high;
                 category := backend_framework;
                 evidence := Some "x-powered-by: Express" |})
    as (e & He & Hne & _).
  - vm_compute. apply elem_of_cons. by left.
  - exists e. split; [exact He|exact Hne].
Defined.

(** X4: a version that [detectFrameworks] reports is not empty and is a
    piece of the page as it stands. *)
Theorem detectFrameworks_version html headers t v :
  t ∈ data (detectFrameworks html headers) ->
  version t = Some v ->
  v <> "" /\ substringOf v html.
Proof.
  intros Ht Hv. apply detectFrameworks_elem in Ht as [Ht|(hs & -> & Ht)].
  - apply detectFromHtml_elem in Ht as (signature & Hs & Ht).
    split.
    + intros ->. apply (detectSignature_version html signature t Hs); [|done].
      rewrite Ht. apply elem_of_cons. by left.
    + unfold detectSignature in Ht.
      destruct (countMatches html (sp_patterns signature)) as [c ps].
      destruct (0 <? c); [|done]. injection Ht as <-. simpl in Hv.
      by apply (extractVersion_within html (sp_versionPattern signature)).
  - apply detectFromHeaders_shape in Ht as [_ Hnone]. congruence.
Qed.

Lemma detectFrameworks_version_witness :
  "17.0.0" <> "" /\
  substringOf "17.0.0" ("<html ng-version=" +:+ String dquote "17.0.0" +:+ String dquote ">").
Proof.
  apply (detectFrameworks_version
           ("<html ng-version=" +:+ String dquote "17.0.0" +:+ String dquote ">") None
           {| name := "Angular"; version := Some "17.0.0"; confidence := low;
              category := frontend_framework; evidence := Some "ng-version" |}).
  - vm_compute. apply elem_of_cons. by left.
  - reflexivity.
Defined.

Lemma detectAnalyticsOver_elem signatures html d :
  d ∈ data (detectAnalyticsOver signatures html) ->
  exists signature, signature ∈ signatures /\
                    analyticsDetection html signature = Some d.
Proof.
  intros Hd. destruct (isEmptyHtml html) eqn:Hempty.
  { unfold detectAnalyticsOver in Hd. rewrite Hempty in Hd. by apply elem_of_nil in Hd. }
  rewrite detectAnalyticsOver_data in Hd by done.
  unfold createResponse in Hd. cbn [data] in Hd.
  by apply analyticsRun_names in Hd as (_ & H).
Qed.

Lemma analyticsDetection_evidence html signature d :
  analyticsDetection html signature = Some d ->
  exists p, p ∈ as_patterns signature /\ da_evidence d = findEvidence html [p].
Proof.
  unfold analyticsDetection.
  destruct (List.find _ _) as [p|] eqn:Hp; [|done]. intros [= <-].
  apply List.find_some in Hp as [Hp _]. apply list_elem_of_In in Hp.
  by exists p.
Qed.

(** X5: the evidence of an analytics detection, when there is one, is not
    empty and is a piece of the page as it stands. *)
Theorem detectAnalytics_evidence html d e :
  d ∈ data (detectAnalytics html) ->
  da_evidence d = Some e ->
  e <> "" /\ substringOf e html.
Proof.
  intros Hd He.
  apply detectAnalyticsOver_elem in Hd as (signature & Hs & Hd).
  apply analyticsDetection_evidence in Hd as (p & Hp & Hd).
  pose proof analyticsPatterns_consume as Hall. rewrite Forall_forall in Hall.
  specialize (Hall _ Hs). rewrite Forall_forall in Hall.
  rewrite He in Hd. symmetry in Hd.
  apply (findEvidence_regex_piece html [p]); [|done].
  constructor; [by apply Hall|constructor].
Qed.

Lemma detectAnalytics_evidence_witness :
  "fbq(" <> "" /\ substringOf "fbq(" "<script>fbq('track', 'PageView');</script>".
Proof.
  apply (detectAnalytics_evidence "<script>fbq('track', 'PageView');</script>"
           {| da_name := "Facebook Pixel"; da_type := marketing;
              da_evidence := Some "fbq(" |}).
  - vm_compute. apply elem_of_cons. by left.
  - reflexivity.
Defined.

End Provenance.

(** ** The HTML pass and the confidence it assigns *)

Section HtmlPass.

Lemma detectSignature_sublist html signatures :
  (fun t => (name t, category t)) <$> mjoin (detectSignature html <$> signatures)
  `sublist_of` (fun s => (sp_name s, sp_category s)) <$> signatures.
Proof.
  induction signatures as [|s signatures IH]; [constructor|].
  change (mjoin (detectSignature html <$> s :: signatures))
    with (detectSignature html s ++ mjoin (detectSignature html <$> signatures)).
  rewrite fmap_app, fmap_cons. unfold detectSignature at 1.
  destruct (countMatches html (sp_patterns s)) as [c ps].
  destruct (0 <? c); simpl.
  - by constructor.
  - by apply sublist_cons.
Qed.

Lemma frameworkNames_NoDup : NoDup (sp_name <$> frameworkSignatures).
Proof. refine (bool_decide_unpack _ _). vm_compute. exact I. Qed.

(** X6: the HTML pass reports its technologies in catalog order, at most
    one for each signature and under that signature's name and category;
    so no name occurs twice and there are at most as many as signatures. *)
Theorem detectFromHtml_catalog_order html :
  (fun t => (name t, category t)) <$> detectFromHtml html
  `sublist_of` (fun s => (sp_name s, sp_category s)) <$> frameworkSignatures /\
  NoDup (name <$> detectFromHtml html) /\
  (length (detectFromHtml html) <= length frameworkSignatures)%nat.
Proof.
  rewrite detectFromHtml_concat.
  pose proof (detectSignature_sublist html frameworkSignatures) as Hsub.
  split; [done|]. split.
  - apply (sublist_NoDup _ (sp_name <$> frameworkSignatures)); [apply frameworkNames_NoDup|].
    apply (fmap_sublist fst) in Hsub. rewrite <- !list_fmap_compose in Hsub. done.
  - apply sublist_length in Hsub. by rewrite !length_fmap in Hsub.
Qed.

(** X7: in closed form, for [1 <= matchCount <= totalPatterns]: one match
    out of five or more patterns is low; one out of three or four, or two
    out of five or more, is medium; everything else is high. *)
Theorem calculateConfidence_closed_form (matchCount totalPatterns : Z) :
  1 <= matchCount <= totalPatterns ->
  (calculateConfidence matchCount totalPatterns = low
   <-> matchCount = 1 /\ 5 <= totalPatterns) /\
  (calculateConfidence matchCount totalPatterns = medium
   <-> (matchCount = 1 /\ 3 <= totalPatterns <= 4)
       \/ (matchCount = 2 /\ 5 <= totalPatterns)) /\
  (calculateConfidence matchCount totalPatterns = high
   <-> 3 <= matchCount \/ totalPatterns <= 2 * matchCount).
Proof.
  intros H. rewrite calculateConfidence_cross by lia.
  destruct (totalPatterns <=? 2 * matchCount) eqn:E1;
    destruct (3 <=? matchCount) eqn:E2;
    destruct (totalPatterns <=? 4 * matchCount) eqn:E3;
    destruct (2 <=? matchCount) eqn:E4; simpl;
    repeat split; intros; try discriminate; try lia.
Qed.

Lemma calculateConfidence_closed_form_witness :
  calculateConfidence 1 6 = low <-> 1 = 1 /\ 5 <= 6.
Proof.
  destruct (calculateConfidence_closed_form 1 6) as [H _]; [lia|exact H].
Defined.

Lemma calculateConfidence_low_long (matchCount totalPatterns : Z) :
  1 <= matchCount <= totalPatterns ->
  calculateConfidence matchCount totalPatterns = low -> 5 <= totalPatterns.
Proof.
  intros H. rewrite calculateConfidence_cross by lia.
  destruct (totalPatterns <=? 2 * matchCount) eqn:E1; [done|].
  destruct (3 <=? matchCount) eqn:E2; [done|].
  destruct (totalPatterns <=? 4 * matchCount) eqn:E3;
    destruct (2 <=? matchCount) eqn:E4; simpl; try done.
  intros _. lia.
Qed.

Lemma longSignatures :
  Forall (fun s => (5 <= length (sp_patterns s))%nat ->
                   sp_name s ∈ ["React"; "Vue.js"; "Angular"])
         frameworkSignatures.
Proof.
  repeat (constructor; [simpl; intros; first [lia | set_solver]|]). constructor.
Qed.

(** X8: with the shipped catalog a technology is reported with confidence
    low only if it is React, Vue.js or Angular, the three signatures with
    five or more patterns. *)
Theorem detectFrameworks_low html headers t :
  t ∈ data (detectFrameworks html headers) ->
  confidence t = low ->
  name t ∈ ["React"; "Vue.js"; "Angular"].
Proof.
  intros Ht Hlow. apply detectFrameworks_elem in Ht as [Ht|(hs & -> & Ht)].
  - apply detectFromHtml_elem in Ht as (signature & Hs & Ht).
    pose proof longSignatures as Hall. rewrite Forall_forall in Hall.
    specialize (Hall _ Hs).
    unfold detectSignature in Ht. rewrite countMatches_spec in Ht.
    pose proof (matchedCount_le html (sp_patterns signature)) as Hle.
    destruct (0 <? matchedCount html (sp_patterns signature)) eqn:Hpos; [|done].
    apply Z.ltb_lt in Hpos. injection Ht as <-. simpl in *.
    apply calculateConfidence_low_long in Hlow; [|lia].
    apply Hall. lia.
  - apply detectFromHeaders_shape in Ht as [Hhigh _]. congruence.
Qed.

Lemma detectFrameworks_low_witness :
  "Angular" ∈ ["React"; "Vue.js"; "Angular"].
Proof.
  apply (detectFrameworks_low "<body ng-app>" None
           {| name := "Angular"; version := None; confidence := low;
              category := frontend_framework; evidence := Some "ng-app" |}).
  - vm_compute. apply elem_of_cons. by left.
  - reflexivity.
Defined.

End HtmlPass.

(** ** Header names are matched without regard to case *)

Section HeaderCase.

Lemma lowerChar_idem c : lowerChar (lowerChar c) = lowerChar c.
Proof. destruct c as [[] [] [] [] [] [] [] []]; reflexivity. Qed.

Lemma toLowerCase_idem s : toLowerCase (toLowerCase s) = toLowerCase s.
Proof. induction s as [|c s IH]; simpl; [done|]. by rewrite lowerChar_idem, IH. Qed.

Lemma normalizeHeaders_rename (f : string -> string) hs :
  (forall k, toLowerCase (f k) = toLowerCase k) ->
  normalizeHeaders ((fun kv => (f (fst kv), snd kv)) <$> hs) = normalizeHeaders hs.
Proof.
  intros Hf. unfold normalizeHeaders. generalize (∅ : gmap string string).
  induction hs as [|[k v] hs IH]; intros m; simpl; [done|].
  by rewrite Hf, IH.
Qed.

(** X9: header detection does not depend on the case of the header
    names: renaming the headers in any way that keeps their lower-case
    form gives the same detections. *)
Theorem detectFromHeaders_case (f : string -> string) (headers : list (string * string)) :
  (forall k, toLowerCase (f k) = toLowerCase k) ->
  detectFromHeaders ((fun kv => (f (fst kv), snd kv)) <$> headers)
  = detectFromHeaders headers.
Proof.
  intros Hf. unfold detectFromHeaders. by rewrite normalizeHeaders_rename.
Qed.

Lemma detectFromHeaders_case_witness :
  detectFromHeaders [("x-powered-by", "PHP/8.1.0")]
  = detectFromHeaders [("X-Powered-By", "PHP/8.1.0")].
Proof.
  apply (detectFromHeaders_case toLowerCase [("X-Powered-By", "PHP/8.1.0")]).
  apply toLowerCase_idem.
Defined.

End HeaderCase.

(** ** Analytics detection on the shipped catalog *)

Section AnalyticsCatalog.

Lemma analyticsRun_omap html : forall signatures emitted,
  NoDup (as_name <$> signatures) ->
  (forall s, s ∈ signatures -> as_name s ∉ emitted) ->
  analyticsRun html emitted signatures = omap (analyticsDetection html) signatures.
Proof.
  induction signatures as [|s signatures IH]; intros emitted Hnd Hfresh; [done|].
  rewrite analyticsRun_cons.
  rewrite fmap_cons in Hnd. apply NoDup_cons in Hnd as [Hs Hnd].
  rewrite decide_False by (apply Hfresh, elem_of_cons; by left).
  cbn [omap list_omap].
  destruct (analyticsDetection html s) as [d|].
  - f_equal. apply IH; [done|]. intros s' Hs' Hin.
    apply elem_of_cons in Hin as [Heq|Hin].
    + apply Hs. rewrite <- Heq. by apply list_elem_of_fmap_2.
    + apply (Hfresh s'); [|done]. apply elem_of_cons. by right.
  - apply IH; [done|]. intros s' Hs'. apply Hfresh. apply elem_of_cons. by right.
Qed.

Lemma analyticsNames_NoDup : NoDup (as_name <$> analyticsSignatures).
Proof. refine (bool_decide_unpack _ _). vm_compute. exact I. Qed.

Lemma detectAnalytics_catalog_eq html :
  ~ onlyWhiteSpace html ->
  data (detectAnalytics html) = omap (analyticsDetection html) analyticsSignatures.
Proof.
  intros Hne.
  assert (He : isEmptyHtml html = false).
  { destruct (isEmptyHtml html) eqn:E; [|done]. by apply isEmptyHtml_spec in E. }
  unfold detectAnalytics. rewrite detectAnalyticsOver_data by done.
  unfold createResponse. cbn [data].
  apply analyticsRun_omap; [apply analyticsNames_NoDup|].
  intros s _ H. by apply elem_of_nil in H.
Qed.

(** X10: the names of the shipped analytics catalog are all different, so
    the guard against names already seen never skips a signature: on a page
    that is not empty the result is, for each signature in catalog order,
    the detection of its first matcher that succeeds, if one does. *)
Theorem detectAnalytics_catalog html :
  ~ onlyWhiteSpace html ->
  data (detectAnalytics html) = omap (analyticsDetection html) analyticsSignatures /\
  da_name <$> data (detectAnalytics html) `sublist_of` as_name <$> analyticsSignatures.
Proof.
  intros Hne. rewrite detectAnalytics_catalog_eq by done. split; [done|].
  induction analyticsSignatures as [|s signatures IH]; [constructor|].
  cbn [omap list_omap]. rewrite fmap_cons.
  destruct (analyticsDetection html s) as [d|] eqn:Hd.
  - rewrite fmap_cons.
    assert (da_name d = as_name s) as ->.
    { unfold analyticsDetection in Hd. destruct (List.find _ _); [|done].
      by injection Hd as <-. }
    by constructor.
  - by apply sublist_cons.
Qed.

Lemma detectAnalytics_catalog_witness :
  data (detectAnalytics "mixpanel.init()")
  = omap (analyticsDetection "mixpanel.init()") analyticsSignatures.
Proof.
  apply detectAnalytics_catalog.
  intros H. specialize (H O "m"%char eq_refl). vm_compute in H. discriminate.
Defined.

Lemma isWhiteSpace_lowerChar c : isWhiteSpace (lowerChar c) = isWhiteSpace c.
Proof. destruct c as [[] [] [] [] [] [] [] []]; reflexivity. Qed.

Lemma get_toLowerCase s : forall i,
  String.get i (toLowerCase s) = lowerChar <$> String.get i s.
Proof.
  induction s as [|c s IH]; intros i; [by destruct i|].
  destruct i as [|i]; simpl; [done|]. apply IH.
Qed.

Lemma onlyWhiteSpace_toLowerCase s :
  onlyWhiteSpace (toLowerCase s) <-> onlyWhiteSpace s.
Proof.
  unfold onlyWhiteSpace. split; intros H i c Hc.
  - rewrite <- isWhiteSpace_lowerChar. apply (H i).
    by rewrite get_toLowerCase, Hc.
  - rewrite get_toLowerCase in Hc.
    destruct (String.get i s) as [c'|] eqn:Hc'; [|done].
    injection Hc as <-. rewrite isWhiteSpace_lowerChar. by apply (H i).
Qed.

(** X11: whatever is detected on the lower-case copy of a page is
    detected, with the same name and type, on the page itself. *)
Theorem detectAnalytics_lowercase html d :
  d ∈ data (detectAnalytics (toLowerCase html)) ->
  exists d', d' ∈ data (detectAnalytics html) /\
             da_name d' = da_name d /\ da_type d' = da_type d.
Proof.
  intros Hd.
  destruct (isEmptyHtml (toLowerCase html)) eqn:Hel.
  { unfold detectAnalytics, detectAnalyticsOver in Hd. rewrite Hel in Hd.
    by apply elem_of_nil in Hd. }
  assert (Hnl : ~ onlyWhiteSpace (toLowerCase html)).
  { intros H. apply isEmptyHtml_spec in H. congruence. }
  assert (Hn : ~ onlyWhiteSpace html) by (by rewrite <- onlyWhiteSpace_toLowerCase).
  rewrite detectAnalytics_catalog_eq in Hd by done.
  apply list_elem_of_omap in Hd as (s & Hs & Hd).
  unfold analyticsDetection in Hd.
  destruct (List.find _ _) as [p|] eqn:Hp; [|done]. injection Hd as <-.
  apply List.find_some in Hp as [Hin Hp].
  unfold matchesEitherCase in Hp. rewrite toLowerCase_idem, orb_diag in Hp.
  destruct (List.find (matchesEitherCase html) (as_patterns s)) as [q|] eqn:Hq.
  - exists {| da_name := as_name s; da_type := as_type s;
              da_evidence := findEvidence html [q] |}.
    split; [|done].
    rewrite detectAnalytics_catalog_eq by done.
    apply list_elem_of_omap. exists s. split; [done|].
    unfold analyticsDetection. by rewrite Hq.
  - pose proof (List.find_none _ _ Hq p Hin) as Hno.
    unfold matchesEitherCase in Hno. rewrite Hp, orb_true_r in Hno. done.
Qed.

Lemma detectAnalytics_lowercase_witness :
  exists d', d' ∈ data (detectAnalytics "cdn/GTM.js") /\
             da_name d' = "Google Tag Manager" /\ da_type d' = tracking.
Proof.
  apply (detectAnalytics_lowercase "cdn/GTM.js"
           {| da_name := "Google Tag Manager"; da_type := tracking;
              da_evidence := Some "gtm.js" |}).
  vm_compute. apply elem_of_cons. by left.
Defined.

End AnalyticsCatalog.

(** ** The fingerprint tool *)

Section FingerprintTool.

Context {number : Type}.
Variable numberToString : number -> string.
Variable parsesAsUrl : string -> bool.
Variable defaultTimeout : number.
Variable fetch : string -> number -> Fingerprint.Completion (@Fingerprint.Response number).

#[local] Abbreviation normalizeUrl := (Fingerprint.normalizeUrl parsesAsUrl).
#[local] Abbreviation fetchWithTimeout := (Fingerprint.fetchWithTimeout numberToString fetch).
#[local] Abbreviation fingerprint :=
  (Fingerprint.fingerprint numberToString parsesAsUrl defaultTimeout fetch).

Lemma startsWith_https url : startsWith ("https://" +:+ url) "https://" = true.
Proof. by destruct url. Qed.

Lemma normalizeUrl_fixed url u :
  normalizeUrl url = Fingerprint.Returns u ->
  normalizeUrl u = Fingerprint.Returns u /\
  startsWith u "http://" || startsWith u "https://" = true /\
  (u = url \/ u = "https://" +:+ url).
Proof.
  intros H. unfold Fingerprint.normalizeUrl in H. cbv zeta in H.
  destruct (negb (startsWith url "http://") && negb (startsWith url "https://")) eqn:Hp.
  - destruct (parsesAsUrl ("https://" +:+ url)) eqn:Hu; [|done].
    assert (u = "https://" +:+ url) as -> by congruence.
    unfold Fingerprint.normalizeUrl. cbv zeta.
    rewrite startsWith_https, andb_false_r, Hu, orb_true_r. auto.
  - destruct (parsesAsUrl url) eqn:Hu; [|done].
    assert (u = url) as -> by congruence.
    unfold Fingerprint.normalizeUrl. cbv zeta.
    rewrite Hp, Hu. split; [done|]. split; [|by left].
    destruct (startsWith url "http://"), (startsWith url "https://"); done.
Qed.

(** X12: a URL that [normalizeUrl] returns is the given one or the given
    one after https://, begins with http:// or https://, and is returned
    unchanged when normalized again; fingerprinting it gives what
    fingerprinting the given URL gives. *)
Theorem normalizeUrl_idempotent url u timeout :
  normalizeUrl url = Fingerprint.Returns u ->
  (u = url \/ u = "https://" +:+ url) /\
  startsWith u "http://" || startsWith u "https://" = true /\
  normalizeUrl u = Fingerprint.Returns u /\
  fingerprint u timeout = fingerprint url timeout.
Proof.
  intros Hu. destruct (normalizeUrl_fixed url u Hu) as (Hfix & Hpre & Hor).
  repeat split; try done.
  unfold Fingerprint.fingerprint. by rewrite Hu, Hfix.
Qed.

Lemma detectFrameworks_warnings html headers :
  warnings (detectFrameworks html headers)
  = if isEmptyHtml html then [emptyHtmlWarning] else [].
Proof. reflexivity. Qed.

Lemma detectAnalyticsOver_warnings signatures html :
  warnings (detectAnalyticsOver signatures html)
  = if isEmptyHtml html then [emptyHtmlWarning] else [].
Proof.
  unfold detectAnalyticsOver. destruct (isEmptyHtml html); [done|].
  cbv zeta. by destruct (foldl _ _ _).
Qed.

Lemma fetchWithTimeout_returns u t html headers :
  fetchWithTimeout u t = Fingerprint.Returns (html, headers) ->
  exists response,
    fetch u t = Fingerprint.Returns response /\
    Fingerprint.response_ok response = true /\
    Fingerprint.response_text response = Fingerprint.Returns html /\
    headers = Fingerprint.headersToObject (Fingerprint.response_headers response).
Proof.
  unfold Fingerprint.fetchWithTimeout.
  destruct (fetch u t) as [response|e]; [|done].
  destruct (Fingerprint.response_ok response) eqn:Hok; [|done]. cbn [negb].
  destruct (Fingerprint.response_text response) as [page|e] eqn:Ht; [|done].
  intros [= <- <-]. by exists response.
Qed.

Lemma fetchWithTimeout_throws u t e :
  fetchWithTimeout u t = Fingerprint.Throws e ->
  fetchFailure numberToString t (fetch u t)
    (if match e with
        | Fingerprint.ErrorObject n _ => String.eqb n "AbortError"
        | Fingerprint.NotAnError => false
        end
     then "Request timeout after " +:+ numberToString t +:+ "ms"
     else "Failed to fetch URL: "
          +:+ match e with
              | Fingerprint.ErrorObject _ m => m
              | Fingerprint.NotAnError => "Failed to fetch URL"
              end).
Proof.
  unfold Fingerprint.fetchWithTimeout.
  destruct (fetch u t) as [response|e'].
  - destruct (Fingerprint.response_ok response) eqn:Hok; cbn [negb].
    + destruct (Fingerprint.response_text response) as [page|e'] eqn:Ht; [done|].
      intros [= <-]. destruct e' as [n m|].
      * destruct (String.eqb_spec n "AbortError") as [->|Hn].
        -- by eapply body_aborted.
        -- by eapply body_rejected.
      * by apply body_rejected_other.
    + intros [= <-]. by apply status_not_ok.
  - intros [= <-]. destruct e' as [n m|].
    + destruct (String.eqb_spec n "AbortError") as [->|Hn].
      * apply fetch_aborted.
      * by apply fetch_rejected.
    + apply fetch_rejected_other.
Qed.

(** X13: a fingerprint that is not ok reports no technologies, no
    analytics and no headers, names its URL as the source, and carries
    exactly one warning. Either the URL did not parse: the warning is
    Invalid URL: and the URL as it was tried, while the URL reported is the
    caller's own; or the URL reported is the normalized one and the warning
    tells a timeout, with the timeout in force, from any other failure of
    the fetch, an HTTP status that is not ok among them. *)
Theorem fingerprint_failure url timeout :
  ok (fingerprint url timeout) = false ->
  reportsNothing (fingerprint url timeout) /\
  Fingerprint.source (fingerprint url timeout)
  = Some (Fingerprint.fd_url (data (fingerprint url timeout))) /\
  exists message,
    warnings (fingerprint url timeout) = [message] /\
    ((Fingerprint.fd_url (data (fingerprint url timeout)) = url /\
      exists tried, (tried = url \/ tried = "https://" +:+ url) /\
                    parsesAsUrl tried = false /\
                    message = "Invalid URL: " +:+ tried)
     \/
     (exists u, normalizeUrl url = Fingerprint.Returns u /\
                Fingerprint.fd_url (data (fingerprint url timeout)) = u /\
                fetchFailure numberToString (default defaultTimeout timeout)
                  (fetch u (default defaultTimeout timeout)) message)).
Proof.
  unfold reportsNothing, Fingerprint.fingerprint. cbv zeta.
  destruct (normalizeUrl url) as [u|e] eqn:Hu.
  - destruct (fetchWithTimeout u (default defaultTimeout timeout))
      as [[html headers]|e] eqn:Hf; [done|].
    intros _. apply fetchWithTimeout_throws in Hf.
    destruct (match e with
              | Fingerprint.ErrorObject n _ => String.eqb n "AbortError"
              | Fingerprint.NotAnError => false
              end);
      (split; [done|]; split; [done|]; eexists; split; [reflexivity|]; right;
       exists u; by repeat split).
  - intros _. revert Hu. unfold Fingerprint.normalizeUrl. cbv zeta.
    destruct (negb (startsWith url "http://") && negb (startsWith url "https://")).
    + destruct (parsesAsUrl ("https://" +:+ url)) eqn:Hp; [done|]. intros [= <-].
      split; [done|]. split; [done|]. eexists. split; [reflexivity|]. left.
      split; [done|]. exists ("https://" +:+ url). auto.
    + destruct (parsesAsUrl url) eqn:Hp; [done|]. intros [= <-].
      split; [done|]. split; [done|]. eexists. split; [reflexivity|]. left.
      split; [done|]. exists url. auto.
Qed.

(** X14: a fingerprint that is ok reports the normalized URL, also as its
    source, and the response's headers; its technologies and analytics are
    what [detectFrameworks], given those headers, and [detectAnalytics]
    find in the body of the response, whose status was ok. It carries no
    warning, unless the body is empty or white space: then the warning of
    an empty page is there twice, once from each detector. *)
Theorem fingerprint_success url timeout :
  ok (fingerprint url timeout) = true ->
  exists u response html,
    normalizeUrl url = Fingerprint.Returns u /\
    fetch u (default defaultTimeout timeout) = Fingerprint.Returns response /\
    Fingerprint.response_ok response = true /\
    Fingerprint.response_text response = Fingerprint.Returns html /\
    Fingerprint.fd_url (data (fingerprint url timeout)) = u /\
    Fingerprint.source (fingerprint url timeout) = Some u /\
    Fingerprint.fd_headers (data (fingerprint url timeout))
    = Fingerprint.headersToObject (Fingerprint.response_headers response) /\
    Fingerprint.fd_technologies (data (fingerprint url timeout))
    = data (detectFrameworks html
              (Some (Fingerprint.headersToObject (Fingerprint.response_headers response)))) /\
    Fingerprint.fd_analytics (data (fingerprint url timeout))
    = data (detectAnalytics html) /\
    warnings (fingerprint url timeout)
    = if isEmptyHtml html then [emptyHtmlWarning; emptyHtmlWarning] else [].
Proof.
  unfold Fingerprint.fingerprint. cbv zeta.
  destruct (normalizeUrl url) as [u|e] eqn:Hu; [|done].
  destruct (fetchWithTimeout u (default defaultTimeout timeout))
    as [[html headers]|e] eqn:Hf.
  2:{ by destruct (match e with
                   | Fingerprint.ErrorObject n _ => String.eqb n "AbortError"
                   | Fingerprint.NotAnError => false
                   end). }
  intros _. apply fetchWithTimeout_returns in Hf as (response & Hr & Hok & Ht & ->).
  exists u, response, html. repeat (split; [done|]).
  unfold Fingerprint.createResponse. cbn [warnings Fingerprint.envelope].
  unfold detectAnalytics.
  rewrite detectFrameworks_warnings, detectAnalyticsOver_warnings.
  by destruct (isEmptyHtml html).
Qed.

End FingerprintTool.

Lemma normalizeUrl_idempotent_witness :
  Fingerprint.normalizeUrl (fun _ => true) "https://example.com"
  = Fingerprint.Returns "https://example.com".
Proof.
  apply (normalizeUrl_idempotent decimal (fun _ => true) 10000
           (answers 200 "OK" "" []) "example.com" "https://example.com" None).
  reflexivity.
Defined.

Lemma fingerprint_failure_witness :
  exists message,
    warnings (Fingerprint.fingerprint decimal (fun _ => true) 10000
                (answers 404 "Not Found" "" []) "example.com" None) = [message].
Proof.
  destruct (fingerprint_failure decimal (fun _ => true) 10000
              (answers 404 "Not Found" "" []) "example.com" None)
    as (_ & _ & message & Hm & _); [reflexivity|].
  by exists message.
Defined.

Lemma fingerprint_success_witness :
  exists u,
    Fingerprint.source (Fingerprint.fingerprint decimal (fun _ => true) 10000
              (answers 200 "OK" " " [("server", "nginx")]) "example.com" None) = Some u.
Proof.
  destruct (fingerprint_success decimal (fun _ => true) 10000
              (answers 200 "OK" " " [("server", "nginx")]) "example.com" None)
    as (u & _ & _ & _ & _ & _ & _ & _ & Hs & _); [reflexivity|].
  by exists u.
Defined.

(** ** The headers that a fingerprint hands to the detector *)

Section FingerprintHeaders.

Lemma arrayIndex_lt_ne k k' n n' :
  JsObject.arrayIndex k = Some n -> JsObject.arrayIndex k' = Some n' -> n' < n ->
  k' <> k.
Proof. intros Hk Hk' Hlt ->. rewrite Hk in Hk'. injection Hk' as ->. lia. Qed.

Lemma insertIndex_get {V} (o : list (string * V)) n k v k' :
  JsObject.arrayIndex k = Some n ->
  JsMap.get (JsObject.insertIndex n (k, v) o) k'
  = if String.eqb k k' then Some v else JsMap.get o k'.
Proof.
  intros Hk. induction o as [|[k0 v0] o IH]; [done|].
  cbn [JsObject.insertIndex fst].
  destruct (JsObject.arrayIndex k0) as [n0|] eqn:Hk0; [|done].
  destruct (n0 <? n) eqn:Hlt; [|done].
  apply Z.ltb_lt in Hlt. cbn [JsMap.get]. rewrite IH.
  destruct (String.eqb_spec k0 k') as [<-|Hne]; [|done].
  pose proof (arrayIndex_lt_ne k k0 n n0 Hk Hk0 Hlt) as Hkk.
  by destruct (String.eqb_spec k k0) as [->|_].
Qed.

Lemma insertIndex_keys {V} (o : list (string * V)) n kv :
  fst <$> JsObject.insertIndex n kv o ≡ₚ fst kv :: (fst <$> o).
Proof.
  induction o as [|kv0 o IH]; [done|].
  cbn [JsObject.insertIndex].
  destruct (JsObject.arrayIndex (fst kv0)); [|done].
  destruct (_ <? _); [|done].
  rewrite !fmap_cons, IH. apply Permutation_swap.
Qed.

Lemma object_get_set {V} (o : list (string * V)) k v k' :
  JsMap.get (JsObject.set o k v) k'
  = if String.eqb k k' then Some v else JsMap.get o k'.
Proof.
  unfold JsObject.set.
  destruct (JsMap.get o k) eqn:Hg; [apply get_set|].
  destruct (JsObject.arrayIndex k) as [n|] eqn:Hk; [|apply get_set].
  by apply insertIndex_get.
Qed.

Lemma object_keys_set {V} (o : list (string * V)) k v :
  NoDup (fst <$> o) -> NoDup (fst <$> JsObject.set o k v).
Proof.
  intros Hnd. unfold JsObject.set.
  assert (Hset : NoDup (fst <$> JsMap.set o k v)).
  { rewrite keys_set. destruct (JsMap.get o k) eqn:Hg; [done|].
    apply get_None in Hg. apply NoDup_app. split; [done|]. split.
    - intros x Hx Hin. by apply list_elem_of_singleton in Hin as ->.
    - apply NoDup_singleton. }
  destruct (JsMap.get o k) eqn:Hg; [done|].
  destruct (JsObject.arrayIndex k) as [n|]; [|done].
  rewrite insertIndex_keys. apply NoDup_cons. split; [|done].
  by apply get_None in Hg.
Qed.

Lemma headersToObject_get headers key :
  JsMap.get (Fingerprint.headersToObject headers) key
  = if String.eqb key "__proto__" then None
    else snd <$> last (filter (fun kv => fst kv = key) headers).
Proof.
  unfold Fingerprint.headersToObject.
  induction headers as [|[k v] headers IH] using rev_ind.
  - by destruct (String.eqb key "__proto__").
  - rewrite foldl_snoc, filter_app, filter_cons, filter_nil. cbn [fst snd].
    destruct (String.eqb_spec k "__proto__") as [->|Hk].
    + rewrite IH. destruct (String.eqb_spec key "__proto__") as [Heq|Hkey]; [done|].
      rewrite decide_False by congruence. by rewrite app_nil_r.
    + rewrite object_get_set, IH. destruct (String.eqb_spec k key) as [->|Hne].
      * rewrite decide_True by done. rewrite last_snoc.
        by destruct (String.eqb_spec key "__proto__").
      * rewrite decide_False by done. by rewrite app_nil_r.
Qed.

Lemma headersToObject_keys headers :
  NoDup (fst <$> Fingerprint.headersToObject headers).
Proof.
  unfold Fingerprint.headersToObject.
  induction headers as [|[k v] headers IH] using rev_ind; [constructor|].
  rewrite foldl_snoc. cbn [fst snd].
  destruct (String.eqb k "__proto__"); [done|].
  by apply object_keys_set.
Qed.

(** Array indices are listed first and in ascending order, whatever the
    order in which the headers come. *)
Example headersToObject_indices_first :
  Fingerprint.headersToObject [("10", "a"); ("9", "b"); ("b", "c"); ("9", "d")]
  = [("9", "d"); ("10", "a"); ("b", "c")].
Proof. reflexivity. Qed.

Lemma headersToObject_entries headers kv :
  kv ∈ Fingerprint.headersToObject headers -> kv ∈ headers.
Proof.
  destruct kv as [k v]. intros Hin.
  apply (get_elem _ _ _ (headersToObject_keys headers)) in Hin.
  rewrite headersToObject_get in Hin.
  destruct (String.eqb k "__proto__"); [done|].
  destruct (last _) as [[k' v']|] eqn:Hl; [|done]. injection Hin as <-.
  apply last_Some_elem_of, list_elem_of_filter in Hl as [Hk Hl].
  simpl in Hk. by subst k'.
Qed.

Lemma filter_lowerCaseNames headers h :
  lowerCaseNames headers ->
  filter (fun kv => toLowerCase (fst kv) = h) headers
  = filter (fun kv => fst kv = h) headers.
Proof.
  intros Hl. induction headers as [|kv headers IH]; [done|].
  apply Forall_cons in Hl as [Hkv Hl].
  rewrite !filter_cons, IH, Hkv by done. done.
Qed.

Lemma last_filter_get {V} (m : list (string * V)) h :
  NoDup (fst <$> m) ->
  snd <$> last (filter (fun kv => fst kv = h) m) = JsMap.get m h.
Proof.
  induction m as [|[k v] m IH]; [done|].
  rewrite fmap_cons. intros Hnd. apply NoDup_cons in Hnd as [Hk Hnd].
  rewrite filter_cons. cbn [fst JsMap.get].
  destruct (String.eqb_spec k h) as [->|Hne].
  - rewrite decide_True by done.
    assert (filter (fun kv : string * V => fst kv = h) m = []) as ->; [|done].
    apply filter_none. apply Forall_forall. intros [k' v'] Hin Heq.
    simpl in Heq. subst k'. apply Hk. by apply (list_elem_of_fmap_2 fst) in Hin.
  - rewrite decide_False by done. by apply IH.
Qed.

Lemma headerValueOf_object headers h :
  lowerCaseNames headers -> h <> "__proto__" ->
  headerValueOf (Fingerprint.headersToObject headers) h = headerValueOf headers h.
Proof.
  intros Hl Hh. unfold headerValueOf.
  rewrite (filter_lowerCaseNames headers) by done.
  rewrite filter_lowerCaseNames.
  2:{ apply Forall_forall. intros kv Hkv. apply headersToObject_entries in Hkv.
      unfold lowerCaseNames in Hl. rewrite Forall_forall in Hl. by apply Hl. }
  rewrite last_filter_get by apply headersToObject_keys.
  rewrite headersToObject_get.
  by destruct (String.eqb_spec h "__proto__").
Qed.

Lemma headerNames_plain :
  Forall (fun s => toLowerCase (hs_header s) <> "__proto__") headerSignatures.
Proof. repeat (constructor; [intros H; vm_compute in H; discriminate|]). constructor. Qed.

Lemma detectFromHeaders_object headers :
  lowerCaseNames headers ->
  detectFromHeaders (Fingerprint.headersToObject headers) = detectFromHeaders headers.
Proof.
  intros Hl. rewrite !detectFromHeaders_spec. f_equal.
  apply Forall_fmap_ext. eapply Forall_impl; [apply headerNames_plain|].
  intros s Hs. unfold headerDetection. cbv beta.
  by rewrite headerValueOf_object.
Qed.

Lemma detectFromHeaders_nil : detectFromHeaders [] = [].
Proof. reflexivity. Qed.

(** X15: the object that a fingerprint builds from the response's headers,
    whose names are in lower case, gives [detectFrameworks] what the
    headers themselves give it, whatever the page; a header that is there
    more than once counts with its last value. *)
Theorem detectFrameworks_headersToObject html headers :
  lowerCaseNames headers ->
  detectFrameworks html (Some (Fingerprint.headersToObject headers))
  = detectFrameworks html (Some headers).
Proof.
  intros Hl. unfold detectFrameworks. cbv zeta. do 3 f_equal.
  unfold collectTechnologies. cbv zeta.
  rewrite <- (detectFromHeaders_object headers Hl).
  destruct (Fingerprint.headersToObject headers) as [|kv m] eqn:Hobj.
  - rewrite detectFromHeaders_nil, app_nil_r. cbn [length].
    by destruct (0 <? Z.of_nat (length headers)).
  - destruct headers as [|kv' headers]; [done|]. reflexivity.
Qed.

Lemma detectFrameworks_headersToObject_witness :
  detectFrameworks "" (Some (Fingerprint.headersToObject [("server", "nginx")]))
  = detectFrameworks "" (Some [("server", "nginx")]).
Proof.
  apply detectFrameworks_headersToObject. repeat constructor.
Defined.

End FingerprintHeaders.

(** ** Pages that carry the fixed text of a matcher *)

Section Literals.

Lemma forall_chars (P : ascii -> bool) :
  forallb P (ascii_of_nat <$> List.seq 0 256) = true -> forall a, P a = true.
Proof.
  intros H a. rewrite List.forallb_forall in H. apply H.
  rewrite <- (ascii_nat_embedding a). apply List.in_map. apply List.in_seq.
  pose proof (nat_ascii_bounded a). lia.
Qed.

Lemma upperChar_lowerChar a : upperChar (lowerChar a) = upperChar a.
Proof.
  apply Ascii.eqb_eq.
  apply (forall_chars (fun a => Ascii.eqb (upperChar (lowerChar a)) (upperChar a))).
  vm_compute. reflexivity.
Qed.

Lemma upperChar_of_lowerChar a c :
  lowerChar a = lowerChar c -> upperChar a = upperChar c.
Proof.
  intros H. by rewrite <- (upperChar_lowerChar a), H, upperChar_lowerChar.
Qed.

Lemma sameText_nil ic s' : sameText ic "" s' -> s' = "".
Proof. destruct ic; simpl; [|done]. by destruct s'. Qed.

Lemma sameText_cons ic a s s' :
  sameText ic (String a s) s' ->
  exists c t, s' = String c t /\ charMatches ic a c = true /\ sameText ic s t.
Proof.
  destruct ic; simpl.
  - destruct s' as [|c t]; [done|]. simpl. intros [= Hc Ht].
    exists c, t. split; [done|]. split; [|done].
    unfold charMatches. apply Ascii.eqb_eq. symmetry. by apply upperChar_of_lowerChar.
  - intros ->. exists a, s. split; [done|]. split; [|done].
    unfold charMatches. apply Ascii.eqb_refl.
Qed.

Lemma rmatch_literal ic r : forall s,
  literalText r = Some s ->
  forall s' t before cs k,
    sameText ic s s' ->
    rmatch ic r {| prev := before; rest := s' +:+ t; caps := cs |} k
    = k {| prev := lastChar before s'; rest := t; caps := cs |}.
Proof.
  induction r as [| a | | | | r1 _ r2 IH | | | | |]; intros s Hs; try discriminate.
  - injection Hs as <-. intros s' t before cs k Hsame.
    apply sameText_cons in Hsame as (c & t' & -> & Hc & Hnil).
    apply sameText_nil in Hnil as ->.
    cbn [rmatch]. unfold step. cbn [rest String.append caps]. by rewrite Hc.
  - destruct r1 as [| a | | | | | | | | |]; try discriminate.
    cbn [literalText] in Hs.
    destruct (literalText r2) as [s2|] eqn:Hs2; [|discriminate].
    injection Hs as <-. intros s' t before cs k Hsame.
    apply sameText_cons in Hsame as (c & t' & -> & Hc & Hrest).
    cbn [rmatch]. unfold step. cbn [rest String.append caps]. rewrite Hc.
    change (lastChar before (String c t')) with (lastChar (Some c) t').
    by apply (IH s2).
Qed.

Lemma literal_matches html p ic s s' :
  literalOf p = Some (ic, s) -> sameText ic s s' -> substringOf s' html ->
  matchesPattern html p = true.
Proof.
  intros Hp Hsame (a & b & ->).
  destruct p as [l|r]; [done|]. cbn [literalOf] in Hp.
  destruct r as [src flag]. cbn [source ignoreCase] in Hp.
  destruct src as [| | | | | r1 r2 | | | | |]; try discriminate.
  destruct r2; try discriminate.
  destruct (literalText r1) as [s1|] eqn:H1; [|discriminate].
  injection Hp as <- <-.
  unfold matchesPattern, test, exec.
  destruct (execFrom _ _ _ _) eqn:He; [done|]. exfalso. revert He.
  apply execFrom_found. cbn [source ignoreCase rmatch].
  by rewrite (rmatch_literal flag r1 s1 H1).
Qed.

Lemma onlyWhiteSpace_prefix s : forall b, onlyWhiteSpace (s +:+ b) -> onlyWhiteSpace s.
Proof.
  induction s as [|c s IH]; intros b; [intros _; apply onlyWhiteSpace_nil|].
  simpl. rewrite !onlyWhiteSpace_cons. intros [Hc H]. split; [done|]. by apply (IH b).
Qed.

Lemma literal_visible html ic s s' :
  isEmptyHtml s = false -> sameText ic s s' ->
  substringOf s' html \/ substringOf s' (toLowerCase html) ->
  isEmptyHtml html = false.
Proof.
  intros Hs Hsame Hsub.
  destruct (isEmptyHtml html) eqn:He; [|done]. exfalso.
  apply isEmptyHtml_spec in He.
  assert (Hs' : onlyWhiteSpace s').
  { destruct Hsub as [(a & b & Heq)|(a & b & Heq)].
    - rewrite Heq in He. by apply onlyWhiteSpace_app, onlyWhiteSpace_prefix in He.
    - apply onlyWhiteSpace_toLowerCase in He. rewrite Heq in He.
      by apply onlyWhiteSpace_app, onlyWhiteSpace_prefix in He. }
  assert (onlyWhiteSpace s) as Hblank.
  { destruct ic; simpl in Hsame; [|by subst].
    apply onlyWhiteSpace_toLowerCase. rewrite <- Hsame.
    by apply onlyWhiteSpace_toLowerCase. }
  apply isEmptyHtml_spec in Hblank. congruence.
Qed.

Lemma literalsVisible_spec patterns p ic s :
  literalsVisible patterns = true -> p ∈ patterns -> literalOf p = Some (ic, s) ->
  isEmptyHtml s = false.
Proof.
  unfold literalsVisible. rewrite List.forallb_forall. intros H Hp Hl.
  apply list_elem_of_In in Hp. specialize (H p Hp). rewrite Hl in H.
  by apply negb_true_iff in H.
Qed.

Lemma frameworkLiterals_visible :
  Forall (fun s => literalsVisible (sp_patterns s) = true) frameworkSignatures.
Proof. repeat (constructor; [by vm_compute|]). constructor. Qed.

Lemma analyticsLiterals_visible :
  Forall (fun s => literalsVisible (as_patterns s) = true) analyticsSignatures.
Proof. repeat (constructor; [by vm_compute|]). constructor. Qed.

(** X16: a page that carries the fixed text of one of a signature's
    matchers, in any case if the matcher has the i flag, is reported to
    use that signature's technology, whatever else is on the page and
    whatever the headers. *)
Theorem detectFrameworks_literal html headers signature p ic s s' :
  signature ∈ frameworkSignatures ->
  p ∈ sp_patterns signature ->
  literalOf p = Some (ic, s) ->
  sameText ic s s' ->
  substringOf s' html ->
  exists t, t ∈ data (detectFrameworks html headers) /\ name t = sp_name signature.
Proof.
  intros Hsig Hp Hlit Hsame Hsub.
  pose proof frameworkLiterals_visible as Hvis. rewrite Forall_forall in Hvis.
  pose proof (literalsVisible_spec _ p ic s (Hvis _ Hsig) Hp Hlit) as Hs.
  assert (He : isEmptyHtml html = false).
  { apply (literal_visible html ic s s'); [done|done|by left]. }
  pose proof (literal_matches html p ic s s' Hlit Hsame Hsub) as Hm.
  assert (Hpos : 0 < matchedCount html (sp_patterns signature)).
  { unfold matchedCount.
    assert (Hin : p ∈ filter (fun p => matchesPattern html p = true) (sp_patterns signature))
      by (by apply list_elem_of_filter).
    destruct (filter _ _); [by apply elem_of_nil in Hin|]. simpl. lia. }
  destruct (detectSignature html signature) as [|t l] eqn:Hd.
  { unfold detectSignature in Hd. rewrite countMatches_spec in Hd.
    apply Z.ltb_lt in Hpos. by rewrite Hpos in Hd. }
  assert (Ht : name t = sp_name signature).
  { unfold detectSignature in Hd. rewrite countMatches_spec in Hd.
    destruct (0 <? _); [|done]. by injection Hd as <- <-. }
  assert (Hin : t ∈ collectTechnologies html headers).
  { apply collect_html; [done|]. apply (detectSignature_in html signature); [done|].
    rewrite Hd. apply elem_of_cons. by left. }
  destruct (deduplicate_best _ t Hin) as (e & He1 & _ & Hname & _).
  exists e. rewrite detectFrameworks_data, sort_perm. split; [done|]. congruence.
Qed.

Lemma detectFrameworks_literal_witness :
  exists t, t ∈ data (detectFrameworks "<a href=/wp-content/themes>" None) /\
            name t = "WordPress".
Proof.
  destruct (frameworkSignatures !! 8%nat) as [signature|] eqn:Hs; [|discriminate].
  injection Hs as Hs.
  destruct (detectFrameworks_literal "<a href=/wp-content/themes>" None signature
              (R [lit "/wp-content/"]) false "/wp-content/" "/wp-content/")
    as (t & Ht & Hn).
  - apply (list_elem_of_lookup_2 _ 8%nat). by rewrite <- Hs.
  - rewrite <- Hs. apply elem_of_cons. by left.
  - reflexivity.
  - reflexivity.
  - by exists "<a href=", "themes>".
  - exists t. split; [exact Ht|]. by rewrite Hn, <- Hs.
Defined.

(** X17: a page that carries the fixed text of one of an analytics
    signature's matchers, or whose lower-case copy does, is reported to
    use that signature's tool. *)
Theorem detectAnalytics_literal html signature p ic s s' :
  signature ∈ analyticsSignatures ->
  p ∈ as_patterns signature ->
  literalOf p = Some (ic, s) ->
  sameText ic s s' ->
  substringOf s' html \/ substringOf s' (toLowerCase html) ->
  exists d, d ∈ data (detectAnalytics html) /\
            da_name d = as_name signature /\ da_type d = as_type signature.
Proof.
  intros Hsig Hp Hlit Hsame Hsub.
  pose proof analyticsLiterals_visible as Hvis. rewrite Forall_forall in Hvis.
  pose proof (literalsVisible_spec _ p ic s (Hvis _ Hsig) Hp Hlit) as Hs.
  pose proof (literal_visible html ic s s' Hs Hsame Hsub) as He.
  assert (Hne : ~ onlyWhiteSpace html).
  { intros H. apply isEmptyHtml_spec in H. congruence. }
  assert (Hm : matchesEitherCase html p = true).
  { unfold matchesEitherCase. apply orb_true_iff.
    destruct Hsub as [Hsub|Hsub]; [left|right];
      by apply (literal_matches _ p ic s s'). }
  rewrite detectAnalytics_catalog_eq by done.
  destruct (analyticsDetection html signature) as [d|] eqn:Hd.
  - exists d. split.
    + apply list_elem_of_omap. by exists signature.
    + unfold analyticsDetection in Hd. destruct (List.find _ _); [|done].
      by injection Hd as <-.
  - exfalso. unfold analyticsDetection in Hd.
    destruct (List.find _ _) eqn:Hf; [done|].
    apply list_elem_of_In in Hp.
    pose proof (List.find_none _ _ Hf p Hp). congruence.
Qed.

Lemma detectAnalytics_literal_witness :
  exists d, d ∈ data (detectAnalytics "<script src=//cdn/GA.JS>") /\
            da_name d = "Google Analytics" /\ da_type d = analytics.
Proof.
  apply (detectAnalytics_literal "<script src=//cdn/GA.JS>" googleAnalytics
           (R [lit "ga.js"]) false "ga.js" "ga.js").
  - apply elem_of_cons. by left.
  - apply elem_of_cons. by left.
  - reflexivity.
  - reflexivity.
  - right. by exists "<script src=//cdn/", ">".
Defined.

End Literals.

(** ** The command line *)

Section CommandLine.

Context {number : Type}.
Variable parseInt : string -> number.
Variable isNaN : number -> bool.
Variable helpText : string.

Lemma parseArgsFrom_port (n : nat) :
  forall args transport port0 host0 a p,
    (length args <= n)%nat ->
    Cli.parseArgsFrom parseInt isNaN helpText args transport port0 host0
    = Cli.Returned a ->
    Cli.port a = Some p ->
    port0 = Some p \/
    (isNaN p = false /\ exists value, value ∈ "undefined" :: args /\ p = parseInt value).
Proof.
  induction n as [|n IH]; intros args transport port0 host0 a p Hn Hr Hp.
  { destruct args; [|simpl in Hn; lia]. injection Hr as <-. by left. }
  destruct args as [|arg rest].
  { injection Hr as <-. by left. }
  simpl in Hn.
  assert (Hweak : forall l q,
    (length l <= n)%nat -> (forall x, x ∈ l -> x ∈ arg :: rest) ->
    q = Some p \/
    (isNaN p = false /\ exists value, value ∈ "undefined" :: l /\ p = parseInt value) ->
    q = Some p \/
    (isNaN p = false /\
     exists value, value ∈ "undefined" :: arg :: rest /\ p = parseInt value)).
  { intros l q _ Hsub [?|(? & value & Hv & ?)]; [by left|right].
    split; [done|]. exists value. split; [|done].
    apply elem_of_cons in Hv as [->|Hv]; [apply elem_of_cons; by left|].
    apply elem_of_cons. right. by apply Hsub. }
  assert (Hrest : forall x, x ∈ rest -> x ∈ arg :: rest)
    by (intros x Hx; apply elem_of_cons; by right).
  cbn [Cli.parseArgsFrom] in Hr.
  destruct (String.eqb arg "--stdio" || String.eqb arg "-s").
  { apply (Hweak rest port0); [lia|done|].
    apply (IH rest Cli.stdio port0 host0 a p); [lia|done|done]. }
  destruct (String.eqb arg "--http" || String.eqb arg "-h").
  { apply (Hweak rest port0); [lia|done|].
    apply (IH rest Cli.http port0 host0 a p); [lia|done|done]. }
  destruct (String.eqb arg "--port" || String.eqb arg "-p").
  { destruct rest as [|value rest']; cbv zeta in Hr.
    - destruct (isNaN (parseInt "undefined")) eqn:Hnan; [done|].
      injection Hr as <-. injection Hp as <-. right. split; [done|].
      exists "undefined". split; [apply elem_of_cons; by left|done].
    - destruct (isNaN (parseInt value)) eqn:Hnan; [done|]. simpl in Hn.
      assert (Hlen : (length rest' <= n)%nat) by lia.
      destruct (IH rest' transport (Some (parseInt value)) host0 a p Hlen Hr Hp)
        as [Heq|Hright].
      + injection Heq as <-. right. split; [done|]. exists value. split; [|done].
        apply elem_of_cons. right. apply elem_of_cons. right. apply elem_of_cons. by left.
      + apply (Hweak rest' port0); [lia| |by right].
        intros x Hx. apply elem_of_cons. right. apply elem_of_cons. by right. }
  destruct (String.eqb arg "--host").
  { destruct rest as [|value rest'].
    - injection Hr as <-. by left.
    - simpl in Hn. apply (Hweak rest' port0); [lia| |].
      + intros x Hx. apply elem_of_cons. right. apply elem_of_cons. by right.
      + apply (IH rest' transport port0 (Some value) a p); [lia|done|done]. }
  destruct (String.eqb arg "--help"); [done|].
  by destruct (String.eqb arg "--version" || String.eqb arg "-v").
Qed.

(** X18: when [parseArgs] returns, the port it returns, if any, is not
    NaN: it is what [parseInt] made of one of the arguments, or of the
    missing argument after a final --port. *)
Theorem parseArgs_port argv a p :
  Cli.parseArgs parseInt isNaN helpText argv = Cli.Returned a ->
  Cli.port a = Some p ->
  isNaN p = false /\
  exists value, value ∈ "undefined" :: List.skipn 2 argv /\ p = parseInt value.
Proof.
  unfold Cli.parseArgs. cbv zeta. intros Hr Hp.
  by destruct (parseArgsFrom_port (length (List.skipn 2 argv)) _ _ _ _ _ _
                 (le_n _) Hr Hp) as [?|?].
Qed.

End CommandLine.

Lemma parseArgs_port_witness :
  isNothing (Some 8080) = false /\
  exists value,
    value ∈ "undefined" :: List.skipn 2 ["node"; "web-stack-scan"; "-h"; "--port"; "8080"] /\
    Some 8080 = parseDigits value.
Proof.
  apply (parseArgs_port parseDigits isNothing ""
           ["node"; "web-stack-scan"; "-h"; "--port"; "8080"]
           {| Cli.transport := Cli.http; Cli.port := Some (Some 8080);
              Cli.host := None |}).
  - reflexivity.
  - reflexivity.
Defined.

(** ** Headers that carry the fixed text of a rule *)

Section HeaderLiterals.

(** X19: if the value of a signature's header contains the fixed text of
    one of the signature's rules, in any case when the rule has the i flag,
    then [detectFrameworks] reports the technology of the first rule of
    that signature that matches the value, whatever the page and the
    other headers. *)
Theorem detectFrameworks_header_literal html headers signature r ic s s' value :
  signature ∈ headerSignatures ->
  headerValueOf headers (toLowerCase (hs_header signature)) = Some value ->
  r ∈ hs_patterns signature ->
  literalOf (hr_pattern r) = Some (ic, s) ->
  sameText ic s s' ->
  substringOf s' value ->
  exists first t,
    List.find (fun r => matchesPattern value (hr_pattern r)) (hs_patterns signature)
    = Some first /\
    t ∈ data (detectFrameworks html (Some headers)) /\
    name t = hr_technology first.
Proof.
  intros Hsig Hval Hr Hlit Hsame Hsub.
  pose proof (literal_matches value (hr_pattern r) ic s s' Hlit Hsame Hsub) as Hm.
  destruct (List.find (fun r => matchesPattern value (hr_pattern r))
                      (hs_patterns signature)) as [first|] eqn:Hf.
  2:{ apply list_elem_of_In in Hr.
      pose proof (List.find_none _ _ Hf r Hr) as Hno. simpl in Hno. congruence. }
  exists first.
  set (t := {| name := hr_technology first; version := None; confidence := high;
               category := hr_category first;
               evidence := Some (hs_header signature +:+ ": " +:+ value) |}).
  assert (Ht : t ∈ detectFromHeaders headers).
  { rewrite detectFromHeaders_spec. apply list_elem_of_join.
    exists (headerDetection headers signature). split.
    - unfold headerDetection. rewrite Hval, Hf. apply elem_of_cons. by left.
    - by apply list_elem_of_fmap_2. }
  assert (Hin : t ∈ collectTechnologies html (Some headers)).
  { unfold collectTechnologies. cbv zeta.
    destruct headers as [|kv headers]; [done|].
    change (0 <? Z.of_nat (length (kv :: headers))) with true. cbv iota.
    apply elem_of_app. by right. }
  destruct (deduplicate_best _ t Hin) as (e & He & _ & Hname & _).
  exists e. split; [done|]. rewrite detectFrameworks_data, sort_perm. by split.
Qed.

Lemma detectFrameworks_header_literal_witness :
  exists first t,
    List.find (fun r => matchesPattern "PHP/8.1 (Express)" (hr_pattern r))
      [ rule (Ri [lit "express"]) "Express" backend_framework;
        rule (Ri [lit "php"]) "PHP" runtime;
        rule (Ri [lit "asp.net"]) "ASP.NET" backend_framework;
        rule (Ri [lit "next.js"]) "Next.js" frontend_framework ]
    = Some first /\
    t ∈ data (detectFrameworks "" (Some [("X-Powered-By", "PHP/8.1 (Express)")])) /\
    name t = hr_technology first.
Proof.
  apply (detectFrameworks_header_literal "" [("X-Powered-By", "PHP/8.1 (Express)")]
           {| hs_header := "x-powered-by";
              hs_patterns :=
                [ rule (Ri [lit "express"]) "Express" backend_framework;
                  rule (Ri [lit "php"]) "PHP" runtime;
                  rule (Ri [lit "asp.net"]) "ASP.NET" backend_framework;
                  rule (Ri [lit "next.js"]) "Next.js" frontend_framework ] |}
           (rule (Ri [lit "php"]) "PHP" runtime) true "php" "PHP" "PHP/8.1 (Express)").
  - apply elem_of_cons. by left.
  - reflexivity.
  - apply elem_of_cons. right. apply elem_of_cons. by left.
  - reflexivity.
  - reflexivity.
  - by exists "", "/8.1 (Express)".
Defined.

End HeaderLiterals.
